(** * MyGit: the snapshot storage subsystem

    A shallow embedding of the storage core of MyGit (utils.c, add.c,
    commit.c and the constants of mygit.h): the djb2 fingerprint, the
    object store, the staging area, the commit log and the branch
    references.

    Text is a list of bytes ([ascii]); a C string held in a buffer is the
    part of the buffer before its first NUL byte.  The file system is a
    finite map from the path text handed to [fopen] to the bytes of the
    file, together with the set of paths that cannot be opened for writing
    and a log of the files opened for writing.  [unsigned long] is 64 bits
    wide, [int] is 32 bits wide and plain [char] is signed (x86-64 Linux).
    Where C leaves [int] overflow undefined the value wraps around. *)

From stdpp Require Import gmap strings list fin_maps.
From Stdlib Require Import ZArith Ascii Lia.

Open Scope Z_scope.

(** ** Bytes and C strings *)

Abbreviation bytes := (list ascii).

Definition B (s : string) : bytes := String.list_ascii_of_string s.

Definition NUL : ascii := "000"%char.
Definition LF : ascii := "010"%char.
Definition CR : ascii := "013"%char.

Definition is_nul (c : ascii) : bool := Ascii.eqb c NUL.
Definition is_lf (c : ascii) : bool := Ascii.eqb c LF.

(** The C string stored in a buffer: everything before the first NUL. *)
Fixpoint cstr (buf : bytes) : bytes :=
  match buf with
  | [] => []
  | c :: rest => if is_nul c then [] else c :: cstr rest
  end.

Module CLib.

(** [strcspn(s, "\n\r")] followed by [s[...] = '\0']: cut at the first line
    break. *)
Fixpoint chomp (s : bytes) : bytes :=
  match s with
  | [] => []
  | c :: rest =>
      if Ascii.eqb c LF || Ascii.eqb c CR then [] else c :: chomp rest
  end.

(** [strtok]: skip the leading delimiters, then read up to the next one.
    The result is the token and the text after the delimiter that ended
    it, where a later [strtok(NULL, ...)] resumes. *)
Fixpoint skip_delims (d : ascii) (s : bytes) : bytes :=
  match s with
  | [] => []
  | c :: rest => if Ascii.eqb c d then skip_delims d rest else s
  end.

Fixpoint token_split (d : ascii) (s : bytes) : bytes * bytes :=
  match s with
  | [] => ([], [])
  | c :: rest =>
      if Ascii.eqb c d then ([], rest)
      else let '(tok, after) := token_split d rest in (c :: tok, after)
  end.

Definition strtok (d : ascii) (s : bytes) : option (bytes * bytes) :=
  match skip_delims d s with
  | [] => None
  | s' => Some (token_split d s')
  end.

(** [fgets(line, size, fp)] called until it returns NULL: the file is cut
    into chunks that end after a line feed, or when [size - 1] bytes have
    been read, or at the end of the file.  [room] is the space left in the
    chunk being filled. *)
Fixpoint fgets_from (size : nat) (room : nat) (s : bytes) : list bytes :=
  match s with
  | [] => []
  | c :: rest =>
      if is_lf c || (room =? 1)%nat then [c] :: fgets_from size (size - 1) rest
      else match fgets_from size (room - 1) rest with
           | [] => [[c]]
           | chunk :: chunks => (c :: chunk) :: chunks
           end
  end.

Definition fgets_all (size : nat) (s : bytes) : list bytes :=
  fgets_from size (size - 1) s.

(** Integer conversions *)
Definition wrap (bits : Z) (n : Z) : Z := n mod 2 ^ bits.
Definition wrap_signed (bits : Z) (n : Z) : Z :=
  (n + 2 ^ (bits - 1)) mod 2 ^ bits - 2 ^ (bits - 1).

Definition ULONG_MAX : Z := 2 ^ 64 - 1.
Definition LONG_MAX : Z := 2 ^ 63 - 1.
Definition LONG_MIN : Z := - 2 ^ 63.

Definition to_ulong (n : Z) : Z := wrap 64 n.
Definition to_int (n : Z) : Z := wrap_signed 32 n.

Definition is_space (c : ascii) : bool :=
  let n := nat_of_ascii c in ((n =? 32) || ((9 <=? n) && (n <=? 13)))%nat.

Definition digit_val (c : ascii) : option Z :=
  let n := Z.of_nat (nat_of_ascii c) in
  if (48 <=? n) && (n <=? 57) then Some (n - 48) else None.

Fixpoint skip_spaces (s : bytes) : bytes :=
  match s with
  | [] => []
  | c :: rest => if is_space c then skip_spaces rest else s
  end.

(** The value of the longest prefix of decimal digits. *)
Fixpoint digits_val (acc : Z) (s : bytes) : Z :=
  match s with
  | [] => acc
  | c :: rest =>
      match digit_val c with
      | Some d => digits_val (acc * 10 + d) rest
      | None => acc
      end
  end.

(** The subject sequence of [strtol], [strtoul] and [%d]: white space, an
    optional sign, decimal digits.  The result is the sign and the
    magnitude; [None] when there is no digit. *)
Definition scan_decimal (s : bytes) : option (bool * Z) :=
  let s1 := skip_spaces s in
  let '(neg, s2) :=
    match s1 with
    | c :: rest =>
        if Ascii.eqb c "-"%char then (true, rest)
        else if Ascii.eqb c "+"%char then (false, rest)
        else (false, s1)
    | [] => (false, s1)
    end in
  match s2 with
  | c :: _ =>
      match digit_val c with
      | Some _ => Some (neg, digits_val 0 s2)
      | None => None
      end
  | [] => None
  end.

(** [strtol(s, NULL, 10)]: out of range values are clamped. *)
Definition strtol (s : bytes) : Z :=
  match scan_decimal s with
  | None => 0
  | Some (neg, m) =>
      let v := if neg then - m else m in
      Z.max LONG_MIN (Z.min LONG_MAX v)
  end.

(** [strtoul(s, NULL, 10)]: clamped at [ULONG_MAX], and a negated value is
    taken modulo [2^64]. *)
Definition strtoul (s : bytes) : Z :=
  match scan_decimal s with
  | None => 0
  | Some (neg, m) =>
      if ULONG_MAX <? m then ULONG_MAX
      else if neg then to_ulong (- m) else m
  end.

(** [atoi(s)] is [(int) strtol(s, NULL, 10)]. *)
Definition atoi (s : bytes) : Z := to_int (strtol s).

(** [sscanf(s, lit "%d", &v) == 1]: the literal text must match byte for
    byte, then a decimal integer is read as by [strtol] and stored in an
    [int]. *)
Fixpoint match_literal (lit s : bytes) : option bytes :=
  match lit with
  | [] => Some s
  | l :: lit' =>
      match s with
      | c :: rest => if Ascii.eqb c l then match_literal lit' rest else None
      | [] => None
      end
  end.

Definition sscanf_lit_d (lit s : bytes) : option Z :=
  match match_literal lit s with
  | None => None
  | Some rest =>
      match scan_decimal rest with
      | None => None
      | Some (neg, m) =>
          let v := if neg then - m else m in
          Some (to_int (Z.max LONG_MIN (Z.min LONG_MAX v)))
      end
  end.

(** [printf] conversions.  The digits are produced least significant
    first; an [unsigned long] has at most 20 of them, an [int] at most
    10. *)
Definition digit_char (d : Z) : ascii := ascii_of_nat (Z.to_nat (48 + d)).

Fixpoint digits_rev (fuel : nat) (n : Z) : bytes :=
  match fuel with
  | O => []
  | S fuel' =>
      digit_char (n mod 10)
        :: (if n / 10 =? 0 then [] else digits_rev fuel' (n / 10))
  end.

(** ["%lu"] *)
Definition fmt_lu (n : Z) : bytes := rev (digits_rev 20 n).

(** ["%d"] *)
Definition fmt_d (n : Z) : bytes :=
  if n <? 0 then "-"%char :: rev (digits_rev 10 (- n))
  else rev (digits_rev 10 n).

(** [snprintf(buf, size, ...)] keeps at most [size - 1] bytes. *)
Definition snprintf (size : nat) (text : bytes) : bytes := take (size - 1) text.

End CLib.

Import CLib.

(** ** mygit.h *)

Definition MAX_MESSAGE : nat := 256.
Definition MAX_FILENAME : nat := 256.
Definition MAX_CONTENT : nat := 10000.
Definition MAX_PATH : nat := 512.
Definition MAX_LINE : nat := 1024.
Definition MAX_BRANCH_NAME : nat := 50.

Definition OBJECTS_DIR : bytes := Eval cbv in B ".mygit/objects".
Definition REFS_DIR : bytes := Eval cbv in B ".mygit/refs".
Definition HEAD_FILE : bytes := Eval cbv in B ".mygit/HEAD".
Definition STAGING_FILE : bytes := Eval cbv in B ".mygit/staging.dat".
Definition COMMITS_FILE : bytes := Eval cbv in B ".mygit/commits.dat".

(** [struct Commit]: the two parallel arrays [filenames] and [file_hashes]
    are one list of pairs, and [file_count] is its length.  The in-memory
    links [parent] and [next] are always NULL here. *)
Record Commit := {
  id : Z;
  message : bytes;
  timestamp : bytes;
  branch : bytes;
  parent_id : Z;
  entries : list (bytes * Z)
}.

Definition file_count (c : Commit) : nat := length (entries c).

(** The number of slots of [filenames] and [file_hashes]. *)
Definition COMMIT_SLOTS : nat := 10.

(** ** The file system *)

(** The files by the text of their path, the paths that cannot be opened
    for writing, and the paths opened for writing so far, last first.
    [fopen] resolves [.] and [..], so that two texts can name one file;
    the texts of a state are meant to name different files, which holds
    for the paths in normal form ([normal_path] below). *)
Record disk := {
  files : gmap bytes bytes;
  readonly : gset bytes;
  writes : list bytes
}.

Definition fopen_r (s : disk) (path : bytes) : option bytes := files s !! path.

Definition store (s : disk) (path text : bytes) : disk :=
  {| files := <[path := text]> (files s);
     readonly := readonly s;
     writes := path :: writes s |}.

(** [fopen(path, "w")], the [fprintf]s that follow it, and [fclose]. *)
Definition fopen_w (s : disk) (path text : bytes) : option disk :=
  if decide (path ∈ readonly s) then None else Some (store s path text).

(** [fopen(path, "a")], the [fprintf]s that follow it, and [fclose]. *)
Definition fopen_a (s : disk) (path text : bytes) : option disk :=
  if decide (path ∈ readonly s) then None
  else Some (store s path (default [] (files s !! path) ++ text)).

(** ** utils.c *)

Definition char_to_int (c : ascii) : Z :=
  let n := Z.of_nat (nat_of_ascii c) in if n <? 128 then n else n - 256.

Fixpoint hash_loop (hash : Z) (content : bytes) : Z :=
  match content with
  | [] => hash
  | c :: rest =>
      if is_nul c then hash
      else hash_loop (to_ulong (Z.shiftl hash 5 + hash + char_to_int c)) rest
  end.

Definition hash_content (content : bytes) : Z := hash_loop 5381 content.

Definition file_exists (s : disk) (path : bytes) : bool :=
  match fopen_r s path with
  | Some _ => true
  | None => false
  end.

(** The result is the buffer up to [bytes_read]; [None] stands for -1. *)
Definition read_file (s : disk) (path : bytes) (max_size : nat) : option bytes :=
  match fopen_r s path with
  | None => None
  | Some data => Some (take (max_size - 1) data)
  end.

(** [None] stands for -1. *)
Definition write_file (s : disk) (path content : bytes) : option disk :=
  fopen_w s path (cstr content).

Definition COMMIT_TAG : bytes := Eval cbv in B "COMMIT:".

Fixpoint max_commit_id (max_id : Z) (lines : list bytes) : Z :=
  match lines with
  | [] => max_id
  | line :: rest =>
      match sscanf_lit_d COMMIT_TAG (cstr line) with
      | Some id => max_commit_id (if max_id <? id then id else max_id) rest
      | None => max_commit_id max_id rest
      end
  end.

Definition get_next_commit_id (s : disk) : Z :=
  match fopen_r s COMMITS_FILE with
  | None => 1
  | Some log => to_int (max_commit_id 0 (fgets_all MAX_LINE log) + 1)
  end.

(** Drop the last byte when it is a line feed. *)
Fixpoint drop_final_lf (s : bytes) : bytes :=
  match s with
  | [] => []
  | [c] => if is_lf c then [] else [c]
  | c :: rest => c :: drop_final_lf rest
  end.

Definition get_current_branch (s : disk) (size : nat) : bytes :=
  let buffer :=
    match read_file s HEAD_FILE size with
    | None => B "main"
    | Some buf => cstr buf
    end in
  drop_final_lf buffer.

(** ** commit.c *)

(** A staging line that is a comment or is empty, once its line break has
    been cut: [line[0] == '#' || strlen(line) == 0]. *)
Definition is_comment_or_empty (line : bytes) : bool :=
  match line with
  | [] => true
  | c :: _ => Ascii.eqb c "#"%char
  end.

Fixpoint count_loop (count : Z) (lines : list bytes) : Z :=
  match lines with
  | [] => count
  | raw :: rest =>
      let line := chomp (cstr raw) in
      if is_comment_or_empty line then count_loop count rest
      else count_loop (to_int (count + 1)) rest
  end.

Definition count_staged_files (s : disk) : Z :=
  match fopen_r s STAGING_FILE with
  | None => 0
  | Some data => count_loop 0 (fgets_all MAX_LINE data)
  end.

(** What [read_staged_files] leaves in the commit: the entries read, -1
    when the staging file cannot be opened, or a [strcpy] of a filename
    that does not fit its [MAX_FILENAME] slot. *)
Inductive staged_read :=
  | ReadOk (es : list (bytes * Z))
  | ReadError
  | ReadOverflow.

Definition PIPE : ascii := "|"%char.

Fixpoint read_loop (es : list (bytes * Z)) (lines : list bytes) : staged_read :=
  match lines with
  | [] => ReadOk es
  | raw :: rest =>
      let line := chomp (cstr raw) in
      if is_comment_or_empty line then read_loop es rest
      else if (COMMIT_SLOTS <=? length es)%nat then ReadOk es
      else
        match strtok PIPE line with
        | None => read_loop es rest
        | Some (filename, after) =>
            match strtok PIPE after with
            | None => read_loop es rest
            | Some (hash_str, _) =>
                if (MAX_FILENAME <=? length filename)%nat then ReadOverflow
                else read_loop (es ++ [(filename, strtoul hash_str)]) rest
            end
        end
  end.

Definition read_staged_files (s : disk) : staged_read :=
  match fopen_r s STAGING_FILE with
  | None => ReadError
  | Some data => read_loop [] (fgets_all MAX_LINE data)
  end.

Definition ref_path (branch : bytes) : bytes :=
  snprintf MAX_PATH (REFS_DIR ++ "/"%char :: branch).

Definition get_last_commit_id_on_branch (s : disk) (branch : bytes) : Z :=
  match read_file s (ref_path branch) 64 with
  | None => 0
  | Some content => atoi (cstr content)
  end.

(** The items of a FILES or HASHES line, a comma before each but the
    first. *)
Fixpoint comma_separated (items : list bytes) : bytes :=
  match items with
  | [] => []
  | [x] => x
  | x :: rest => x ++ ","%char :: comma_separated rest
  end.

Definition commit_record (c : Commit) : bytes :=
  B "COMMIT:" ++ fmt_d (id c) ++ [LF] ++
  B "MSG:" ++ message c ++ [LF] ++
  B "TIME:" ++ timestamp c ++ [LF] ++
  B "BRANCH:" ++ branch c ++ [LF] ++
  B "PARENT:" ++ fmt_d (parent_id c) ++ [LF] ++
  B "FILES:" ++ comma_separated (fst <$> entries c) ++ [LF] ++
  B "HASHES:" ++ comma_separated (fmt_lu ∘ snd <$> entries c) ++ [LF] ++
  B "END" ++ [LF].

(** [None] stands for -1. *)
Definition save_commit (s : disk) (c : Commit) : option disk :=
  fopen_a s COMMITS_FILE (commit_record c).

Definition update_branch_ref (s : disk) (branch : bytes) (commit_id : Z) : disk :=
  let id_str := snprintf 20 (fmt_d commit_id) in
  match write_file s (ref_path branch) id_str with
  | Some s' => s'
  | None => s
  end.

Definition STAGING_HEADER : bytes := Eval cbv in B "# MyGit Staging Area" ++ [LF].

Definition clear_staging_area (s : disk) : disk :=
  match fopen_w s STAGING_FILE STAGING_HEADER with
  | Some s' => s'
  | None => s
  end.

Inductive commit_error := NothingToCommit | StagingUnreadable | CommitNotSaved.

(** The outcome of [mygit_commit]: return value 0 with the commit that was
    written, return value -1 with the reason printed, or undefined
    behaviour. *)
Inductive commit_result :=
  | Committed (c : Commit) (s : disk)
  | CommitFailed (e : commit_error) (s : disk)
  | CommitUndefined.

(** [now] is the text [get_timestamp] obtains from the clock. *)
Definition mygit_commit (s : disk) (msg now : bytes) : commit_result :=
  let staged_count := count_staged_files s in
  if staged_count =? 0 then CommitFailed NothingToCommit s
  else
    let new_id := get_next_commit_id s in
    let new_message := take (MAX_MESSAGE - 1) (cstr msg) in
    let new_timestamp := cstr now in
    let new_branch := get_current_branch s MAX_BRANCH_NAME in
    let last_id := get_last_commit_id_on_branch s new_branch in
    let new_parent := if last_id =? 0 then -1 else last_id in
    match read_staged_files s with
    | ReadError => CommitFailed StagingUnreadable s
    | ReadOverflow => CommitUndefined
    | ReadOk es =>
        let new_commit :=
          {| id := new_id; message := new_message;
             timestamp := new_timestamp; branch := new_branch;
             parent_id := new_parent; entries := es |} in
        match save_commit s new_commit with
        | None => CommitFailed CommitNotSaved s
        | Some s1 =>
            let s2 := update_branch_ref s1 new_branch new_id in
            let s3 := clear_staging_area s2 in
            Committed new_commit s3
        end
    end.

Definition commit_exit_code (r : commit_result) : option Z :=
  match r with
  | Committed _ _ => Some 0
  | CommitFailed _ _ => Some (-1)
  | CommitUndefined => None
  end.

(** ** add.c *)

Definition blob_path (hash : Z) : bytes :=
  snprintf MAX_PATH (OBJECTS_DIR ++ "/"%char :: fmt_lu hash ++ B ".blob").

(** [None] stands for -1. *)
Definition save_blob (s : disk) (content : bytes) (hash : Z) : option disk :=
  if file_exists s (blob_path hash) then Some s
  else write_file s (blob_path hash) content.

Fixpoint staged_loop (filename : bytes) (lines : list bytes) : bool :=
  match lines with
  | [] => false
  | raw :: rest =>
      let line := cstr raw in
      match line with
      | c :: _ =>
          if Ascii.eqb c "#"%char then staged_loop filename rest
          else
            match chomp line with
            | [] => staged_loop filename rest
            | line' =>
                match strtok PIPE line' with
                | Some (stored_filename, _) =>
                    if decide (stored_filename = filename) then true
                    else staged_loop filename rest
                | None => staged_loop filename rest
                end
            end
      | [] => staged_loop filename rest
      end
  end.

Definition is_already_staged (s : disk) (filename : bytes) : bool :=
  match fopen_r s STAGING_FILE with
  | None => false
  | Some data => staged_loop filename (fgets_all MAX_LINE data)
  end.

(** The number of rows of the local array [lines]. *)
Definition LINES_CAPACITY : nat := 100.

(** The lines kept, in order; [None] when a line is stored past the last
    row of [lines]. *)
Fixpoint keep_loop (filename : bytes) (kept : list bytes) (lines : list bytes)
  : option (list bytes) :=
  match lines with
  | [] => Some kept
  | raw :: rest =>
      let line := cstr raw in
      let stored_name := strtok PIPE (chomp line) in
      let keep :=
        match stored_name with
        | None => true
        | Some (name, _) => negb (bool_decide (name = filename))
        end in
      if keep then
        if (LINES_CAPACITY <=? length kept)%nat then None
        else keep_loop filename (kept ++ [line]) rest
      else keep_loop filename kept rest
  end.

(** [None] is undefined behaviour: a store outside [lines]. *)
Definition remove_from_staging (s : disk) (filename : bytes) : option disk :=
  match fopen_r s STAGING_FILE with
  | None => Some s
  | Some data =>
      match keep_loop filename [] (fgets_all MAX_LINE data) with
      | None => None
      | Some kept =>
          match fopen_w s STAGING_FILE (concat kept) with
          | None => Some s
          | Some s' => Some s'
          end
      end
  end.

Inductive add_error :=
  FileNotFound | FileUnreadable | ObjectNotSaved | StagingNotOpened.

(** The outcome of [mygit_add]: return value 0 with the hash it prints,
    return value -1 with the reason printed, or undefined behaviour. *)
Inductive add_result :=
  | Staged (hash : Z) (s : disk)
  | AddFailed (e : add_error) (s : disk)
  | AddUndefined.

Definition staging_line (filename : bytes) (hash : Z) : bytes :=
  filename ++ PIPE :: fmt_lu hash ++ [LF].

(** Step 5 of [mygit_add]: replace or add the staging entry of
    [filename]. *)
Definition stage (s : disk) (filename : bytes) (hash : Z) : add_result :=
  let removed :=
    if is_already_staged s filename then remove_from_staging s filename
    else Some s in
  match removed with
  | None => AddUndefined
  | Some s1 =>
      match fopen_a s1 STAGING_FILE (staging_line filename hash) with
      | None => AddFailed StagingNotOpened s1
      | Some s2 => Staged hash s2
      end
  end.

Definition mygit_add (s : disk) (filename : bytes) : add_result :=
  if negb (file_exists s filename) then AddFailed FileNotFound s
  else
    match read_file s filename MAX_CONTENT with
    | None => AddFailed FileUnreadable s
    | Some content =>
        let hash := hash_content content in
        match save_blob s content hash with
        | None => AddFailed ObjectNotSaved s
        | Some s1 => stage s1 filename hash
        end
    end.

Definition add_exit_code (r : add_result) : option Z :=
  match r with
  | Staged _ _ => Some 0
  | AddFailed _ _ => Some (-1)
  | AddUndefined => None
  end.

(** ** Vocabulary of the statements *)

(** A text file made of lines, each closed by a line feed. *)
Definition unlines (ls : list bytes) : bytes :=
  concat ((λ l, l ++ [LF]) <$> ls).

(** A line that holds no NUL byte and that one [fgets] call reads whole,
    line feed included. *)
Definition line_ok (l : bytes) : Prop :=
  (NUL ∉ l) ∧ (LF ∉ l) ∧ (length l < MAX_LINE - 1)%nat.

(** A file that is empty or ends with a line feed. *)
Definition complete (text : bytes) : Prop :=
  text = [] ∨ ∃ body, text = body ++ [LF].

Definition is_digit (c : ascii) : Prop := is_Some (digit_val c).

(** A filename the staging format can hold: not empty, free of the bytes
    that structure a staging line, not read as a comment, and short enough
    for its slot in a commit. *)
Definition name_ok (f : bytes) : Prop :=
  f ≠ [] ∧ (NUL ∉ f) ∧ (LF ∉ f) ∧ (CR ∉ f) ∧ (PIPE ∉ f)
  ∧ head f ≠ Some "#"%char ∧ (length f < MAX_FILENAME)%nat.

(** The name [remove_from_staging] reads on a line. *)
Definition line_name (line : bytes) : option bytes :=
  fst <$> strtok PIPE (chomp line).

(** The entry [read_staged_files] reads on a line, if any. *)
Definition line_entry (line : bytes) : option (bytes * Z) :=
  let text := chomp line in
  if is_comment_or_empty text then None
  else
    match strtok PIPE text with
    | None => None
    | Some (filename, after) =>
        match strtok PIPE after with
        | None => None
        | Some (hash_str, _) => Some (filename, strtoul hash_str)
        end
    end.

(** The staged set: every entry [read_staged_files] would read if a commit
    had room for all of them; empty when there is no staging file. *)
Definition staged_entries (s : disk) : list (bytes * Z) :=
  match fopen_r s STAGING_FILE with
  | None => []
  | Some data => omap (line_entry ∘ cstr) (fgets_all MAX_LINE data)
  end.

(** The lines of the staging file that count as entries. *)
Definition entry_lines (s : disk) : list bytes :=
  match fopen_r s STAGING_FILE with
  | None => []
  | Some data =>
      filter (λ line, is_comment_or_empty line = false)
             (chomp ∘ cstr <$> fgets_all MAX_LINE data)
  end.

(** The staging file reads as the lines [ls]; a missing file reads as an
    empty one. *)
Definition staging_is (s : disk) (ls : list bytes) : Prop :=
  default [] (files s !! STAGING_FILE) = unlines ls ∧ Forall line_ok ls.

(** Re-staging [f] rewrites the file through the [LINES_CAPACITY] rows of
    [lines]: the lines of the other files must fit. *)
Definition restage_fits (f : bytes) (ls : list bytes) : Prop :=
  Exists (λ l, line_name l = Some f) ls →
  (length (filter (λ l, line_name l ≠ Some f) ls) ≤ LINES_CAPACITY)%nat.

Definition entry_text (f : bytes) (h : Z) : bytes := f ++ PIPE :: fmt_lu h.

Global Instance line_ok_dec l : Decision (line_ok l).
Proof. unfold line_ok. apply _. Defined.

Global Instance name_ok_dec f : Decision (name_ok f).
Proof. unfold name_ok. apply _. Defined.

(** Steps 3 and 4 of [mygit_add]: the object store's [put]. *)
Definition put (s : disk) (content : bytes) : option disk :=
  save_blob s content (hash_content content).

(** Reading a blob back: [read_file] on the path of the fingerprint, with
    a buffer of the size [mygit_add] reads files into, taken as a C
    string.  [None] is the -1 of [read_file]: no such blob. *)
Definition read_blob (s : disk) (hash : Z) : option bytes :=
  cstr <$> read_file s (blob_path hash) MAX_CONTENT.

(** The bytes of a file that [mygit_add] takes into account. *)
Definition staged_content (data : bytes) : bytes :=
  cstr (take (MAX_CONTENT - 1) data).

(** ** Example repositories *)

Definition disk_of (l : list (bytes * bytes)) : disk :=
  {| files := list_to_map l; readonly := ∅; writes := [] |}.

(** The files [mygit_init] writes into an empty directory. *)
Definition init_files : list (bytes * bytes) :=
  [ (HEAD_FILE, B "main");
    (COMMITS_FILE, B "# MyGit Commit History" ++ [LF]);
    (STAGING_FILE, STAGING_HEADER);
    (ref_path (B "main"), B "0") ].

Definition fresh_repo : disk := disk_of init_files.

(** A fresh repository in a directory that holds two files. *)
Definition work_repo : disk :=
  disk_of (init_files ++ [(B "a.txt", B "hello"); (B "b.txt", B "world")]).

(** A repository whose staging file is missing. *)
Definition unstaged_repo : disk :=
  disk_of [ (HEAD_FILE, B "main"); (B "a.txt", B "hello") ].

(** The staging file after [n] files [f0], [f1], ... were staged. *)
Definition numbered_name (i : nat) : bytes := B "f" ++ fmt_d (Z.of_nat i).

Definition numbered_lines (n : nat) : list bytes :=
  (λ i, entry_text (numbered_name i) (Z.of_nat i)) <$> seq 0 n.

Definition crowded_repo (n : nat) : disk :=
  disk_of [ (HEAD_FILE, B "main");
            (B "f0", B "new text");
            (STAGING_FILE, STAGING_HEADER ++ unlines (numbered_lines n)) ].

Definition unwrap_add (r : add_result) (d : disk) : disk :=
  match r with
  | Staged _ s => s
  | AddFailed _ s => s
  | AddUndefined => d
  end.

Definition unwrap_commit (r : commit_result) (d : disk) : disk :=
  match r with
  | Committed _ s => s
  | CommitFailed _ s => s
  | CommitUndefined => d
  end.

Definition header_line : bytes := Eval cbv in B "# MyGit Staging Area".

(** A repository whose staging file holds the lines [ls]. *)
Definition staged_repo (ls : list bytes) : disk :=
  disk_of [ (HEAD_FILE, B "main"); (STAGING_FILE, unlines ls) ].

(** ** Runs of commits *)

(** The largest commit id in the log; 0 when it holds none. *)
Definition last_commit_id (s : disk) : Z :=
  match fopen_r s COMMITS_FILE with
  | None => 0
  | Some log => max_commit_id 0 (fgets_all MAX_LINE log)
  end.

Definition current_branch (s : disk) : bytes :=
  get_current_branch s MAX_BRANCH_NAME.

(** [t] differs from [s] by commands that leave the history alone, such
    as [mygit_add] or edits of the working files: the commit log, HEAD, the
    reference of the current branch and the permissions are the same. *)
Definition same_history (s t : disk) : Prop :=
  files t !! COMMITS_FILE = files s !! COMMITS_FILE
  ∧ files t !! HEAD_FILE = files s !! HEAD_FILE
  ∧ files t !! ref_path (current_branch s) = files s !! ref_path (current_branch s)
  ∧ readonly t = readonly s.

(** [commit_run s cs s']: starting in [s], the commits [cs] succeed one
    after the other, each after some commands that leave the history
    alone, and the last one ends in [s']. *)
Inductive commit_run : disk → list Commit → disk → Prop :=
  | run_nil s : commit_run s [] s
  | run_cons s t c s' cs s'' msg now :
      same_history s t →
      mygit_commit t msg now = Committed c s' →
      commit_run s' cs s'' →
      commit_run s (c :: cs) s''.

(** Text that one [fgets] call reads whole once a line feed is put behind
    it. *)
Definition single_line (l : bytes) : Prop :=
  (LF ∉ l) ∧ (length l < MAX_LINE - 1)%nat.

(** A commit whose record has one line per field: no text field holds a
    line feed, the timestamp fits the buffer [strftime] fills, and the
    FILES line fits the line buffer. *)
Definition plain_record (c : Commit) : Prop :=
  (LF ∉ message c)
  ∧ (LF ∉ timestamp c) ∧ (length (timestamp c) < 64)%nat
  ∧ (LF ∉ branch c)
  ∧ single_line (B "FILES:" ++ comma_separated (fst <$> entries c)).

Global Instance single_line_dec l : Decision (single_line l).
Proof. unfold single_line. apply _. Defined.

Global Instance plain_record_dec c : Decision (plain_record c).
Proof. unfold plain_record. apply _. Defined.

(** The eight lines of a commit record, without their line feeds. *)
Definition record_lines (c : Commit) : list bytes :=
  [ B "COMMIT:" ++ fmt_d (id c);
    B "MSG:" ++ message c;
    B "TIME:" ++ timestamp c;
    B "BRANCH:" ++ branch c;
    B "PARENT:" ++ fmt_d (parent_id c);
    B "FILES:" ++ comma_separated (fst <$> entries c);
    B "HASHES:" ++ comma_separated (fmt_lu ∘ snd <$> entries c);
    B "END" ].

(** A repository with one commit on [main], switched to a branch [dev]
    that has no commit yet, with one file staged. *)
Definition second_branch_repo : disk :=
  disk_of [ (HEAD_FILE, B "dev");
            (COMMITS_FILE,
             unlines [ B "# MyGit Commit History"; B "COMMIT:1"; B "MSG:first";
                       B "TIME:2025-01-15 14:30:00"; B "BRANCH:main";
                       B "PARENT:-1"; B "FILES:a.txt"; B "HASHES:210714636441";
                       B "END" ]);
            (ref_path (B "main"), B "1");
            (STAGING_FILE, unlines [header_line; B "b.txt|210732791149"]) ].

(** ** Directories and init.c *)

Definition MYGIT_DIR : bytes := Eval cbv in B ".mygit".

(** The working directory: its files, and the directories below it by
    path. *)
Record workdir := {
  wd_disk : disk;
  wd_dirs : gset bytes
}.

Definition directory_exists (w : workdir) (path : bytes) : bool :=
  bool_decide (path ∈ wd_dirs w).

(** The path without its last component; empty for a name without '/',
    which lies in the working directory itself. *)
Fixpoint parent_dir (path : bytes) : bytes :=
  match path with
  | [] => []
  | c :: rest =>
      if bool_decide ("/"%char ∈ rest) then c :: parent_dir rest else []
  end.

(** [mkdir(path, 0777)]: it fails when the path exists, when its parent
    directory does not, or when the path cannot be written.  [None]
    stands for -1. *)
Definition create_directory (w : workdir) (path : bytes) : option workdir :=
  if bool_decide (path ∈ wd_dirs w) then None
  else if file_exists (wd_disk w) path then None
  else if bool_decide (path ∈ readonly (wd_disk w)) then None
  else if bool_decide (parent_dir path ≠ [] ∧ parent_dir path ∉ wd_dirs w) then None
  else Some {| wd_disk := wd_disk w; wd_dirs := {[path]} ∪ wd_dirs w |}.

Definition with_disk (w : workdir) (d : disk) : workdir :=
  {| wd_disk := d; wd_dirs := wd_dirs w |}.

Definition COMMITS_HEADER : bytes :=
  Eval cbv in B "# MyGit Commit History" ++ [LF].

(** The result is the return value and the working directory left. *)
Definition mygit_init (w : workdir) : Z * workdir :=
  if directory_exists w MYGIT_DIR then (0, w)
  else
    match create_directory w MYGIT_DIR with
    | None => (-1, w)
    | Some w1 =>
        match create_directory w1 OBJECTS_DIR with
        | None => (-1, w1)
        | Some w2 =>
            match create_directory w2 REFS_DIR with
            | None => (-1, w2)
            | Some w3 =>
                match write_file (wd_disk w3) HEAD_FILE (B "main") with
                | None => (-1, w3)
                | Some d4 =>
                    let d5 := default d4 (fopen_w d4 COMMITS_FILE COMMITS_HEADER) in
                    let d6 := default d5 (fopen_w d5 STAGING_FILE STAGING_HEADER) in
                    let d7 := default d6 (write_file d6 (ref_path (B "main")) (B "0")) in
                    (0, with_disk w3 d7)
                end
            end
        end
    end.

(** A working directory that holds the given files and no directory. *)
Definition plain_workdir (l : list (bytes * bytes)) : workdir :=
  {| wd_disk := disk_of l; wd_dirs := ∅ |}.

(** ** Sessions *)

(** One invocation of [mygit add <filename>] or [mygit commit <msg>] in an
    initialised repository, as [main] dispatches them. *)
Inductive command :=
  | DoAdd (filename : bytes)
  | DoCommit (msg now : bytes).

(** The file system a command leaves; [None] when its behaviour is
    undefined. *)
Definition exec (s : disk) (c : command) : option disk :=
  match c with
  | DoAdd filename =>
      match mygit_add s filename with
      | Staged _ s' => Some s'
      | AddFailed _ s' => Some s'
      | AddUndefined => None
      end
  | DoCommit msg now =>
      match mygit_commit s msg now with
      | Committed _ s' => Some s'
      | CommitFailed _ s' => Some s'
      | CommitUndefined => None
      end
  end.

Fixpoint run (s : disk) (cs : list command) : option disk :=
  match cs with
  | [] => Some s
  | c :: rest =>
      match exec s c with
      | Some s' => run s' rest
      | None => None
      end
  end.

(** The ids of the commit headers in the log, in log order. *)
Definition log_ids (s : disk) : list Z :=
  match fopen_r s COMMITS_FILE with
  | None => []
  | Some log => omap (sscanf_lit_d COMMIT_TAG ∘ cstr) (fgets_all MAX_LINE log)
  end.


(** A path whose text starts with [.mygit/]. *)
Definition in_repository (path : bytes) : Prop :=
  take 7 path = MYGIT_DIR ++ ["/"%char].

(** ** Path texts *)

(** A name that is one path component: not empty, without '/', and
    neither [.] nor [..].  The reference of a branch with such a name is a
    file of its own in [.mygit/refs]. *)
Definition plain_name (b : bytes) : Prop :=
  b ≠ [] ∧ ("/"%char ∉ b) ∧ b ≠ B "." ∧ b ≠ B "..".

(** The components of a path, cut at each '/'. *)
Fixpoint components (p : bytes) : list bytes :=
  match p with
  | [] => [[]]
  | c :: rest =>
      if Ascii.eqb c "/"%char then [] :: components rest
      else match components rest with
           | [] => [[c]]
           | x :: xs => (c :: x) :: xs
           end
  end.

(** A relative path in normal form: every component is a plain name, so
    that no other such text names the same file. *)
Definition normal_path (p : bytes) : Prop := Forall plain_name (components p).

(** A path in normal form that does not lead into [.mygit]. *)
Definition work_path (p : bytes) : Prop :=
  normal_path p ∧ head (components p) ≠ Some MYGIT_DIR.

Global Instance plain_name_dec b : Decision (plain_name b).
Proof. unfold plain_name. apply _. Defined.

Global Instance work_path_dec p : Decision (work_path p).
Proof. unfold work_path, normal_path. apply _. Defined.

(** A working directory without a repository: [.mygit] and the paths
    below it are neither files nor directories, and they can be
    created. *)
Definition no_repository (w : workdir) : Prop :=
  ∀ p, p = MYGIT_DIR ∨ in_repository p →
    (p ∉ wd_dirs w) ∧ files (wd_disk w) !! p = None ∧ (p ∉ readonly (wd_disk w)).

(** What [read_staged_files] can read as an entry: a name that is not
    empty and holds none of the bytes that end a token, a line or a C
    string, and a value of an [unsigned long]. *)
Definition entry_well_formed (e : bytes * Z) : Prop :=
  e.1 ≠ [] ∧ (PIPE ∉ e.1) ∧ (LF ∉ e.1) ∧ (CR ∉ e.1) ∧ (NUL ∉ e.1)
  ∧ 0 ≤ e.2 ≤ ULONG_MAX.

(** Every blob is stored under the fingerprint of its content. *)
Definition store_consistent (s : disk) : Prop :=
  ∀ k x, 0 ≤ k ≤ ULONG_MAX → files s !! blob_path k = Some x → hash_content x = k.

(** [second_branch_repo] with a commit log that cannot be written. *)
Definition locked_log_repo : disk :=
  {| files := files second_branch_repo;
     readonly := {[COMMITS_FILE]};
     writes := [] |}.

(** An empty working directory in which [.mygit/HEAD] cannot be
    written. *)
Definition locked_head_workdir : workdir :=
  {| wd_disk := {| files := ∅; readonly := {[HEAD_FILE]}; writes := [] |};
     wd_dirs := ∅ |}.

(** A fresh repository in which the blob of [hello] cannot be written. *)
Definition locked_blob_repo : disk :=
  {| files := files fresh_repo;
     readonly := {[blob_path (hash_content (B "hello"))]};
     writes := [] |}.

(** ** main.c *)

(** The functions [main] calls that these sources do not define. *)
Inductive absent_call :=
  | CallLog
  | CallStatus
  | CallDiff (filename : bytes)
  | CallCheckout (target : bytes)
  | CallListBranches
  | CallBranch (name : bytes).

(** The outcome of [main]: its return value and the working directory
    left, the call whose result it returns when that function is not
    defined here, or undefined behaviour. *)
Inductive main_result :=
  | Exit (code : Z) (w : workdir)
  | Returns (call : absent_call) (w : workdir)
  | MainUndefined.

(** [strcmp(a, b) == 0] *)
Definition strcmp_eq (a b : bytes) : bool := bool_decide (cstr a = cstr b).

(** [argv] holds the arguments, the program name first; [now] is the text
    [get_timestamp] obtains from the clock. *)
Definition main (now : bytes) (argv : list bytes) (w : workdir) : main_result :=
  match argv with
  | [] | [_] => Exit 0 w
  | _ :: command :: args =>
      if strcmp_eq command (B "init") then
        let '(code, w') := mygit_init w in Exit code w'
      else if negb (directory_exists w MYGIT_DIR) then Exit 1 w
      else if strcmp_eq command (B "add") then
        match args with
        | [] => Exit 1 w
        | filename :: _ =>
            match mygit_add (wd_disk w) (cstr filename) with
            | Staged _ s => Exit 0 (with_disk w s)
            | AddFailed _ s => Exit (-1) (with_disk w s)
            | AddUndefined => MainUndefined
            end
        end
      else if strcmp_eq command (B "commit") then
        match args with
        | [] => Exit 1 w
        | msg :: _ =>
            match mygit_commit (wd_disk w) msg now with
            | Committed _ s => Exit 0 (with_disk w s)
            | CommitFailed _ s => Exit (-1) (with_disk w s)
            | CommitUndefined => MainUndefined
            end
        end
      else if strcmp_eq command (B "log") then Returns CallLog w
      else if strcmp_eq command (B "status") then Returns CallStatus w
      else if strcmp_eq command (B "diff") then
        match args with
        | [] => Exit 1 w
        | filename :: _ => Returns (CallDiff (cstr filename)) w
        end
      else if strcmp_eq command (B "checkout") then
        match args with
        | [] => Exit 1 w
        | target :: _ => Returns (CallCheckout (cstr target)) w
        end
      else if strcmp_eq command (B "branch") then
        match args with
        | [] => Returns CallListBranches w
        | name :: _ => Returns (CallBranch (cstr name)) w
        end
      else if strcmp_eq command (B "help") then Exit 0 w
      else Exit 1 w
  end.

(** * Properties *)

(** A statement about a concrete repository is settled by running the
    model. *)
Ltac by_computation := vm_compute; reflexivity.

(** ** The model at work *)

Example hash_content_hello : hash_content (B "hello") = 210714636441.
Proof. by_computation. Qed.

Example hash_content_stops_at_nul :
  hash_content (B "hello" ++ NUL :: B "tail") = hash_content (B "hello").
Proof. by_computation. Qed.

Example strtok_entry : strtok PIPE (B "a.txt|42") = Some (B "a.txt", B "42").
Proof. by_computation. Qed.

Example strtok_skips_leading_delimiters : strtok PIPE (B "||42") = Some (B "42", []).
Proof. by_computation. Qed.

Example fgets_all_cuts_long_lines :
  fgets_all 4 (B "abcdef" ++ LF :: B "g") = [B "abc"; B "def"; [LF]; B "g"].
Proof. by_computation. Qed.

Example atoi_prefix : atoi (B " 12x") = 12.
Proof. by_computation. Qed.

Example strtoul_clamps : strtoul (B "18446744073709551616") = ULONG_MAX.
Proof. by_computation. Qed.

Example fmt_d_negative : fmt_d (-1) = B "-1".
Proof. by_computation. Qed.

Example sscanf_commit_header : sscanf_lit_d COMMIT_TAG (B "COMMIT:7") = Some 7.
Proof. by_computation. Qed.

Example sscanf_other_line : sscanf_lit_d COMMIT_TAG (B "MSG:COMMIT:7") = None.
Proof. by_computation. Qed.

(** The scenario of two commits of one file: the second version replaces
    the staged entry, the second commit has the first as parent, and each
    commit clears the staging area. *)
Example two_commits_scenario :
  let now := B "2025-01-15 14:30:00" in
  let t1 := unwrap_add (mygit_add work_repo (B "a.txt")) work_repo in
  let s1 := unwrap_commit (mygit_commit t1 (B "first") now) work_repo in
  let e1 := store s1 (B "a.txt") (B "hello!") in
  let t2 := unwrap_add (mygit_add (unwrap_add (mygit_add e1 (B "a.txt")) e1) (B "a.txt")) e1 in
  let s2 := unwrap_commit (mygit_commit t2 (B "second") now) work_repo in
  staged_entries t1 = [(B "a.txt", hash_content (B "hello"))]
  ∧ staged_entries s1 = []
  ∧ get_last_commit_id_on_branch s1 (B "main") = 1
  ∧ staged_entries t2 = [(B "a.txt", hash_content (B "hello!"))]
  ∧ staged_entries s2 = []
  ∧ get_last_commit_id_on_branch s2 (B "main") = 2
  ∧ files s2 !! COMMITS_FILE
    = Some (unlines
        [ B "# MyGit Commit History";
          B "COMMIT:1"; B "MSG:first"; B "TIME:2025-01-15 14:30:00";
          B "BRANCH:main"; B "PARENT:-1"; B "FILES:a.txt";
          B "HASHES:210714636441"; B "END";
          B "COMMIT:2"; B "MSG:second"; B "TIME:2025-01-15 14:30:00";
          B "BRANCH:main"; B "PARENT:1"; B "FILES:a.txt";
          B "HASHES:6953583002586"; B "END" ]).
Proof. repeat split; by_computation. Qed.

(** ** Lines *)

Lemma is_lf_true c : is_lf c = true ↔ c = LF.
Proof. unfold is_lf. apply Ascii.eqb_eq. Qed.

Lemma is_lf_false c : is_lf c = false ↔ c ≠ LF.
Proof. unfold is_lf. apply Ascii.eqb_neq. Qed.

Section Lines.

Variable size : nat.

Lemma fgets_from_nonempty room c s : fgets_from size room (c :: s) ≠ [].
Proof.
  simpl. destruct (is_lf c || (room =? 1)%nat); [done|].
  by destruct (fgets_from size (room - 1) s).
Qed.

(** One short line is read by one call. *)
Lemma fgets_from_line room l rest :
  LF ∉ l → (length l < room)%nat →
  fgets_from size room (l ++ LF :: rest) = (l ++ [LF]) :: fgets_all size rest.
Proof.
  revert room. induction l as [|c l IH]; intros room Hlf Hlen; simpl.
  - done.
  - apply not_elem_of_cons in Hlf as [Hc Hl]. simpl in Hlen.
    apply not_eq_sym, is_lf_false in Hc. rewrite Hc. simpl.
    destruct (Nat.eqb_spec room 1) as [->|Hroom]; [lia|].
    rewrite IH; [done|done|lia].
Qed.

(** Text appended to a complete file is read as lines of its own. *)
Lemma fgets_from_app_lf room body b :
  fgets_from size room ((body ++ [LF]) ++ b)
  = fgets_from size room (body ++ [LF]) ++ fgets_all size b.
Proof.
  revert room. induction body as [|c body IH]; intros room; [done|].
  simpl. destruct (is_lf c || (room =? 1)%nat).
  - by rewrite IH.
  - rewrite IH. destruct (fgets_from size (room - 1) (body ++ [LF])) eqn:E; [|done].
    destruct body; by apply fgets_from_nonempty in E.
Qed.

Lemma fgets_all_app a b :
  complete a → fgets_all size (a ++ b) = fgets_all size a ++ fgets_all size b.
Proof.
  intros [->|[body ->]]; [done|]. apply fgets_from_app_lf.
Qed.

End Lines.

Lemma fgets_all_unlines ls :
  Forall line_ok ls → fgets_all MAX_LINE (unlines ls) = (λ l, l ++ [LF]) <$> ls.
Proof.
  induction 1 as [|l ls (_ & Hlf & Hlen) _ IH]; [done|].
  change (unlines (l :: ls)) with ((l ++ [LF]) ++ unlines ls).
  rewrite <- (assoc_L (++)). simpl.
  unfold fgets_all at 1. rewrite fgets_from_line; [|done|done].
  by rewrite IH.
Qed.

(** ** C strings *)

Lemma is_nul_false c : is_nul c = false ↔ c ≠ NUL.
Proof. unfold is_nul. apply Ascii.eqb_neq. Qed.

Lemma cstr_id l : NUL ∉ l → cstr l = l.
Proof.
  induction l as [|c l IH]; [done|]. intros [Hc Hl]%not_elem_of_cons. simpl.
  apply not_eq_sym, is_nul_false in Hc. rewrite Hc. by rewrite IH.
Qed.

Lemma cstr_no_nul buf : NUL ∉ cstr buf.
Proof.
  induction buf as [|c buf IH]; simpl; [apply not_elem_of_nil|].
  destruct (is_nul c) eqn:E; [apply not_elem_of_nil|].
  apply is_nul_false in E. apply not_elem_of_cons. auto.
Qed.

Lemma cstr_idemp buf : cstr (cstr buf) = cstr buf.
Proof. apply cstr_id, cstr_no_nul. Qed.

Lemma cstr_length buf : (length (cstr buf) ≤ length buf)%nat.
Proof.
  induction buf as [|c buf IH]; simpl; [lia|].
  destruct (is_nul c); simpl; lia.
Qed.

(** ** Decimal text *)

Lemma digit_char_val d : 0 ≤ d ≤ 9 → digit_val (digit_char d) = Some d.
Proof.
  intros Hd.
  assert (d = 0 ∨ d = 1 ∨ d = 2 ∨ d = 3 ∨ d = 4 ∨ d = 5 ∨ d = 6 ∨ d = 7
          ∨ d = 8 ∨ d = 9) as Hcases by lia.
  repeat destruct Hcases as [->|Hcases]; try subst d; reflexivity.
Qed.

Lemma digit_char_is_digit d : 0 ≤ d ≤ 9 → is_digit (digit_char d).
Proof. intros Hd. unfold is_digit. rewrite digit_char_val; eauto. Qed.

(** A digit is none of the bytes that structure the files. *)
Lemma is_digit_plain c :
  is_digit c →
  is_space c = false ∧ c ≠ "-"%char ∧ c ≠ "+"%char ∧ c ≠ NUL ∧ c ≠ LF
  ∧ c ≠ CR ∧ c ≠ PIPE ∧ c ≠ "#"%char ∧ c ≠ ","%char.
Proof.
  intros [d Hd]. revert Hd.
  destruct c as [[] [] [] [] [] [] [] []]; vm_compute; intros Hd;
    try discriminate Hd; repeat split; discriminate.
Qed.

Lemma digits_rev_digits fuel n : Forall is_digit (digits_rev fuel n).
Proof.
  revert n. induction fuel as [|fuel IH]; intros n; simpl; [done|].
  constructor.
  - apply digit_char_is_digit. pose proof (Z.mod_pos_bound n 10); lia.
  - destruct (n / 10 =? 0); [done|]. apply IH.
Qed.

Lemma digits_rev_length fuel n : (length (digits_rev fuel n) ≤ fuel)%nat.
Proof.
  revert n. induction fuel as [|fuel IH]; intros n; simpl; [lia|].
  destruct (n / 10 =? 0); simpl; [lia|]. specialize (IH (n / 10)). lia.
Qed.

Lemma digits_rev_nonempty fuel n : digits_rev (S fuel) n ≠ [].
Proof. done. Qed.

Lemma digits_val_rev fuel n acc rest :
  0 ≤ n < 10 ^ Z.of_nat fuel →
  digits_val acc (rev (digits_rev fuel n) ++ rest)
  = digits_val (acc * 10 ^ Z.of_nat (length (digits_rev fuel n)) + n) rest.
Proof.
  revert n acc rest. induction fuel as [|fuel IH]; intros n acc rest Hn.
  - simpl in *. f_equal. lia.
  - rewrite Nat2Z.inj_succ, Z.pow_succ_r in Hn by lia.
    cbn [digits_rev]. pose proof (Z.div_mod n 10 ltac:(lia)) as Hdm.
    pose proof (Z.mod_pos_bound n 10 ltac:(lia)) as Hmod.
    destruct (Z.eqb_spec (n / 10) 0) as [Hq|Hq].
    + cbn [rev length app digits_val]. rewrite digit_char_val by lia.
      f_equal. change (Z.of_nat 1) with 1. lia.
    + cbn [rev length]. rewrite <- (assoc_L (++)). cbn [app].
      rewrite IH by (split; [apply Z.div_pos; lia | apply Z.div_lt_upper_bound; lia]).
      cbn [digits_val]. rewrite digit_char_val by lia. f_equal.
      rewrite Nat2Z.inj_succ, Z.pow_succ_r by lia. lia.
Qed.

Lemma digits_val_stop acc rest :
  match rest with [] => True | c :: _ => ¬ is_digit c end →
  digits_val acc rest = acc.
Proof.
  destruct rest as [|c rest]; [done|]. simpl. intros Hc.
  destruct (digit_val c) eqn:E; [|done]. destruct Hc. by eexists.
Qed.

(** Reading back the digits of a number. *)
Lemma scan_decimal_digits fuel n rest :
  0 ≤ n < 10 ^ Z.of_nat (S fuel) →
  match rest with [] => True | c :: _ => ¬ is_digit c end →
  scan_decimal (rev (digits_rev (S fuel) n) ++ rest) = Some (false, n).
Proof.
  intros Hn Hrest.
  pose proof (digits_val_rev (S fuel) n 0 rest Hn) as Hval.
  rewrite (digits_val_stop _ rest Hrest) in Hval. simpl (0 * _ + _) in Hval.
  pose proof (digits_rev_digits (S fuel) n) as Hds.
  apply Forall_rev in Hds.
  destruct (rev (digits_rev (S fuel) n)) as [|c ds] eqn:E.
  { apply (f_equal length) in E. rewrite length_rev in E. simpl in E. lia. }
  apply Forall_cons in Hds as [Hc _].
  destruct (is_digit_plain c Hc) as (Hsp & Hminus & Hplus & _).
  unfold scan_decimal. cbn [app skip_spaces]. rewrite Hsp.
  apply Ascii.eqb_neq in Hminus, Hplus. rewrite Hminus, Hplus.
  change ((c :: ds) ++ rest) with (c :: (ds ++ rest)) in Hval.
  destruct Hc as [d Hd]. rewrite Hd. by rewrite Hval.
Qed.

Lemma to_int_small n : - 2 ^ 31 ≤ n < 2 ^ 31 → to_int n = n.
Proof.
  intros Hn. unfold to_int, wrap_signed. rewrite Z.mod_small; lia.
Qed.

Lemma fmt_lu_digits h : Forall is_digit (fmt_lu h).
Proof. apply Forall_rev, digits_rev_digits. Qed.

Lemma fmt_lu_length h : (length (fmt_lu h) ≤ 20)%nat.
Proof. unfold fmt_lu. rewrite length_rev. apply digits_rev_length. Qed.

Lemma fmt_lu_nonempty h : fmt_lu h ≠ [].
Proof.
  unfold fmt_lu. intros E. apply (f_equal (@rev ascii)) in E.
  rewrite rev_involutive in E. by apply (digits_rev_nonempty 19 h).
Qed.

Lemma strtoul_fmt_lu h : 0 ≤ h ≤ ULONG_MAX → strtoul (fmt_lu h) = h.
Proof.
  intros Hh. unfold strtoul, fmt_lu.
  rewrite <- (app_nil_r (rev _)).
  rewrite scan_decimal_digits; [|unfold ULONG_MAX in Hh; lia|done].
  destruct (Z.ltb_spec ULONG_MAX h); [lia|done].
Qed.

Lemma fmt_d_nat n : 0 ≤ n → fmt_d n = rev (digits_rev 10 n).
Proof. intros Hn. unfold fmt_d. destruct (Z.ltb_spec n 0); [lia|done]. Qed.

Lemma fmt_d_digits n : 0 ≤ n → Forall is_digit (fmt_d n).
Proof.
  intros Hn. rewrite fmt_d_nat by done. apply Forall_rev, digits_rev_digits.
Qed.

Lemma fmt_d_length n : (length (fmt_d n) ≤ 11)%nat.
Proof.
  unfold fmt_d. destruct (n <? 0); cbn [length]; rewrite length_rev.
  - pose proof (digits_rev_length 10 (- n)). lia.
  - pose proof (digits_rev_length 10 n). lia.
Qed.

Lemma atoi_fmt_d n : 0 ≤ n < 2 ^ 31 → atoi (fmt_d n) = n.
Proof.
  intros Hn. unfold atoi, strtol. rewrite fmt_d_nat by lia.
  rewrite <- (app_nil_r (rev _)).
  rewrite scan_decimal_digits; [|lia|done].
  unfold LONG_MIN, LONG_MAX. rewrite Z.min_r, Z.max_r by lia.
  apply to_int_small. lia.
Qed.

Lemma sscanf_commit_line n rest :
  0 ≤ n < 2 ^ 31 →
  sscanf_lit_d COMMIT_TAG (COMMIT_TAG ++ fmt_d n ++ LF :: rest) = Some n.
Proof.
  intros Hn. unfold sscanf_lit_d. cbn [COMMIT_TAG app match_literal Ascii.eqb Bool.eqb].
  rewrite fmt_d_nat by lia.
  rewrite scan_decimal_digits; [|lia|].
  - unfold LONG_MIN, LONG_MAX. rewrite Z.min_r, Z.max_r by lia.
    f_equal. apply to_int_small. lia.
  - intros [d Hd]. discriminate Hd.
Qed.

(** ** Staging lines *)

Lemma chomp_app_lf l rest : LF ∉ l → chomp (l ++ LF :: rest) = chomp l.
Proof.
  induction l as [|c l IH]; [done|]. intros [Hc Hl]%not_elem_of_cons. simpl.
  destruct (Ascii.eqb c LF || Ascii.eqb c CR); [done|]. by rewrite IH.
Qed.

Lemma chomp_id l : LF ∉ l → CR ∉ l → chomp l = l.
Proof.
  induction l as [|c l IH]; [done|].
  intros [Hc Hl]%not_elem_of_cons [Hc' Hl']%not_elem_of_cons. simpl.
  apply not_eq_sym, Ascii.eqb_neq in Hc, Hc'. rewrite Hc, Hc'. simpl.
  by rewrite IH.
Qed.

Lemma chomp_no_lf s : LF ∉ chomp s.
Proof.
  induction s as [|c s IH]; simpl; [apply not_elem_of_nil|].
  destruct (Ascii.eqb_spec c LF) as [->|Hc]; simpl; [apply not_elem_of_nil|].
  destruct (Ascii.eqb c CR); [apply not_elem_of_nil|].
  apply not_elem_of_cons. auto.
Qed.

Section Tokens.

Variable d : ascii.

Lemma token_split_app tok rest :
  d ∉ tok → token_split d (tok ++ d :: rest) = (tok, rest).
Proof.
  induction tok as [|c tok IH]; simpl.
  - by rewrite Ascii.eqb_refl.
  - intros [Hc Ht]%not_elem_of_cons. apply not_eq_sym, Ascii.eqb_neq in Hc.
    rewrite Hc. by rewrite IH.
Qed.

Lemma token_split_all tok : d ∉ tok → token_split d tok = (tok, []).
Proof.
  induction tok as [|c tok IH]; simpl; [done|].
  intros [Hc Ht]%not_elem_of_cons. apply not_eq_sym, Ascii.eqb_neq in Hc.
  rewrite Hc. by rewrite IH.
Qed.

Lemma token_split_fst_sub s c : c ∈ (token_split d s).1 → c ∈ s.
Proof.
  induction s as [|x s IH]; simpl; [done|].
  destruct (Ascii.eqb x d); simpl; [by intros ?%elem_of_nil|].
  destruct (token_split d s) as [tok after]. simpl in *.
  intros [->|H]%elem_of_cons; [left|right; auto].
Qed.

Lemma skip_delims_sub s c : c ∈ skip_delims d s → c ∈ s.
Proof.
  induction s as [|x s IH]; simpl; [done|].
  destruct (Ascii.eqb x d); [right; auto|done].
Qed.

(** A token holds bytes of the text it was cut from. *)
Lemma strtok_sub s tok after c : strtok d s = Some (tok, after) → c ∈ tok → c ∈ s.
Proof.
  unfold strtok. destruct (skip_delims d s) as [|x s'] eqn:E; [done|].
  intros Htok Hc. apply skip_delims_sub. rewrite E.
  apply token_split_fst_sub.
  replace (token_split d (x :: s')) with (tok, after) by congruence. done.
Qed.

Lemma strtok_cons c s :
  c ≠ d → strtok d (c :: s) = Some (c :: (token_split d s).1, (token_split d s).2).
Proof.
  intros Hc. apply Ascii.eqb_neq in Hc. unfold strtok. simpl. rewrite Hc.
  simpl. rewrite Hc. by destruct (token_split d s).
Qed.

Lemma strtok_token tok rest :
  tok ≠ [] → d ∉ tok → strtok d (tok ++ d :: rest) = Some (tok, rest).
Proof.
  intros Hne Hd. destruct tok as [|c tok]; [done|].
  apply not_elem_of_cons in Hd as [Hc Ht]. simpl.
  rewrite strtok_cons by done. by rewrite token_split_app.
Qed.

Lemma strtok_last tok :
  tok ≠ [] → d ∉ tok → strtok d tok = Some (tok, []).
Proof.
  intros Hne Hd. destruct tok as [|c tok]; [done|].
  apply not_elem_of_cons in Hd as [Hc Ht].
  rewrite strtok_cons by done. by rewrite token_split_all.
Qed.

End Tokens.

(** The name read on a line starts like the line, unless the line starts
    with a separator. *)
Lemma line_name_head l f : line_name l = Some f → head l ≠ Some PIPE → head f = head l.
Proof.
  unfold line_name. destruct l as [|c l]; [done|]. simpl.
  destruct (Ascii.eqb c LF || Ascii.eqb c CR); [done|].
  intros Hf Hc. rewrite strtok_cons in Hf by congruence. by inversion Hf.
Qed.

Lemma line_name_comment l f :
  name_ok f → head l = Some "#"%char → line_name l ≠ Some f.
Proof.
  intros (_ & _ & _ & _ & _ & Hhash & _) Hl Hf.
  apply line_name_head in Hf; [congruence|]. rewrite Hl. discriminate.
Qed.

Lemma line_entry_name l g v : line_entry l = Some (g, v) → line_name l = Some g.
Proof.
  unfold line_entry, line_name. destruct (is_comment_or_empty (chomp l)); [done|].
  destruct (strtok PIPE (chomp l)) as [[filename after]|]; [|done].
  destruct (strtok PIPE after) as [[hash_str ?]|]; [|done]. by intros [= -> _].
Qed.

Lemma fmt_lu_plain h c : c ∈ fmt_lu h → is_digit c.
Proof.
  intros Hc. pose proof (fmt_lu_digits h) as Hds.
  rewrite Forall_forall in Hds. auto.
Qed.

Lemma digits_not_elem ds c : Forall is_digit ds → ¬ is_digit c → c ∉ ds.
Proof. intros Hds Hc Hin. rewrite Forall_forall in Hds. auto. Qed.

Lemma not_digit_NUL : ¬ is_digit NUL. Proof. by intros [d Hd]. Qed.
Lemma not_digit_LF : ¬ is_digit LF. Proof. by intros [d Hd]. Qed.
Lemma not_digit_CR : ¬ is_digit CR. Proof. by intros [d Hd]. Qed.
Lemma not_digit_PIPE : ¬ is_digit PIPE. Proof. by intros [d Hd]. Qed.

Lemma entry_text_not_elem f h c :
  c ∉ f → c ≠ PIPE → ¬ is_digit c → c ∉ entry_text f h.
Proof.
  intros Hf Hp Hd. unfold entry_text. rewrite elem_of_app, elem_of_cons.
  intros [?|[?|Hin]]; [done|done|]. by apply Hd, (fmt_lu_plain h).
Qed.

Lemma entry_text_ok f h : name_ok f → line_ok (entry_text f h).
Proof.
  intros (_ & Hnul & Hlf & _ & _ & _ & Hlen). repeat split.
  - by apply entry_text_not_elem; [| |apply not_digit_NUL].
  - by apply entry_text_not_elem; [| |apply not_digit_LF].
  - unfold entry_text. rewrite length_app. cbn [length].
    pose proof (fmt_lu_length h).
    unfold MAX_FILENAME in Hlen. unfold MAX_LINE. lia.
Qed.

Lemma chomp_entry_text f h : name_ok f → chomp (entry_text f h) = entry_text f h.
Proof.
  intros Hf. destruct (entry_text_ok f h Hf) as (_ & Hlf & _).
  apply chomp_id; [done|]. destruct Hf as (_ & _ & _ & Hcr & _).
  by apply entry_text_not_elem; [| |apply not_digit_CR].
Qed.

Lemma line_name_entry_text f h : name_ok f → line_name (entry_text f h) = Some f.
Proof.
  intros Hf. unfold line_name. rewrite chomp_entry_text by done.
  destruct Hf as (Hne & _ & _ & _ & Hpipe & _).
  unfold entry_text. by rewrite strtok_token.
Qed.

Lemma line_entry_entry_text f h :
  name_ok f → 0 ≤ h ≤ ULONG_MAX → line_entry (entry_text f h) = Some (f, h).
Proof.
  intros Hf Hh. unfold line_entry. rewrite chomp_entry_text by done.
  destruct Hf as (Hne & _ & _ & _ & Hpipe & Hhash & _).
  unfold entry_text.
  assert (is_comment_or_empty (f ++ PIPE :: fmt_lu h) = false) as ->.
  { destruct f as [|c f]; [done|]. simpl. apply Ascii.eqb_neq.
    intros ->. by apply Hhash. }
  rewrite strtok_token by done.
  rewrite strtok_last.
  - by rewrite strtoul_fmt_lu.
  - apply fmt_lu_nonempty.
  - apply digits_not_elem; [apply fmt_lu_digits|apply not_digit_PIPE].
Qed.

Lemma line_ok_cstr l : line_ok l → cstr (l ++ [LF]) = l ++ [LF].
Proof.
  intros (Hnul & _). apply cstr_id. rewrite elem_of_app, list_elem_of_singleton.
  intros [?|?]; done.
Qed.

Lemma line_name_lf l rest : LF ∉ l → line_name (l ++ LF :: rest) = line_name l.
Proof. intros Hlf. unfold line_name. by rewrite chomp_app_lf. Qed.

Lemma line_entry_lf l rest : LF ∉ l → line_entry (l ++ LF :: rest) = line_entry l.
Proof. intros Hlf. unfold line_entry. by rewrite chomp_app_lf. Qed.

(** ** The loops over the staging file *)

Lemma staged_loop_cons f l rest :
  line_ok l → name_ok f →
  staged_loop f ((l ++ [LF]) :: rest)
  = if decide (line_name l = Some f) then true else staged_loop f rest.
Proof.
  intros Hl Hf. cbn [staged_loop]. rewrite line_ok_cstr by done.
  destruct Hl as (_ & Hlf & _).
  destruct l as [|c l].
  { done. }
  cbn [app]. destruct (Ascii.eqb_spec c "#"%char) as [->|Hc].
  { destruct (decide _) as [Hn|]; [|done]. by apply line_name_comment in Hn. }
  change (c :: l ++ [LF]) with ((c :: l) ++ [LF]). rewrite chomp_app_lf by done.
  unfold line_name. destruct (chomp (c :: l)) as [|x line']; [by destruct (decide _)|].
  destruct (strtok PIPE (x :: line')) as [[stored after]|]; simpl.
  - destruct (decide (stored = f)) as [->|Hne].
    + by rewrite decide_True.
    + rewrite decide_False; [done|]. congruence.
  - done.
Qed.

Lemma staged_loop_spec f ls :
  Forall line_ok ls → name_ok f →
  staged_loop f ((λ l, l ++ [LF]) <$> ls)
  = bool_decide (Exists (λ l, line_name l = Some f) ls).
Proof.
  intros Hls Hf. induction Hls as [|l ls Hl _ IH].
  - done.
  - rewrite fmap_cons, staged_loop_cons by done.
    destruct (decide (line_name l = Some f)) as [Hn|Hn].
    + rewrite bool_decide_eq_true_2; [done|]. by left.
    + rewrite IH. apply bool_decide_ext. rewrite Exists_cons. tauto.
Qed.

Lemma keep_loop_cons f kept l rest :
  line_ok l →
  keep_loop f kept ((l ++ [LF]) :: rest)
  = if decide (line_name l = Some f) then keep_loop f kept rest
    else if (LINES_CAPACITY <=? length kept)%nat then None
         else keep_loop f (kept ++ [l ++ [LF]]) rest.
Proof.
  intros Hl. cbn [keep_loop]. rewrite line_ok_cstr by done.
  destruct Hl as (_ & Hlf & _). rewrite chomp_app_lf by done.
  unfold line_name. destruct (strtok PIPE (chomp l)) as [[name after]|]; simpl.
  - destruct (decide (name = f)) as [->|Hne].
    + rewrite bool_decide_eq_true_2 by done. by rewrite decide_True.
    + rewrite bool_decide_eq_false_2 by done. rewrite decide_False; [done|congruence].
  - done.
Qed.

(** Within the capacity of [lines], the loop keeps exactly the lines of
    the other files, in order. *)
Lemma keep_loop_spec f ls kept :
  Forall line_ok ls →
  (length kept + length (filter (λ l, line_name l ≠ Some f) ls) ≤ LINES_CAPACITY)%nat →
  keep_loop f kept ((λ l, l ++ [LF]) <$> ls)
  = Some (kept ++ ((λ l, l ++ [LF]) <$> filter (λ l, line_name l ≠ Some f) ls)).
Proof.
  intros Hls. revert kept. induction Hls as [|l ls Hl _ IH]; intros kept Hlen.
  - simpl. by rewrite app_nil_r.
  - rewrite fmap_cons, keep_loop_cons by done.
    destruct (decide (line_name l = Some f)) as [Hn|Hn].
    + rewrite filter_cons_False by (intros ?; done).
      rewrite filter_cons_False in Hlen by (intros ?; done). by apply IH.
    + rewrite filter_cons_True by done. rewrite filter_cons_True in Hlen by done.
      cbn [length] in Hlen.
      destruct (Nat.leb_spec LINES_CAPACITY (length kept)); [lia|].
      rewrite IH by (rewrite length_app; simpl; lia).
      by rewrite fmap_cons, <- (assoc_L (++)).
Qed.

(** Past the capacity of [lines], the loop stores outside the array. *)
Lemma keep_loop_overflow f ls kept :
  Forall line_ok ls →
  (LINES_CAPACITY < length kept + length (filter (λ l, line_name l ≠ Some f) ls))%nat →
  (length kept ≤ LINES_CAPACITY)%nat →
  keep_loop f kept ((λ l, l ++ [LF]) <$> ls) = None.
Proof.
  intros Hls. revert kept. induction Hls as [|l ls Hl _ IH]; intros kept Hlen Hk.
  - simpl in Hlen. lia.
  - rewrite fmap_cons, keep_loop_cons by done.
    destruct (decide (line_name l = Some f)) as [Hn|Hn].
    + rewrite filter_cons_False in Hlen by (intros ?; done). by apply IH.
    + rewrite filter_cons_True in Hlen by done. cbn [length] in Hlen.
      destruct (Nat.leb_spec LINES_CAPACITY (length kept)); [done|].
      apply IH; rewrite length_app; simpl; lia.
Qed.

Lemma count_loop_none count lines :
  Forall (λ raw, is_comment_or_empty (chomp (cstr raw)) = true) lines →
  count_loop count lines = count.
Proof.
  induction 1 as [|raw lines Hraw _ IH]; [done|]. simpl. by rewrite Hraw.
Qed.

Lemma line_entry_comment l : is_comment_or_empty (chomp l) = true → line_entry l = None.
Proof. intros H. unfold line_entry. by rewrite H. Qed.

Lemma read_loop_cons es raw rest :
  read_loop es (raw :: rest)
  = if is_comment_or_empty (chomp (cstr raw)) then read_loop es rest
    else if (COMMIT_SLOTS <=? length es)%nat then ReadOk es
    else match line_entry (cstr raw) with
         | None => read_loop es rest
         | Some (filename, h) =>
             if (MAX_FILENAME <=? length filename)%nat then ReadOverflow
             else read_loop (es ++ [(filename, h)]) rest
         end.
Proof.
  cbn [read_loop]. unfold line_entry.
  destruct (is_comment_or_empty (chomp (cstr raw))); [done|].
  destruct (COMMIT_SLOTS <=? length es)%nat; [done|].
  destruct (strtok PIPE (chomp (cstr raw))) as [[filename after]|]; [|done].
  by destruct (strtok PIPE after) as [[hash_str ?]|].
Qed.

Lemma omap_entries_cons raw lines :
  omap (line_entry ∘ cstr) (raw :: lines)
  = match line_entry (cstr raw) with
    | Some e => e :: omap (line_entry ∘ cstr) lines
    | None => omap (line_entry ∘ cstr) lines
    end.
Proof. done. Qed.

(** A successful read yields the first [COMMIT_SLOTS] entries. *)
Lemma read_loop_take lines es es' :
  (length es ≤ COMMIT_SLOTS)%nat →
  read_loop es lines = ReadOk es' →
  es' = take COMMIT_SLOTS (es ++ omap (line_entry ∘ cstr) lines).
Proof.
  revert es. induction lines as [|raw lines IH]; intros es Hlen.
  - simpl. intros [= <-]. rewrite app_nil_r. by rewrite take_ge.
  - rewrite read_loop_cons, omap_entries_cons.
    destruct (is_comment_or_empty (chomp (cstr raw))) eqn:Hskip.
    { rewrite line_entry_comment by done. by apply IH. }
    destruct (Nat.leb_spec COMMIT_SLOTS (length es)) as [Hfull|Hroom].
    { intros [= <-]. rewrite take_app_le by lia. by rewrite take_ge by lia. }
    destruct (line_entry (cstr raw)) as [[filename h]|]; [|by apply IH].
    destruct (MAX_FILENAME <=? length filename)%nat; [done|].
    intros Hread. apply IH in Hread; [|rewrite length_app; simpl; lia].
    by rewrite <- (assoc_L (++)) in Hread.
Qed.

Lemma read_loop_length lines es es' :
  (length es ≤ COMMIT_SLOTS)%nat →
  read_loop es lines = ReadOk es' → (length es' ≤ COMMIT_SLOTS)%nat.
Proof.
  intros Hlen Hread. apply read_loop_take in Hread as ->; [|done].
  rewrite length_take. lia.
Qed.

(** ** Paths *)

Lemma blob_path_prefix h : take 8 (blob_path h) = B ".mygit/o".
Proof. done. Qed.

Lemma ref_path_prefix b : take 8 (ref_path b) = B ".mygit/r".
Proof. done. Qed.

Lemma blob_path_not_staging h : blob_path h ≠ STAGING_FILE.
Proof. intros E. by apply (f_equal (take 8)) in E. Qed.

Lemma blob_path_not_commits h : blob_path h ≠ COMMITS_FILE.
Proof. intros E. by apply (f_equal (take 8)) in E. Qed.

Lemma blob_path_not_head h : blob_path h ≠ HEAD_FILE.
Proof. intros E. by apply (f_equal (take 8)) in E. Qed.

Lemma blob_path_not_ref h b : blob_path h ≠ ref_path b.
Proof.
  intros E. apply (f_equal (take 8)) in E.
  by rewrite blob_path_prefix, ref_path_prefix in E.
Qed.

Lemma ref_path_not_staging b : ref_path b ≠ STAGING_FILE.
Proof. intros E. by apply (f_equal (take 8)) in E. Qed.

Lemma ref_path_not_commits b : ref_path b ≠ COMMITS_FILE.
Proof. intros E. by apply (f_equal (take 8)) in E. Qed.

Lemma ref_path_not_head b : ref_path b ≠ HEAD_FILE.
Proof. intros E. by apply (f_equal (take 8)) in E. Qed.

Create HintDb paths.

#[global] Hint Resolve blob_path_not_staging blob_path_not_commits
  blob_path_not_head blob_path_not_ref ref_path_not_staging
  ref_path_not_commits ref_path_not_head : paths.
#[global] Hint Resolve not_eq_sym : paths.

Lemma to_ulong_range n : 0 ≤ to_ulong n < 2 ^ 64.
Proof. unfold to_ulong, wrap. apply Z.mod_pos_bound. lia. Qed.

Lemma hash_loop_range h content : 0 ≤ h < 2 ^ 64 → 0 ≤ hash_loop h content < 2 ^ 64.
Proof.
  revert h. induction content as [|c content IH]; intros h Hh; simpl; [done|].
  destruct (is_nul c); [done|]. apply IH, to_ulong_range.
Qed.

Lemma hash_content_range content : 0 ≤ hash_content content ≤ ULONG_MAX.
Proof.
  pose proof (hash_loop_range 5381 content ltac:(lia)) as H.
  unfold hash_content, ULONG_MAX. lia.
Qed.

Lemma blob_path_short k :
  blob_path k = OBJECTS_DIR ++ "/"%char :: fmt_lu k ++ B ".blob".
Proof.
  unfold blob_path, snprintf. apply take_ge.
  rewrite length_app. cbn [length]. rewrite length_app.
  pose proof (fmt_lu_length k). change (length OBJECTS_DIR) with 14%nat.
  change (length (B ".blob")) with 5%nat. unfold MAX_PATH. lia.
Qed.

Lemma blob_path_inj k k' :
  0 ≤ k ≤ ULONG_MAX → 0 ≤ k' ≤ ULONG_MAX → blob_path k = blob_path k' → k = k'.
Proof.
  intros Hk Hk'. rewrite !blob_path_short. intros E.
  apply app_inv_head in E. injection E as E. apply app_inv_tail in E.
  by rewrite <- (strtoul_fmt_lu k), <- (strtoul_fmt_lu k'), E.
Qed.

(** ** Paths in normal form *)

Lemma components_plain b : "/"%char ∉ b → components b = [b].
Proof.
  induction b as [|c b IH]; [done|]. intros [Hc Hb]%not_elem_of_cons. simpl.
  apply not_eq_sym, Ascii.eqb_neq in Hc. rewrite Hc. by rewrite IH.
Qed.

Lemma components_app_slash a p :
  "/"%char ∉ a → components (a ++ "/"%char :: p) = a :: components p.
Proof.
  induction a as [|c a IH]; [done|]. intros [Hc Ha]%not_elem_of_cons.
  cbn [app components]. apply not_eq_sym, Ascii.eqb_neq in Hc. rewrite Hc.
  by rewrite IH.
Qed.

(** The reference of a branch with a plain name is the file of that name
    in [.mygit/refs], and its path is in normal form. *)
Lemma ref_path_components b :
  plain_name b → (length b < MAX_BRANCH_NAME)%nat →
  components (ref_path b) = [MYGIT_DIR; B "refs"; b] ∧ normal_path (ref_path b).
Proof.
  intros Hb Hlen.
  assert (components (ref_path b) = [MYGIT_DIR; B "refs"; b]) as E.
  { unfold ref_path, snprintf. rewrite take_ge.
    - change (REFS_DIR ++ "/"%char :: b)
        with (MYGIT_DIR ++ "/"%char :: B "refs" ++ "/"%char :: b).
      rewrite !components_app_slash by compute_done.
      rewrite components_plain by apply Hb. done.
    - rewrite length_app. cbn [length]. change (length REFS_DIR) with 11%nat.
      unfold MAX_BRANCH_NAME in Hlen. unfold MAX_PATH. lia. }
  split; [done|]. unfold normal_path. rewrite E.
  repeat first [apply List.Forall_nil | apply List.Forall_cons]; [compute_done..|done].
Qed.

(** The path of a blob is in normal form. *)
Lemma blob_path_components k :
  components (blob_path k) = [MYGIT_DIR; B "objects"; fmt_lu k ++ B ".blob"]
  ∧ normal_path (blob_path k).
Proof.
  assert ("/"%char ∉ fmt_lu k ++ B ".blob") as Hslash.
  { apply not_elem_of_app. split; [|compute_done].
    apply digits_not_elem; [apply fmt_lu_digits|]. by intros [d Hd]. }
  assert (components (blob_path k) = [MYGIT_DIR; B "objects"; fmt_lu k ++ B ".blob"])
    as E.
  { rewrite blob_path_short.
    change (OBJECTS_DIR ++ "/"%char :: fmt_lu k ++ B ".blob")
      with (MYGIT_DIR ++ "/"%char :: B "objects" ++ "/"%char :: fmt_lu k ++ B ".blob").
    rewrite !components_app_slash by compute_done.
    by rewrite components_plain. }
  split; [done|]. unfold normal_path. rewrite E.
  repeat first [apply List.Forall_nil | apply List.Forall_cons]; [compute_done..|].
  assert (∀ t, fmt_lu k ++ B ".blob" = t → (length t ≤ 2)%nat → False) as Hlen.
  { intros t <-. rewrite length_app. simpl. lia. }
  split; [|split; [done|split]]; intros E'; apply (Hlen _ E'); simpl; lia.
Qed.

Lemma in_repository_components p :
  in_repository p → head (components p) = Some MYGIT_DIR.
Proof.
  unfold in_repository. intros E.
  rewrite <- (take_drop 7 p), E.
  change (MYGIT_DIR ++ ["/"%char]) with (B ".mygit/").
  change (B ".mygit/" ++ drop 7 p) with (MYGIT_DIR ++ "/"%char :: drop 7 p).
  by rewrite components_app_slash by compute_done.
Qed.

(** A path in normal form that does not lead into [.mygit] is none of the
    files of the repository. *)
Lemma work_path_outside p : work_path p → ¬ in_repository p.
Proof. intros [_ Hhead] Hin%in_repository_components. done. Qed.

(** ** The staging file as a list of lines *)

Lemma Forall_filter_keeps {A} (P Q : A → Prop) `{∀ x, Decision (Q x)} (l : list A) :
  Forall P l → Forall P (filter Q l).
Proof.
  rewrite !Forall_forall. intros Hl x [_ Hx]%list_elem_of_filter. auto.
Qed.

Lemma unlines_app ls1 ls2 : unlines (ls1 ++ ls2) = unlines ls1 ++ unlines ls2.
Proof. unfold unlines. by rewrite fmap_app, concat_app. Qed.

Lemma unlines_singleton l : unlines [l] = l ++ [LF].
Proof. unfold unlines. simpl. by rewrite app_nil_r. Qed.

Lemma unlines_nil_inv ls : unlines ls = [] → ls = [].
Proof. destruct ls as [|l ls]; [done|]. by destruct l. Qed.

Lemma unlines_complete ls : complete (unlines ls).
Proof.
  destruct ls as [|l ls _] using rev_ind; [by left|]. right.
  rewrite unlines_app, unlines_singleton. exists (unlines ls ++ l).
  by rewrite <- (assoc_L (++)).
Qed.

Lemma staging_line_text f h : staging_line f h = entry_text f h ++ [LF].
Proof. unfold staging_line, entry_text. by rewrite <- (assoc_L (++)). Qed.

Lemma staging_is_absent s ls :
  staging_is s ls → files s !! STAGING_FILE = None → ls = [].
Proof. intros [Hdata _] Hnone. rewrite Hnone in Hdata. by apply unlines_nil_inv. Qed.

Lemma omap_entries_lines ls :
  Forall line_ok ls →
  omap (line_entry ∘ cstr) ((λ l, l ++ [LF]) <$> ls) = omap line_entry ls.
Proof.
  induction 1 as [|l ls Hl _ IH]; [done|].
  rewrite fmap_cons, omap_entries_cons, line_ok_cstr by done.
  destruct Hl as (_ & Hlf & _). rewrite line_entry_lf by done.
  simpl. by rewrite IH.
Qed.

Lemma staged_entries_lines s ls :
  staging_is s ls → staged_entries s = omap line_entry ls.
Proof.
  intros Hs. unfold staged_entries, fopen_r.
  destruct (files s !! STAGING_FILE) as [data|] eqn:E.
  - destruct Hs as [Hdata Hls]. rewrite E in Hdata. simpl in Hdata. subst data.
    by rewrite fgets_all_unlines, omap_entries_lines.
  - by rewrite (staging_is_absent s ls).
Qed.

Lemma omap_line_entry_cons l (ls : list bytes) :
  omap line_entry (l :: ls)
  = match line_entry l with
    | Some e => e :: omap line_entry ls
    | None => omap line_entry ls
    end.
Proof. done. Qed.

Lemma omap_entries_filter f (ls : list bytes) :
  omap line_entry (filter (λ l, line_name l ≠ Some f) ls)
  = filter (λ e, e.1 ≠ f) (omap line_entry ls).
Proof.
  induction ls as [|l ls IH]; [done|].
  rewrite filter_cons, (omap_line_entry_cons l ls).
  destruct (decide (line_name l ≠ Some f)) as [Hn|Hn].
  - rewrite omap_line_entry_cons. destruct (line_entry l) as [[g v]|] eqn:E; [|done].
    apply line_entry_name in E. rewrite filter_cons_True by (simpl; congruence).
    by rewrite IH.
  - destruct (line_entry l) as [[g v]|] eqn:E; [|done].
    apply line_entry_name in E. rewrite filter_cons_False; [done|].
    simpl. intros Hg. apply Hn. congruence.
Qed.

(** ** Staging *)

Lemma is_already_staged_lines s f ls :
  staging_is s ls → name_ok f →
  is_already_staged s f = bool_decide (Exists (λ l, line_name l = Some f) ls).
Proof.
  intros Hs Hf. unfold is_already_staged, fopen_r.
  destruct (files s !! STAGING_FILE) as [data|] eqn:E.
  - destruct Hs as [Hdata Hls]. rewrite E in Hdata. simpl in Hdata. subst data.
    by rewrite fgets_all_unlines, staged_loop_spec.
  - by rewrite (staging_is_absent s ls).
Qed.

Lemma filter_other_names_id f (ls : list bytes) :
  ¬ Exists (λ l, line_name l = Some f) ls →
  filter (λ l, line_name l ≠ Some f) ls = ls.
Proof.
  intros Hnone. induction ls as [|l ls IH]; [done|].
  rewrite Exists_cons in Hnone. rewrite filter_cons_True by tauto.
  rewrite IH; [done|tauto].
Qed.

Lemma remove_from_staging_lines s f ls :
  staging_is s ls → STAGING_FILE ∉ readonly s →
  (length (filter (λ l, line_name l ≠ Some f) ls) ≤ LINES_CAPACITY)%nat →
  is_Some (files s !! STAGING_FILE) →
  remove_from_staging s f
  = Some (store s STAGING_FILE (unlines (filter (λ l, line_name l ≠ Some f) ls))).
Proof.
  intros [Hdata Hls] Hrw Hfit [data E]. unfold remove_from_staging, fopen_r.
  rewrite E in *. simpl in Hdata. subst data.
  rewrite fgets_all_unlines, keep_loop_spec by done.
  unfold fopen_w. by rewrite decide_False.
Qed.

(** Staging rewrites the file as the lines of the other files followed by
    the new entry. *)
Lemma stage_lines s f h ls :
  staging_is s ls → name_ok f → STAGING_FILE ∉ readonly s →
  restage_fits f ls →
  ∃ s', stage s f h = Staged h s'
    ∧ files s' = <[STAGING_FILE :=
         unlines (filter (λ l, line_name l ≠ Some f) ls ++ [entry_text f h])]> (files s)
    ∧ readonly s' = readonly s.
Proof.
  intros Hs Hf Hrw Hfit. unfold stage.
  rewrite (is_already_staged_lines s f ls) by done.
  rewrite unlines_app, unlines_singleton, <- staging_line_text.
  destruct (decide (Exists (λ l, line_name l = Some f) ls)) as [Hex|Hno].
  - rewrite bool_decide_eq_true_2 by done.
    assert (is_Some (files s !! STAGING_FILE)) as Hfile.
    { destruct (files s !! STAGING_FILE) eqn:E; [by eexists|].
      rewrite (staging_is_absent s ls) in Hex by done. by apply Exists_nil in Hex. }
    rewrite (remove_from_staging_lines s f ls) by auto.
    unfold fopen_a. cbn [readonly store files]. rewrite decide_False by done.
    rewrite lookup_insert_eq. eexists. split; [done|]. cbn [files store readonly].
    by rewrite insert_insert_eq.
  - rewrite bool_decide_eq_false_2 by done.
    unfold fopen_a. rewrite decide_False by done.
    eexists. split; [done|]. cbn [files store readonly].
    destruct Hs as [-> _]. by rewrite filter_other_names_id.
Qed.

Lemma stage_staging_is s f h ls s' :
  Forall line_ok ls → name_ok f →
  files s' = <[STAGING_FILE :=
     unlines (filter (λ l, line_name l ≠ Some f) ls ++ [entry_text f h])]> (files s) →
  staging_is s' (filter (λ l, line_name l ≠ Some f) ls ++ [entry_text f h]).
Proof.
  intros Hls Hf Hfiles. split.
  - by rewrite Hfiles, lookup_insert_eq.
  - apply Forall_app. split; [by apply Forall_filter_keeps|].
    apply Forall_singleton. by apply entry_text_ok.
Qed.

Lemma stage_entries s f h ls :
  staging_is s ls → name_ok f → 0 ≤ h ≤ ULONG_MAX → STAGING_FILE ∉ readonly s →
  restage_fits f ls →
  ∃ s', stage s f h = Staged h s'
    ∧ staged_entries s' = filter (λ e, e.1 ≠ f) (staged_entries s) ++ [(f, h)]
    ∧ staging_is s' (filter (λ l, line_name l ≠ Some f) ls ++ [entry_text f h])
    ∧ readonly s' = readonly s.
Proof.
  intros Hs Hf Hh Hrw Hfit.
  destruct (stage_lines s f h ls) as (s' & Hstage & Hfiles & Hro); [done..|].
  pose proof Hs as [_ Hls].
  pose proof (stage_staging_is s f h ls s' Hls Hf Hfiles) as Hs'.
  exists s'. repeat split; [done| |apply Hs'|apply Hs'|done].
  rewrite (staged_entries_lines s' _ Hs'), (staged_entries_lines s ls Hs).
  rewrite omap_app, omap_entries_filter. simpl.
  by rewrite line_entry_entry_text.
Qed.

(** ** Empty commits (C2) *)

Lemma count_staged_files_no_entries s : entry_lines s = [] → count_staged_files s = 0.
Proof.
  unfold entry_lines, count_staged_files.
  destruct (fopen_r s STAGING_FILE) as [data|]; [|done].
  intros Hnone. apply count_loop_none. apply Forall_forall. intros raw Hraw.
  destruct (is_comment_or_empty (chomp (cstr raw))) eqn:E; [done|].
  assert (chomp (cstr raw) ∈ ([] : list bytes)) as Hin; [|by apply elem_of_nil in Hin].
  rewrite <- Hnone. apply list_elem_of_filter. split; [done|].
  apply list_elem_of_fmap. by exists raw.
Qed.

(** C2. In every state whose staging area holds no entry (the staging
    file is missing, or each of its lines is a comment or is empty),
    [mygit_commit] returns -1 with the reason NothingToCommit and leaves
    the whole file system as it was: the commit log, the branch references
    and the staging file are not written. *)
Theorem commit_nothing_staged s msg now :
  entry_lines s = [] →
  mygit_commit s msg now = CommitFailed NothingToCommit s
  ∧ commit_exit_code (mygit_commit s msg now) = Some (-1).
Proof.
  intros Hnone. unfold mygit_commit.
  by rewrite count_staged_files_no_entries.
Qed.

Lemma commit_nothing_staged_witness :
  entry_lines fresh_repo = []
  ∧ mygit_commit fresh_repo (B "first") (B "2025-01-15 14:30:00")
    = CommitFailed NothingToCommit fresh_repo.
Proof.
  split; [by_computation|].
  apply (commit_nothing_staged fresh_repo). by_computation.
Defined.

(** After a commit that could clear the staging file, nothing is staged:
    committing again reports NothingToCommit. *)
Lemma entry_lines_cleared s :
  STAGING_FILE ∉ readonly s → entry_lines (clear_staging_area s) = [].
Proof.
  intros Hrw. unfold entry_lines, clear_staging_area, fopen_w, fopen_r.
  rewrite decide_False by done. cbn [store files]. by rewrite lookup_insert_eq.
Qed.

(** ** Upsert (C3, C7) *)

(** C7 (amended). Staging [f] removes the entry of [f] and appends the
    new one: the entries of the other files keep their order, and the
    entry of [f] is last, also when [f] was staged before. *)
Theorem stage_moves_entry_to_end s f h ls :
  staging_is s ls → name_ok f → 0 ≤ h ≤ ULONG_MAX →
  STAGING_FILE ∉ readonly s → restage_fits f ls →
  ∃ s', stage s f h = Staged h s'
    ∧ staged_entries s' = filter (λ e, e.1 ≠ f) (staged_entries s) ++ [(f, h)].
Proof.
  intros Hs Hf Hh Hrw Hfit.
  destruct (stage_entries s f h ls) as (s' & Hstage & Hentries & _); eauto.
Qed.

Lemma stage_moves_entry_to_end_witness :
  ∃ s', stage (staged_repo [header_line; B "a.txt|1"; B "b.txt|2"]) (B "a.txt") 3
        = Staged 3 s'
    ∧ staged_entries s' = [(B "b.txt", 2); (B "a.txt", 3)].
Proof.
  apply (stage_moves_entry_to_end
           (staged_repo [header_line; B "a.txt|1"; B "b.txt|2"]) (B "a.txt") 3
           [header_line; B "a.txt|1"; B "b.txt|2"]).
  - split; [by_computation|]. compute_done.
  - compute_done.
  - compute_done.
  - compute_done.
  - intros _. compute_done.
Defined.

(** C7 (as stated) fails: [a.txt] is staged first and [b.txt] second, and
    staging [a.txt] again moves its entry behind that of [b.txt]. *)
Lemma restaging_changes_position :
  let s1 := unwrap_add (stage fresh_repo (B "a.txt") 1) fresh_repo in
  let s2 := unwrap_add (stage s1 (B "b.txt") 2) fresh_repo in
  let s3 := unwrap_add (stage s2 (B "a.txt") 3) fresh_repo in
  staged_entries s2 = [(B "a.txt", 1); (B "b.txt", 2)]
  ∧ stage s2 (B "a.txt") 3 = Staged 3 s3
  ∧ staged_entries s3 = [(B "b.txt", 2); (B "a.txt", 3)].
Proof. repeat split; by_computation. Qed.

Lemma filter_idemp {A} (P : A → Prop) `{∀ x, Decision (P x)} (l : list A) :
  filter P (filter P l) = filter P l.
Proof.
  induction l as [|x l IH]; [done|]. rewrite filter_cons.
  destruct (decide (P x)); [|done]. rewrite filter_cons_True by done.
  by rewrite IH.
Qed.

Lemma filter_complement_nil {A} (P : A → Prop) `{∀ x, Decision (P x)} (l : list A) :
  filter P (filter (λ x, ¬ P x) l) = [].
Proof.
  induction l as [|x l IH]; [done|]. rewrite filter_cons.
  destruct (decide (¬ P x)); [|done]. by rewrite filter_cons_False.
Qed.

(** C3 (amended). For a filename the staging format can hold, a staging
    file made of whole lines that can be written, hashes in the range of
    [unsigned long] and at most [LINES_CAPACITY] lines that belong to other
    files, staging [f] with [h1] and staging it again with [h2] both
    succeed, whatever happened to other files in between, and leave one
    entry for [f], which carries [h2]. *)
Theorem restage_replaces_entry s f h1 h2 ls :
  staging_is s ls → name_ok f → 0 ≤ h1 ≤ ULONG_MAX → 0 ≤ h2 ≤ ULONG_MAX →
  STAGING_FILE ∉ readonly s →
  (length (filter (λ l, line_name l ≠ Some f) ls) ≤ LINES_CAPACITY)%nat →
  ∃ s1, stage s f h1 = Staged h1 s1
    ∧ ∀ t, files t !! STAGING_FILE = files s1 !! STAGING_FILE →
           STAGING_FILE ∉ readonly t →
           ∃ s2, stage t f h2 = Staged h2 s2
             ∧ filter (λ e, e.1 = f) (staged_entries s2) = [(f, h2)].
Proof.
  intros Hs Hf Hh1 Hh2 Hrw Hfit.
  destruct (stage_entries s f h1 ls) as (s1 & Hstage1 & _ & Hs1 & _);
    [done|done|done|done|by intros _|].
  exists s1. split; [done|]. intros t Hsame Hrwt.
  set (ls1 := filter (λ l, line_name l ≠ Some f) ls ++ [entry_text f h1]) in *.
  assert (staging_is t ls1) as Ht.
  { destruct Hs1 as [Hdata Hls1]. split; [by rewrite Hsame|done]. }
  destruct (stage_entries t f h2 ls1) as (s2 & Hstage2 & Hentries & _);
    [done|done|done|done| |].
  { intros _. unfold ls1. rewrite filter_app, filter_idemp.
    rewrite (filter_cons_False _ (entry_text f h1)), app_nil_r; [done|].
    rewrite line_name_entry_text by done. by intros ?. }
  exists s2. split; [done|]. rewrite Hentries, filter_app.
  rewrite (filter_complement_nil (λ e : bytes * Z, e.1 = f)).
  by rewrite (filter_cons_True _ (f, h2)).
Qed.

Lemma restage_replaces_entry_witness :
  ∃ s1, stage fresh_repo (B "a.txt") 1 = Staged 1 s1
    ∧ ∀ t, files t !! STAGING_FILE = files s1 !! STAGING_FILE →
           STAGING_FILE ∉ readonly t →
           ∃ s2, stage t (B "a.txt") 2 = Staged 2 s2
             ∧ filter (λ e, e.1 = B "a.txt") (staged_entries s2) = [(B "a.txt", 2)].
Proof.
  apply (restage_replaces_entry fresh_repo (B "a.txt") 1 2 [header_line]).
  - split; [by_computation|]. compute_done.
  - compute_done.
  - compute_done.
  - compute_done.
  - compute_done.
  - compute_done.
Defined.

(** C3 (as stated) fails for filenames the staging format cannot hold.
    A file called [#notes#] staged twice leaves both lines in the staging
    file, and neither is read as an entry; a file called [a|b] staged
    twice leaves two entries, both read under the name [a]. *)
Lemma restage_keeps_duplicates :
  let s1 := unwrap_add (stage fresh_repo (B "#notes#") 1) fresh_repo in
  let s2 := unwrap_add (stage s1 (B "#notes#") 2) fresh_repo in
  let t1 := unwrap_add (stage fresh_repo (B "a|b") 1) fresh_repo in
  let t2 := unwrap_add (stage t1 (B "a|b") 2) fresh_repo in
  (stage fresh_repo (B "#notes#") 1 = Staged 1 s1
   ∧ stage s1 (B "#notes#") 2 = Staged 2 s2
   ∧ files s2 !! STAGING_FILE
     = Some (unlines [header_line; B "#notes#|1"; B "#notes#|2"])
   ∧ filter (λ e, e.1 = B "#notes#") (staged_entries s2) = [])
  ∧ (stage fresh_repo (B "a|b") 1 = Staged 1 t1
     ∧ stage t1 (B "a|b") 2 = Staged 2 t2
     ∧ staged_entries t2 = [(B "a", 0); (B "a", 0)]).
Proof. repeat split; by_computation. Qed.

(** ** The rows of [lines] (C10) *)

(** C10: with the header and 101 staged files in the staging file,
    staging [f0] again stores the 101st kept line outside [lines]; with
    100 staged files the same call stays within the array. *)
Theorem remove_from_staging_out_of_bounds :
  is_already_staged (crowded_repo 101) (B "f0") = true
  ∧ remove_from_staging (crowded_repo 101) (B "f0") = None
  ∧ mygit_add (crowded_repo 101) (B "f0") = AddUndefined
  ∧ is_Some (remove_from_staging (crowded_repo 100) (B "f0")).
Proof.
  repeat split; try by_computation. compute_done.
Qed.

(** ** The snapshot of a commit (C4) *)

(** C4 (amended). The entries of a successful commit are the first
    [COMMIT_SLOTS] entries of the staging area, in staging order; all of
    them when no more than [COMMIT_SLOTS] are staged. *)
Theorem commit_takes_first_slots s msg now c s' :
  mygit_commit s msg now = Committed c s' →
  entries c = take COMMIT_SLOTS (staged_entries s)
  ∧ ((length (staged_entries s) ≤ COMMIT_SLOTS)%nat → entries c = staged_entries s).
Proof.
  unfold mygit_commit. destruct (count_staged_files s =? 0); [done|].
  unfold read_staged_files, staged_entries.
  destruct (fopen_r s STAGING_FILE) as [data|]; [|done].
  destruct (read_loop [] (fgets_all MAX_LINE data)) as [es| |] eqn:Hread; [|done|done].
  destruct (save_commit s _); [|done]. intros [= <- _]. cbn [entries].
  apply read_loop_take in Hread; [|simpl; lia]. simpl in Hread.
  split; [done|]. intros Hlen. by rewrite Hread, take_ge.
Qed.

Lemma commit_takes_first_slots_witness :
  ∃ c s', mygit_commit (staged_repo [header_line; B "a.txt|1"; B "b.txt|2"])
            (B "first") (B "2025-01-15 14:30:00") = Committed c s'
    ∧ entries c = [(B "a.txt", 1); (B "b.txt", 2)].
Proof.
  eexists _, _. split; [by_computation|].
  refine (proj1 (commit_takes_first_slots
            (staged_repo [header_line; B "a.txt|1"; B "b.txt|2"])
            (B "first") (B "2025-01-15 14:30:00") _ _ _)).
  by_computation.
Defined.

(** C4 (as stated) fails: with eleven files staged the commit succeeds
    and records the first ten; the eleventh entry is not in it. *)
Lemma commit_drops_eleventh_entry :
  ∃ c s', mygit_commit (crowded_repo 11) (B "many") (B "2025-01-15 14:30:00")
          = Committed c s'
    ∧ length (staged_entries (crowded_repo 11)) = 11%nat
    ∧ length (entries c) = 10%nat
    ∧ (B "f10", 10) ∈ staged_entries (crowded_repo 11)
    ∧ (B "f10", 10) ∉ entries c.
Proof.
  eexists _, _. split; [by_computation|]. repeat split; compute_done.
Qed.

(** ** The object store *)

Lemma hash_loop_cstr h buf : hash_loop h (cstr buf) = hash_loop h buf.
Proof.
  revert h. induction buf as [|c buf IH]; intros h; simpl; [done|].
  destruct (is_nul c) eqn:E; [done|]. simpl. by rewrite E, IH.
Qed.

Lemma hash_content_cstr buf : hash_content (cstr buf) = hash_content buf.
Proof. apply hash_loop_cstr. Qed.

Lemma store_lookup_ne s p q text : p ≠ q → files (store s p text) !! q = files s !! q.
Proof. intros Hne. cbn [store files]. by rewrite lookup_insert_ne. Qed.

Lemma store_lookup s p text : files (store s p text) !! p = Some text.
Proof. cbn [store files]. by rewrite lookup_insert_eq. Qed.

Lemma save_blob_cases s content hash s1 :
  save_blob s content hash = Some s1 →
  (is_Some (files s !! blob_path hash) ∧ s1 = s)
  ∨ (files s !! blob_path hash = None ∧ (blob_path hash ∉ readonly s)
     ∧ s1 = store s (blob_path hash) (cstr content)).
Proof.
  unfold save_blob, file_exists, write_file, fopen_w, fopen_r.
  destruct (files s !! blob_path hash) as [old|] eqn:E.
  - intros [= <-]. left. eauto.
  - destruct (decide (blob_path hash ∈ readonly s)); [done|].
    intros [= <-]. right. eauto.
Qed.

Lemma save_blob_frame s content hash s1 p :
  save_blob s content hash = Some s1 → p ≠ blob_path hash →
  files s1 !! p = files s !! p.
Proof.
  intros [[_ ->]|(_ & _ & ->)]%save_blob_cases Hp; [done|].
  by rewrite store_lookup_ne.
Qed.

Lemma save_blob_readonly s content hash s1 :
  save_blob s content hash = Some s1 → readonly s1 = readonly s.
Proof. by intros [[_ ->]|(_ & _ & ->)]%save_blob_cases. Qed.

Lemma save_blob_writable s content hash :
  blob_path hash ∉ readonly s → is_Some (save_blob s content hash).
Proof.
  intros Hrw. unfold save_blob, write_file, fopen_w.
  destruct (file_exists s (blob_path hash)); [by eexists|].
  rewrite decide_False by done. by eexists.
Qed.

(** ** A missing staging file (C8) *)

(** C8 (amended). When the staging file is missing, [count_staged_files],
    [is_already_staged] and [remove_from_staging] behave as on an empty
    staging area, [mygit_commit] reports NothingToCommit and writes
    nothing, and [mygit_add] of an existing file succeeds, given that the
    blob and the staging file can be written, and creates the staging file
    with that one entry. *)
Theorem missing_staging_reads_as_empty s :
  files s !! STAGING_FILE = None →
  count_staged_files s = 0
  ∧ staged_entries s = []
  ∧ (∀ f, is_already_staged s f = false)
  ∧ (∀ f, remove_from_staging s f = Some s)
  ∧ (∀ msg now, mygit_commit s msg now = CommitFailed NothingToCommit s)
  ∧ (∀ f data,
       files s !! f = Some data →
       STAGING_FILE ∉ readonly s →
       blob_path (hash_content (staged_content data)) ∉ readonly s →
       ∃ s', mygit_add s f = Staged (hash_content (staged_content data)) s'
         ∧ files s' !! STAGING_FILE
           = Some (staging_line f (hash_content (staged_content data)))).
Proof.
  intros Hnone.
  assert (count_staged_files s = 0) as Hcount.
  { unfold count_staged_files, fopen_r. by rewrite Hnone. }
  split; [done|]. split; [unfold staged_entries, fopen_r; by rewrite Hnone|].
  split; [intros f; unfold is_already_staged, fopen_r; by rewrite Hnone|].
  split; [intros f; unfold remove_from_staging, fopen_r; by rewrite Hnone|].
  split; [intros msg now; unfold mygit_commit; by rewrite Hcount|].
  intros f data Hf Hrw Hblob. unfold staged_content in *.
  rewrite hash_content_cstr in *. unfold mygit_add, file_exists, read_file, fopen_r.
  rewrite Hf. cbn [negb].
  set (content := take (MAX_CONTENT - 1) data) in *.
  destruct (save_blob_writable s content (hash_content content) Hblob) as [s1 Hsave].
  rewrite Hsave.
  pose proof (save_blob_frame _ _ _ _ STAGING_FILE Hsave
                (not_eq_sym (blob_path_not_staging _))) as Hframe.
  pose proof (save_blob_readonly _ _ _ _ Hsave) as Hro.
  unfold stage, is_already_staged, fopen_a, fopen_r.
  rewrite Hframe, Hnone, Hro, decide_False by done.
  eexists. split; [done|]. by rewrite store_lookup, Hframe, Hnone.
Qed.

Lemma missing_staging_reads_as_empty_witness :
  count_staged_files unstaged_repo = 0
  ∧ (∀ msg now, mygit_commit unstaged_repo msg now
                = CommitFailed NothingToCommit unstaged_repo)
  ∧ ∃ s', mygit_add unstaged_repo (B "a.txt") = Staged 210714636441 s'
      ∧ files s' !! STAGING_FILE = Some (B "a.txt|210714636441" ++ [LF]).
Proof.
  pose proof (missing_staging_reads_as_empty unstaged_repo ltac:(by_computation))
    as (Hcount & _ & _ & _ & Hcommit & Hadd).
  split; [done|]. split; [done|].
  apply (Hadd (B "a.txt") (B "hello")); [by_computation|compute_done|compute_done].
Defined.

(** C8 (as stated) fails for one of the reads of the staging area: with
    the staging file missing, [read_staged_files] returns -1. *)
Lemma read_staged_files_missing_fails :
  files unstaged_repo !! STAGING_FILE = None
  ∧ read_staged_files unstaged_repo = ReadError.
Proof. split; by_computation. Qed.

(** ** What each command leaves alone *)

Lemma remove_from_staging_frame s f s' :
  remove_from_staging s f = Some s' →
  readonly s' = readonly s
  ∧ ∀ p, p ≠ STAGING_FILE → files s' !! p = files s !! p.
Proof.
  unfold remove_from_staging, fopen_w.
  destruct (fopen_r s STAGING_FILE) as [data|]; [|by intros [= <-]].
  destruct (keep_loop f [] _) as [kept|]; [|done].
  destruct (decide (STAGING_FILE ∈ readonly s)); intros [= <-]; [done|].
  split; [done|]. intros p Hp. by rewrite store_lookup_ne.
Qed.

Lemma stage_appends s f h h' s' :
  stage s f h = Staged h' s' →
  h' = h ∧ readonly s' = readonly s
  ∧ (∀ p, p ≠ STAGING_FILE → files s' !! p = files s !! p)
  ∧ ∃ before, files s' !! STAGING_FILE = Some (before ++ staging_line f h).
Proof.
  unfold stage.
  destruct (if is_already_staged s f then remove_from_staging s f else Some s)
    as [s1|] eqn:Hrem; [|done].
  assert (readonly s1 = readonly s
          ∧ ∀ p, p ≠ STAGING_FILE → files s1 !! p = files s !! p) as [Hro Hframe].
  { destruct (is_already_staged s f).
    - by apply remove_from_staging_frame in Hrem.
    - by injection Hrem as <-. }
  unfold fopen_a. destruct (decide (STAGING_FILE ∈ readonly s1)); [done|].
  intros [= <- <-]. split; [done|]. split; [done|]. split.
  - intros p Hp. rewrite store_lookup_ne by done. auto.
  - rewrite store_lookup. eauto.
Qed.

(** What a successful [mygit_add] did. *)
Lemma mygit_add_staged s f data h s' :
  files s !! f = Some data → mygit_add s f = Staged h s' →
  h = hash_content (staged_content data)
  ∧ readonly s' = readonly s
  ∧ (∀ p, p ≠ STAGING_FILE → p ≠ blob_path h → files s' !! p = files s !! p)
  ∧ files s' !! blob_path h
    = Some (default (staged_content data) (files s !! blob_path h))
  ∧ ∃ before, files s' !! STAGING_FILE = Some (before ++ staging_line f h).
Proof.
  intros Hf. unfold mygit_add, file_exists, read_file, fopen_r. rewrite Hf.
  cbn [negb]. unfold staged_content. rewrite hash_content_cstr.
  set (content := take (MAX_CONTENT - 1) data).
  destruct (save_blob s content (hash_content content)) as [s1|] eqn:Hsave; [|done].
  intros (-> & Hro & Hframe & Hline)%stage_appends.
  pose proof (save_blob_readonly _ _ _ _ Hsave) as Hro1.
  split; [done|]. split; [congruence|]. split; [|split; [|done]].
  - intros p Hp Hblob. rewrite Hframe by done. by apply (save_blob_frame _ _ _ _ _ Hsave).
  - rewrite Hframe by apply blob_path_not_staging.
    apply save_blob_cases in Hsave as [[[old Hold] ->]|(Hnone & _ & ->)].
    + by rewrite Hold.
    + by rewrite store_lookup, Hnone.
Qed.

Lemma mygit_add_blob_kept s f h s' k x :
  mygit_add s f = Staged h s' →
  files s !! blob_path k = Some x → files s' !! blob_path k = Some x.
Proof.
  intros Hadd Hk.
  assert (is_Some (files s !! f)) as [data Hf].
  { unfold mygit_add, file_exists, fopen_r in Hadd.
    destruct (files s !! f); [by eexists|done]. }
  destruct (mygit_add_staged s f data h s' Hf Hadd) as (_ & _ & Hframe & Hblob & _).
  destruct (decide (blob_path k = blob_path h)) as [E|Hne].
  - rewrite E in *. by rewrite Hblob, Hk.
  - rewrite Hframe; [done|apply blob_path_not_staging|done].
Qed.

Lemma update_branch_ref_frame s b n :
  readonly (update_branch_ref s b n) = readonly s
  ∧ ∀ p, p ≠ ref_path b → files (update_branch_ref s b n) !! p = files s !! p.
Proof.
  unfold update_branch_ref, write_file, fopen_w.
  destruct (decide (ref_path b ∈ readonly s)); [done|].
  split; [done|]. intros p Hp. by rewrite store_lookup_ne.
Qed.

Lemma clear_staging_area_frame s :
  readonly (clear_staging_area s) = readonly s
  ∧ ∀ p, p ≠ STAGING_FILE → files (clear_staging_area s) !! p = files s !! p.
Proof.
  unfold clear_staging_area, fopen_w.
  destruct (decide (STAGING_FILE ∈ readonly s)); [done|].
  split; [done|]. intros p Hp. by rewrite store_lookup_ne.
Qed.

Lemma save_commit_frame s c s1 :
  save_commit s c = Some s1 →
  readonly s1 = readonly s
  ∧ files s1 !! COMMITS_FILE
    = Some (default [] (files s !! COMMITS_FILE) ++ commit_record c)
  ∧ ∀ p, p ≠ COMMITS_FILE → files s1 !! p = files s !! p.
Proof.
  unfold save_commit, fopen_a.
  destruct (decide (COMMITS_FILE ∈ readonly s)); [done|]. intros [= <-].
  split; [done|]. split; [by rewrite store_lookup|].
  intros p Hp. by rewrite store_lookup_ne.
Qed.

Lemma mygit_commit_frame s msg now c s' :
  mygit_commit s msg now = Committed c s' →
  readonly s' = readonly s
  ∧ ∀ p, p ≠ COMMITS_FILE → p ≠ STAGING_FILE → p ≠ ref_path (branch c) →
         files s' !! p = files s !! p.
Proof.
  unfold mygit_commit. destruct (count_staged_files s =? 0); [done|].
  destruct (read_staged_files s) as [es| |]; [|done|done].
  destruct (save_commit s _) as [s1|] eqn:Hsave; [|done].
  intros [= <- <-]. cbn [branch].
  apply save_commit_frame in Hsave as (Hro1 & _ & Hframe1).
  destruct (update_branch_ref_frame s1 (get_current_branch s MAX_BRANCH_NAME)
              (get_next_commit_id s)) as [Hro2 Hframe2].
  destruct (clear_staging_area_frame
              (update_branch_ref s1 (get_current_branch s MAX_BRANCH_NAME)
                 (get_next_commit_id s))) as [Hro3 Hframe3].
  split; [congruence|]. intros p Hp1 Hp2 Hp3.
  rewrite Hframe3, Hframe2, Hframe1 by done. done.
Qed.

Lemma mygit_commit_blob_kept s msg now c s' k :
  mygit_commit s msg now = Committed c s' →
  files s' !! blob_path k = files s !! blob_path k.
Proof.
  intros [_ Hframe]%mygit_commit_frame. apply Hframe; auto with paths.
Qed.

(** ** Deduplication and round trip (C5, C6) *)

(** C5 (amended). The blob of content [c] is the file
    [.mygit/objects/<fingerprint of c in decimal>.blob], and contents with
    different fingerprints have different blob files.  When no blob is
    stored under the fingerprint of [c] and the blob file can be written,
    the first [put] of [c] writes that one file and no other, with the
    text of [c] up to its first NUL byte in it, so with [c] when [c] holds
    no NUL byte; and every later [put] of content with the same
    fingerprint, in that state or in any state that holds the blob, opens
    no file for writing and changes nothing. *)
Theorem put_twice_writes_once s c :
  files s !! blob_path (hash_content c) = None →
  blob_path (hash_content c) ∉ readonly s →
  blob_path (hash_content c)
  = OBJECTS_DIR ++ "/"%char :: fmt_lu (hash_content c) ++ B ".blob"
  ∧ (∀ c', hash_content c' ≠ hash_content c →
       blob_path (hash_content c') ≠ blob_path (hash_content c))
  ∧ ∃ s1, put s c = Some s1
      ∧ files s1 !! blob_path (hash_content c) = Some (cstr c)
      ∧ (NUL ∉ c → files s1 !! blob_path (hash_content c) = Some c)
      ∧ writes s1 = blob_path (hash_content c) :: writes s
      ∧ put s1 c = Some s1
      ∧ ∀ t c', hash_content c' = hash_content c →
                is_Some (files t !! blob_path (hash_content c)) →
                put t c' = Some t.
Proof.
  intros Hnone Hrw.
  assert (∀ k, blob_path k = OBJECTS_DIR ++ "/"%char :: fmt_lu k ++ B ".blob")
    as Hpath.
  { intros k. unfold blob_path, snprintf. apply take_ge.
    rewrite length_app. cbn [length]. rewrite length_app.
    pose proof (fmt_lu_length k). change (length OBJECTS_DIR) with 14%nat.
    change (length (B ".blob")) with 5%nat. unfold MAX_PATH. lia. }
  split; [apply Hpath|]. split.
  { intros c' Hne E. apply Hne. rewrite !Hpath in E.
    apply app_inv_head in E. injection E as E. apply app_inv_tail in E.
    rewrite <- (strtoul_fmt_lu (hash_content c')) by apply hash_content_range.
    rewrite <- (strtoul_fmt_lu (hash_content c)) by apply hash_content_range.
    by rewrite E. }
  exists (store s (blob_path (hash_content c)) (cstr c)).
  assert (∀ t c', hash_content c' = hash_content c →
            is_Some (files t !! blob_path (hash_content c)) → put t c' = Some t)
    as Hlater.
  { intros t c' Hh [old Hold]. unfold put, save_blob, file_exists, fopen_r.
    by rewrite Hh, Hold. }
  split.
  { unfold put, save_blob, file_exists, fopen_r, write_file, fopen_w.
    by rewrite Hnone, decide_False. }
  split; [apply store_lookup|].
  split. { intros Hnul. by rewrite store_lookup, cstr_id. }
  split; [done|]. split; [|done].
  apply Hlater; [done|]. rewrite store_lookup. by eexists.
Qed.

Lemma put_twice_writes_once_witness :
  ∃ s1, put fresh_repo (B "hello") = Some s1
    ∧ files s1 !! B ".mygit/objects/210714636441.blob" = Some (B "hello")
    ∧ writes s1 = [B ".mygit/objects/210714636441.blob"]
    ∧ put s1 (B "hello") = Some s1.
Proof.
  destruct (put_twice_writes_once fresh_repo (B "hello"))
    as (_ & _ & s1 & Hput & Hblob & _ & Hwrites & Hagain & _);
    [by_computation|compute_done|].
  assert (blob_path (hash_content (B "hello")) = B ".mygit/objects/210714636441.blob")
    as E by by_computation.
  rewrite E in Hblob, Hwrites.
  exists s1. split; [exact Hput|]. split; [exact Hblob|].
  split; [exact Hwrites|exact Hagain].
Defined.

(** C5 (as stated) fails.  After [put] of [aB], whose fingerprint [b!]
    shares, [put] of [b!] writes nothing however often it is called, and
    the blob of its fingerprint holds [aB]: no write instead of one, and
    the content is not kept.  [put] of content with a NUL byte keeps the
    bytes before it only.  And where the blob file cannot be written,
    [put] fails and writes nothing. *)
Lemma put_twice_without_one_write :
  let s1 := default fresh_repo (put fresh_repo (B "aB")) in
  let c := B "a" ++ NUL :: B "b" in
  let t1 := default fresh_repo (put fresh_repo c) in
  (put fresh_repo (B "aB") = Some s1
   ∧ hash_content (B "b!") = hash_content (B "aB")
   ∧ put s1 (B "b!") = Some s1
   ∧ files s1 !! blob_path (hash_content (B "b!")) = Some (B "aB"))
  ∧ (put fresh_repo c = Some t1
     ∧ files t1 !! blob_path (hash_content c) = Some (B "a"))
  ∧ put locked_blob_repo (B "hello") = None.
Proof. repeat split; by_computation. Qed.

Lemma read_blob_lookup s h :
  read_blob s h = cstr ∘ take (MAX_CONTENT - 1) <$> files s !! blob_path h.
Proof. unfold read_blob, read_file, fopen_r. by destruct (files s !! blob_path h). Qed.

(** C6 (amended). For content [c] without NUL byte and shorter than
    [MAX_CONTENT], when no blob is stored under its fingerprint and the
    blob file can be written, or when the blob stored under its
    fingerprint is [c], [put c] succeeds and reading the blob of the
    fingerprint back returns [c], and goes on returning [c] after every
    later successful [mygit_add], and after every later successful
    [mygit_commit] on a branch whose name is one path component: the
    reference of a branch with another name need not be a file of its
    own. *)
Theorem put_get_roundtrip s c :
  NUL ∉ c → (length c < MAX_CONTENT)%nat →
  (files s !! blob_path (hash_content c) = None
   ∧ blob_path (hash_content c) ∉ readonly s)
  ∨ files s !! blob_path (hash_content c) = Some c →
  ∃ s1, put s c = Some s1
    ∧ read_blob s1 (hash_content c) = Some c
    ∧ ∀ t, read_blob t (hash_content c) = Some c →
        (∀ f h t', mygit_add t f = Staged h t' → read_blob t' (hash_content c) = Some c)
        ∧ (∀ msg now k t', plain_name (current_branch t) →
             mygit_commit t msg now = Committed k t' →
             read_blob t' (hash_content c) = Some c).
Proof.
  intros Hnul Hlen Hs.
  assert (cstr (take (MAX_CONTENT - 1) c) = c) as Hread.
  { rewrite take_ge by lia. by apply cstr_id. }
  assert (∃ s1, put s c = Some s1 ∧ files s1 !! blob_path (hash_content c) = Some c)
    as (s1 & Hput & Hblob).
  { unfold put, save_blob, file_exists, fopen_r, write_file, fopen_w.
    destruct Hs as [[Hnone Hrw]|Hsome].
    - rewrite Hnone, decide_False by done. eexists. split; [done|].
      by rewrite store_lookup, cstr_id.
    - rewrite Hsome. eauto. }
  exists s1. split; [done|]. split.
  { rewrite read_blob_lookup, Hblob.
    change (Some (cstr (take (MAX_CONTENT - 1) c)) = Some c). by rewrite Hread. }
  intros t Ht. rewrite read_blob_lookup in Ht. split.
  - intros f h t' Hadd. rewrite read_blob_lookup.
    destruct (files t !! blob_path (hash_content c)) as [x|] eqn:E; [|done].
    by rewrite (mygit_add_blob_kept _ _ _ _ _ _ Hadd E).
  - intros msg now k t' _ Hcommit. rewrite read_blob_lookup.
    by rewrite (mygit_commit_blob_kept _ _ _ _ _ _ Hcommit).
Qed.

Lemma put_get_roundtrip_witness :
  ∃ s1, put fresh_repo (B "hello") = Some s1
    ∧ read_blob s1 (hash_content (B "hello")) = Some (B "hello").
Proof.
  destruct (put_get_roundtrip fresh_repo (B "hello")) as (s1 & Hput & Hget & _).
  - compute_done.
  - compute_done.
  - left. split; [by_computation|compute_done].
  - exists s1. split; [exact Hput|exact Hget].
Defined.

(** C6 (as stated) fails.  The contents [aB] and [b!] have the same
    fingerprint: after [put] of the first, [put] of the second writes
    nothing and reading the blob back returns [aB].  And [put] of content
    with a NUL byte stores the bytes before it only. *)
Lemma put_get_returns_other_content :
  let s1 := default fresh_repo (put fresh_repo (B "aB")) in
  let s2 := default fresh_repo (put s1 (B "b!")) in
  let c := B "a" ++ NUL :: B "b" in
  let t1 := default fresh_repo (put fresh_repo c) in
  (hash_content (B "b!") = hash_content (B "aB")
   ∧ put fresh_repo (B "aB") = Some s1
   ∧ put s1 (B "b!") = Some s2
   ∧ read_blob s2 (hash_content (B "b!")) = Some (B "aB"))
  ∧ (put fresh_repo c = Some t1 ∧ read_blob t1 (hash_content c) = Some (B "a")).
Proof. repeat split; by_computation. Qed.

(** ** The content that is staged (C9) *)

Lemma remove_from_staging_writes s f s' :
  remove_from_staging s f = Some s' →
  ∃ w, writes s' = w ++ writes s ∧ Forall (λ p, p = STAGING_FILE) w.
Proof.
  unfold remove_from_staging, fopen_w.
  destruct (fopen_r s STAGING_FILE) as [data|]; [|intros [= <-]; by exists []].
  destruct (keep_loop f [] _) as [kept|]; [|done].
  destruct (decide (STAGING_FILE ∈ readonly s)); intros [= <-].
  - by exists [].
  - exists [STAGING_FILE]. split; [done|]. by apply Forall_singleton.
Qed.

(** Staging opens no file but the staging file for writing. *)
Lemma stage_writes s f h h' s' :
  stage s f h = Staged h' s' →
  ∃ w, writes s' = w ++ writes s ∧ Forall (λ p, p = STAGING_FILE) w.
Proof.
  unfold stage.
  destruct (if is_already_staged s f then remove_from_staging s f else Some s)
    as [s1|] eqn:Hrem; [|done].
  assert (∃ w, writes s1 = w ++ writes s ∧ Forall (λ p, p = STAGING_FILE) w)
    as (w & Hw & Hall).
  { destruct (is_already_staged s f).
    - by apply remove_from_staging_writes in Hrem.
    - injection Hrem as <-. by exists []. }
  unfold fopen_a. destruct (decide (STAGING_FILE ∈ readonly s1)); [done|].
  intros [= <- <-]. exists (STAGING_FILE :: w). cbn [store writes].
  rewrite Hw. split; [done|]. by apply Forall_cons.
Qed.

(** When the blob of the content is there, [mygit_add] goes straight to
    the staging step. *)
Lemma mygit_add_blob_present s f data :
  files s !! f = Some data →
  is_Some (files s !! blob_path (hash_content (staged_content data))) →
  mygit_add s f = stage s f (hash_content (staged_content data)).
Proof.
  intros Hf [old Hold]. unfold staged_content in *. rewrite hash_content_cstr in *.
  unfold mygit_add, file_exists, read_file, save_blob, file_exists, fopen_r.
  by rewrite Hf, Hold.
Qed.

(** C9. [mygit_add] fingerprints and stores [staged_content]: the first
    [MAX_CONTENT - 1] bytes of the file, cut at the first NUL byte.  Two
    files with the same [staged_content], staged one after the other, get
    the same fingerprint; the second finds the blob of the first, leaves
    it as it is and opens no file but the staging file for writing; and
    the staging line each add appends is the filename, ['|'], that
    fingerprint in decimal and a line feed. *)
Theorem add_stages_truncated_content s f1 d1 h1 s1 f2 d2 h2 s2 :
  files s !! f1 = Some d1 → mygit_add s f1 = Staged h1 s1 →
  files s1 !! f2 = Some d2 → mygit_add s1 f2 = Staged h2 s2 →
  staged_content d1 = staged_content d2 →
  h1 = hash_content (staged_content d1)
  ∧ h2 = h1
  ∧ files s1 !! blob_path h1
    = Some (default (staged_content d1) (files s !! blob_path h1))
  ∧ files s2 !! blob_path h1 = files s1 !! blob_path h1
  ∧ (∃ w, writes s2 = w ++ writes s1 ∧ Forall (λ p, p = STAGING_FILE) w)
  ∧ (∃ before, files s1 !! STAGING_FILE
               = Some (before ++ f1 ++ B "|" ++ fmt_lu h1 ++ [LF]))
  ∧ (∃ before, files s2 !! STAGING_FILE
               = Some (before ++ f2 ++ B "|" ++ fmt_lu h1 ++ [LF])).
Proof.
  intros Hf1 Hadd1 Hf2 Hadd2 Hsame.
  destruct (mygit_add_staged s f1 d1 h1 s1 Hf1 Hadd1) as (Hh1 & _ & _ & Hblob1 & Hline1).
  destruct (mygit_add_staged s1 f2 d2 h2 s2 Hf2 Hadd2) as (Hh2 & _ & _ & Hblob2 & Hline2).
  assert (h2 = h1) as -> by congruence.
  repeat split; try done.
  - rewrite Hblob2, Hblob1. done.
  - rewrite (mygit_add_blob_present s1 f2 d2) in Hadd2; [|done|].
    + by apply stage_writes in Hadd2.
    + rewrite <- Hsame, <- Hh1, Hblob1. by eexists.
Qed.

Lemma add_stages_truncated_content_witness :
  let long := B "hello" ++ NUL :: B "tail" in
  let s := disk_of (init_files ++ [(B "a.txt", B "hello"); (B "b.bin", long)]) in
  ∃ s1 s2, mygit_add s (B "a.txt") = Staged 210714636441 s1
    ∧ mygit_add s1 (B "b.bin") = Staged 210714636441 s2
    ∧ files s2 !! blob_path 210714636441 = Some (B "hello")
    ∧ files s2 !! STAGING_FILE
      = Some (unlines [B "# MyGit Staging Area"; B "a.txt|210714636441";
                       B "b.bin|210714636441"])
    ∧ staged_entries s2 = [(B "a.txt", 210714636441); (B "b.bin", 210714636441)].
Proof.
  intros long s.
  set (s1 := unwrap_add (mygit_add s (B "a.txt")) s).
  set (s2 := unwrap_add (mygit_add s1 (B "b.bin")) s).
  assert (mygit_add s (B "a.txt") = Staged 210714636441 s1) as Hadd1 by by_computation.
  assert (mygit_add s1 (B "b.bin") = Staged 210714636441 s2) as Hadd2 by by_computation.
  destruct (add_stages_truncated_content s (B "a.txt") (B "hello") 210714636441 s1
              (B "b.bin") long 210714636441 s2) as (_ & _ & Hblob1 & Hblob2 & _);
    [by_computation|exact Hadd1|by_computation|exact Hadd2|by_computation|].
  exists s1, s2. split; [exact Hadd1|]. split; [exact Hadd2|].
  split; [rewrite Hblob2, Hblob1; by_computation|].
  split; by_computation.
Defined.

(** ** The commit log *)

Lemma fgets_all_single_lines ls :
  Forall single_line ls → fgets_all MAX_LINE (unlines ls) = (λ l, l ++ [LF]) <$> ls.
Proof.
  induction 1 as [|l ls (Hlf & Hlen) _ IH]; [done|].
  change (unlines (l :: ls)) with ((l ++ [LF]) ++ unlines ls).
  rewrite <- (assoc_L (++)). simpl.
  unfold fgets_all at 1. rewrite fgets_from_line; [|done|done].
  by rewrite IH.
Qed.

Lemma commit_record_lines c : commit_record c = unlines (record_lines c).
Proof.
  unfold commit_record, record_lines, unlines. cbn [fmap list_fmap concat].
  by rewrite <- !(assoc_L (++)).
Qed.

Lemma max_commit_id_app M l1 l2 :
  max_commit_id M (l1 ++ l2) = max_commit_id (max_commit_id M l1) l2.
Proof.
  revert M. induction l1 as [|line l1 IH]; intros M; [done|]. simpl.
  by destruct (sscanf_lit_d COMMIT_TAG (cstr line)); rewrite IH.
Qed.

Lemma max_commit_id_ge M lines : M ≤ max_commit_id M lines.
Proof.
  revert M. induction lines as [|line lines IH]; intros M; simpl; [lia|].
  destruct (sscanf_lit_d COMMIT_TAG (cstr line)) as [n|]; [|done].
  destruct (Z.ltb_spec M n); [|done]. etrans; [|apply IH]. lia.
Qed.

Lemma last_commit_id_nonneg s : 0 ≤ last_commit_id s.
Proof.
  unfold last_commit_id. destruct (fopen_r s COMMITS_FILE); [|done].
  apply max_commit_id_ge.
Qed.

Lemma get_next_commit_id_last s :
  get_next_commit_id s = to_int (last_commit_id s + 1).
Proof.
  unfold get_next_commit_id, last_commit_id.
  by destruct (fopen_r s COMMITS_FILE).
Qed.

Lemma elem_of_rev_iff {A} (x : A) l : x ∈ rev l ↔ x ∈ l.
Proof. rewrite !list_elem_of_In. symmetry. apply in_rev. Qed.

Lemma fmt_d_not_elem n c : ¬ is_digit c → c ≠ "-"%char → c ∉ fmt_d n.
Proof.
  intros Hd Hm. unfold fmt_d. destruct (n <? 0).
  - apply not_elem_of_cons. split; [done|].
    rewrite elem_of_rev_iff. apply digits_not_elem; [apply digits_rev_digits|done].
  - rewrite elem_of_rev_iff. apply digits_not_elem; [apply digits_rev_digits|done].
Qed.

Lemma comma_separated_not_elem items c :
  c ≠ ","%char → Forall (λ x, c ∉ x) items → c ∉ comma_separated items.
Proof.
  intros Hc. induction 1 as [|x items Hx _ IH]; [apply not_elem_of_nil|].
  destruct items as [|y items]; [done|].
  change (c ∉ x ++ ","%char :: comma_separated (y :: items)).
  rewrite not_elem_of_app, not_elem_of_cons. auto.
Qed.

Lemma comma_separated_length items n :
  Forall (λ x, (length x ≤ n)%nat) items →
  (length (comma_separated items) ≤ (n + 1) * length items)%nat.
Proof.
  induction 1 as [|x items Hx _ IH]; [simpl; lia|].
  destruct items as [|y items]; [simpl in *; lia|].
  change (comma_separated (x :: y :: items))
    with (x ++ ","%char :: comma_separated (y :: items)).
  rewrite length_app. cbn [length] in *. lia.
Qed.

Lemma hashes_line_single (es : list (bytes * Z)) :
  (length es ≤ COMMIT_SLOTS)%nat →
  single_line (B "HASHES:" ++ comma_separated (fmt_lu ∘ snd <$> es)).
Proof.
  intros Hlen. split.
  - apply not_elem_of_app. split; [compute_done|].
    apply comma_separated_not_elem; [done|].
    apply Forall_fmap, Forall_forall. intros e _. simpl.
    apply digits_not_elem; [apply fmt_lu_digits|apply not_digit_LF].
  - rewrite length_app.
    pose proof (comma_separated_length (fmt_lu ∘ snd <$> es) 20) as Hcs.
    rewrite length_fmap in Hcs. unfold COMMIT_SLOTS in Hlen.
    change (length (B "HASHES:")) with 7%nat. unfold MAX_LINE.
    assert (length (comma_separated (fmt_lu ∘ snd <$> es)) ≤ 21 * length es)%nat; [|lia].
    apply Hcs. apply Forall_fmap, Forall_forall. intros e _. apply fmt_lu_length.
Qed.

Lemma record_lines_single c :
  plain_record c →
  (length (message c) < MAX_MESSAGE)%nat →
  (length (branch c) < MAX_BRANCH_NAME)%nat →
  (length (entries c) ≤ COMMIT_SLOTS)%nat →
  Forall single_line (record_lines c).
Proof.
  intros (Hmsg & Hts & Htslen & Hbr & Hfiles) Hmsglen Hbrlen Hes.
  unfold MAX_MESSAGE, MAX_BRANCH_NAME in *.
  assert (∀ tag body, LF ∉ tag → LF ∉ body →
            (length tag + length body < 1023)%nat → single_line (tag ++ body))
    as Hline.
  { intros tag body ? ? ?. split; [by apply not_elem_of_app|].
    rewrite length_app. unfold MAX_LINE. lia. }
  unfold record_lines.
  repeat first [apply List.Forall_nil | apply List.Forall_cons].
  - apply Hline; [compute_done| |].
    + apply fmt_d_not_elem; [apply not_digit_LF|done].
    + pose proof (fmt_d_length (id c)). change (length (B "COMMIT:")) with 7%nat. lia.
  - apply Hline; [compute_done|done|]. change (length (B "MSG:")) with 4%nat. lia.
  - apply Hline; [compute_done|done|]. change (length (B "TIME:")) with 5%nat. lia.
  - apply Hline; [compute_done|done|]. change (length (B "BRANCH:")) with 7%nat. lia.
  - apply Hline; [compute_done| |].
    + apply fmt_d_not_elem; [apply not_digit_LF|done].
    + pose proof (fmt_d_length (parent_id c)).
      change (length (B "PARENT:")) with 7%nat. lia.
  - done.
  - by apply hashes_line_single.
  - compute_done.
Qed.

Lemma sscanf_other_tag c0 rest :
  c0 ≠ "C"%char → c0 ≠ NUL → sscanf_lit_d COMMIT_TAG (cstr (c0 :: rest)) = None.
Proof.
  intros HC Hnul. apply is_nul_false in Hnul. apply Ascii.eqb_neq in HC.
  cbn [cstr]. rewrite Hnul. unfold sscanf_lit_d, COMMIT_TAG. cbn [match_literal].
  by rewrite HC.
Qed.

(** A plain record adds its own id to the ids of the log, and no other. *)
Lemma max_commit_id_record M c :
  Forall single_line (record_lines c) → 0 ≤ id c < 2 ^ 31 →
  max_commit_id M (fgets_all MAX_LINE (commit_record c)) = Z.max M (id c).
Proof.
  intros Hlines Hid. rewrite commit_record_lines, fgets_all_single_lines by done.
  unfold record_lines. cbn [fmap list_fmap max_commit_id].
  rewrite (cstr_id ((B "COMMIT:" ++ fmt_d (id c)) ++ [LF])).
  2:{ rewrite !not_elem_of_app. repeat split; [compute_done| |compute_done].
      apply fmt_d_not_elem; [apply not_digit_NUL|done]. }
  rewrite <- (assoc_L (++)).
  change (B "COMMIT:") with COMMIT_TAG.
  rewrite (sscanf_commit_line (id c) []) by done.
  cbn [B String.list_ascii_of_string app].
  rewrite !sscanf_other_tag by done.
  destruct (Z.ltb_spec M (id c)); lia.
Qed.

Lemma last_commit_id_default s :
  last_commit_id s
  = max_commit_id 0 (fgets_all MAX_LINE (default [] (files s !! COMMITS_FILE))).
Proof. unfold last_commit_id, fopen_r. by destruct (files s !! COMMITS_FILE). Qed.

Lemma commit_record_complete log c : complete (log ++ commit_record c).
Proof.
  right. unfold commit_record. rewrite !(assoc_L (++)). by eexists.
Qed.

(** ** The current branch and its reference *)

Lemma drop_final_lf_length s : (length (drop_final_lf s) ≤ length s)%nat.
Proof.
  induction s as [|c s IH]; [done|]. destruct s as [|c' s].
  - simpl. destruct (is_lf c); simpl; lia.
  - change (drop_final_lf (c :: c' :: s)) with (c :: drop_final_lf (c' :: s)).
    simpl in *. lia.
Qed.

Lemma current_branch_length s : (length (current_branch s) < MAX_BRANCH_NAME)%nat.
Proof.
  unfold current_branch, get_current_branch, read_file.
  destruct (fopen_r s HEAD_FILE) as [data|]; [|compute_done].
  pose proof (drop_final_lf_length (cstr (take (MAX_BRANCH_NAME - 1) data))) as Hd.
  pose proof (cstr_length (take (MAX_BRANCH_NAME - 1) data)) as Hc.
  rewrite length_take in Hc. unfold MAX_BRANCH_NAME in *. lia.
Qed.

Lemma current_branch_same s t :
  files t !! HEAD_FILE = files s !! HEAD_FILE → current_branch t = current_branch s.
Proof.
  intros H. unfold current_branch, get_current_branch, read_file, fopen_r.
  by rewrite H.
Qed.

Lemma branch_head_same s t b :
  files t !! ref_path b = files s !! ref_path b →
  get_last_commit_id_on_branch t b = get_last_commit_id_on_branch s b.
Proof.
  intros H. unfold get_last_commit_id_on_branch, read_file, fopen_r. by rewrite H.
Qed.

Lemma last_commit_id_same s t :
  files t !! COMMITS_FILE = files s !! COMMITS_FILE →
  last_commit_id t = last_commit_id s.
Proof. intros H. unfold last_commit_id, fopen_r. by rewrite H. Qed.

(** The reference written by [update_branch_ref] reads back as the id. *)
Lemma branch_head_written s b n :
  0 ≤ n < 2 ^ 31 →
  files s !! ref_path b = Some (cstr (snprintf 20 (fmt_d n))) →
  get_last_commit_id_on_branch s b = n.
Proof.
  intros Hn Hfile. unfold get_last_commit_id_on_branch, read_file, fopen_r.
  rewrite Hfile. pose proof (fmt_d_length n) as Hlen.
  assert (NUL ∉ fmt_d n) as Hnul by (apply fmt_d_not_elem; [apply not_digit_NUL|done]).
  unfold snprintf. rewrite (take_ge (fmt_d n)) by (simpl; lia).
  rewrite (cstr_id (fmt_d n)) by done.
  rewrite take_ge by (simpl; lia). rewrite cstr_id by done.
  by apply atoi_fmt_d.
Qed.

(** ** One commit *)

Lemma commit_step t msg now c s' :
  mygit_commit t msg now = Committed c s' →
  complete (default [] (files t !! COMMITS_FILE)) →
  last_commit_id t + 1 < 2 ^ 31 →
  ref_path (current_branch t) ∉ readonly t →
  plain_record c →
  id c = last_commit_id t + 1
  ∧ parent_id c
    = (if get_last_commit_id_on_branch t (current_branch t) =? 0 then -1
       else get_last_commit_id_on_branch t (current_branch t))
  ∧ branch c = current_branch t
  ∧ complete (default [] (files s' !! COMMITS_FILE))
  ∧ last_commit_id s' = id c
  ∧ files s' !! HEAD_FILE = files t !! HEAD_FILE
  ∧ get_last_commit_id_on_branch s' (current_branch t) = id c
  ∧ readonly s' = readonly t.
Proof.
  intros Hcommit Hlog Hmax Hrw Hplain.
  pose proof (last_commit_id_nonneg t) as Hnonneg.
  pose proof (mygit_commit_frame _ _ _ _ _ Hcommit) as [Hro Hframe].
  revert Hcommit. unfold mygit_commit.
  destruct (count_staged_files t =? 0); [done|].
  unfold read_staged_files.
  destruct (fopen_r t STAGING_FILE) as [data|]; [|done].
  destruct (read_loop [] (fgets_all MAX_LINE data)) as [es| |] eqn:Hread; [|done|done].
  apply read_loop_length in Hread; [|simpl; lia].
  fold (current_branch t). rewrite get_next_commit_id_last.
  rewrite to_int_small by lia.
  set (new_id := last_commit_id t + 1) in *.
  set (new_commit := {| id := new_id |}).
  destruct (save_commit t new_commit) as [s1|] eqn:Hsave; [|done].
  intros [= <- <-].
  apply save_commit_frame in Hsave as (Hro1 & Hlog1 & Hframe1).
  destruct (update_branch_ref_frame s1 (current_branch t) new_id) as [Hro2 Hframe2].
  destruct (clear_staging_area_frame (update_branch_ref s1 (current_branch t) new_id))
    as [Hro3 Hframe3].
  set (s2 := update_branch_ref s1 (current_branch t) new_id) in *.
  assert (files (clear_staging_area s2) !! COMMITS_FILE
          = Some (default [] (files t !! COMMITS_FILE) ++ commit_record new_commit))
    as Hlog3.
  { rewrite Hframe3 by done. unfold s2. rewrite Hframe2; [done|].
    apply not_eq_sym, ref_path_not_commits. }
  assert (Forall single_line (record_lines new_commit)) as Hlines.
  { apply record_lines_single; [done| |apply current_branch_length|done].
    cbn [message new_commit]. rewrite length_take. unfold MAX_MESSAGE. lia. }
  cbn [id parent_id branch new_commit]. repeat split; try done.
  - rewrite Hlog3. apply commit_record_complete.
  - unfold last_commit_id at 1, fopen_r. rewrite Hlog3.
    rewrite fgets_all_app, max_commit_id_app by done.
    rewrite <- last_commit_id_default.
    rewrite max_commit_id_record by (done || cbn [id new_commit]; lia).
    cbn [id new_commit]. lia.
  - rewrite Hframe3 by done.
    rewrite Hframe2 by apply not_eq_sym, ref_path_not_head.
    by rewrite Hframe1.
  - apply branch_head_written; [lia|].
    rewrite Hframe3 by apply ref_path_not_staging.
    unfold s2, update_branch_ref, write_file, fopen_w.
    rewrite Hro1, decide_False by done. apply store_lookup.
Qed.

(** ** Runs of commits (C1) *)

Lemma mygit_add_same_history s f h t : mygit_add s f = Staged h t → same_history s t.
Proof.
  intros Hadd.
  assert (is_Some (files s !! f)) as [data Hf].
  { unfold mygit_add, file_exists, fopen_r in Hadd.
    destruct (files s !! f); [by eexists|done]. }
  destruct (mygit_add_staged s f data h t Hf Hadd) as (_ & Hro & Hframe & _).
  repeat split; [| | |done]; apply Hframe; first [done | auto with paths].
Qed.

Lemma commit_run_ids s cs s' :
  commit_run s cs s' →
  complete (default [] (files s !! COMMITS_FILE)) →
  ref_path (current_branch s) ∉ readonly s →
  Forall plain_record cs →
  last_commit_id s + Z.of_nat (length cs) < 2 ^ 31 →
  ∀ k c, cs !! k = Some c →
    id c = last_commit_id s + 1 + Z.of_nat k
    ∧ branch c = current_branch s
    ∧ parent_id c
      = match k with
        | O => if get_last_commit_id_on_branch s (current_branch s) =? 0 then -1
               else get_last_commit_id_on_branch s (current_branch s)
        | S _ => last_commit_id s + Z.of_nat k
        end.
Proof.
  induction 1 as [s|s t c s' cs s'' msg now (Hlog & Hhead & Href & Hro) Hcommit _ IH];
    intros Hcomplete Hrw Hplain Hmax k c' Hk; [done|].
  apply Forall_cons in Hplain as [Hc Hcs]. cbn [length] in Hmax.
  pose proof (current_branch_same s t Hhead) as Hbranch.
  pose proof (last_commit_id_same s t Hlog) as Hlast.
  pose proof (last_commit_id_nonneg s) as Hnonneg.
  destruct (commit_step t msg now c s' Hcommit)
    as (Hid & Hparent & Hbr & Hcomplete' & Hlast' & Hhead' & Href' & Hro');
    [by rewrite Hlog|lia|by rewrite Hbranch, Hro|done|].
  rewrite Hbranch, Hlast in *. rewrite (branch_head_same s t _ Href) in Hparent.
  pose proof (current_branch_same t s' Hhead') as Hbranch'.
  rewrite Hbranch in Hbranch'.
  destruct k as [|k].
  - injection Hk as <-. repeat split; [lia|done|done].
  - destruct (IH Hcomplete') with (k := k) (c := c') as (Hid' & Hbr' & Hparent').
    + by rewrite Hbranch', Hro', Hro.
    + done.
    + lia.
    + done.
    + rewrite Hbranch' in Hbr', Hparent'. rewrite Hlast' in Hid', Hparent'.
      rewrite Href' in Hparent'.
      repeat split; [lia|done|].
      destruct k as [|k]; [|lia].
      destruct (Z.eqb_spec (id c) 0); lia.
Qed.

(** C1 (amended). On a branch without commits whose name is one path
    component, [N] successful commits whose records are plain get the ids
    [M + 1 .. M + N] in creation order, where [M] is the largest id in the
    commit log before the first of them, so [1 .. N] in a repository
    without commits; the first has parent -1 and each later one has the id
    of the one before it as parent.  This holds while the ids stay below
    [2^31], the log is empty or ends with a line feed, and the branch
    reference can be written.  The name is read from HEAD as it is and
    put behind [.mygit/refs/]: only a plain name is sure to give the
    branch a reference file of its own. *)
Theorem fresh_branch_commit_ids s cs s' :
  commit_run s cs s' →
  complete (default [] (files s !! COMMITS_FILE)) →
  get_last_commit_id_on_branch s (current_branch s) = 0 →
  plain_name (current_branch s) →
  ref_path (current_branch s) ∉ readonly s →
  Forall plain_record cs →
  last_commit_id s + Z.of_nat (length cs) < 2 ^ 31 →
  ∀ k c, cs !! k = Some c →
    id c = last_commit_id s + 1 + Z.of_nat k
    ∧ parent_id c = (if decide (k = 0%nat) then -1 else id c - 1)
    ∧ (last_commit_id s = 0 → id c = Z.of_nat (S k))
    ∧ get_next_commit_id s = last_commit_id s + 1.
Proof.
  intros Hrun Hcomplete Hfresh _ Hrw Hplain Hmax k c Hk.
  destruct (commit_run_ids s cs s' Hrun Hcomplete Hrw Hplain Hmax k c Hk)
    as (Hid & _ & Hparent).
  pose proof (last_commit_id_nonneg s) as Hnonneg.
  assert (k < length cs)%nat by (by eapply lookup_lt_Some).
  repeat split.
  - done.
  - rewrite Hfresh in Hparent. destruct k as [|k]; [done|]. simpl. lia.
  - lia.
  - rewrite get_next_commit_id_last. apply to_int_small. lia.
Qed.

Lemma fresh_branch_commit_ids_witness :
  ∃ c1 c2 s', commit_run work_repo [c1; c2] s'
    ∧ (id c1 = 1 ∧ parent_id c1 = -1) ∧ (id c2 = 2 ∧ parent_id c2 = 1).
Proof.
  set (now := B "2025-01-15 14:30:00").
  set (t1 := unwrap_add (mygit_add work_repo (B "a.txt")) work_repo).
  set (s1 := unwrap_commit (mygit_commit t1 (B "first") now) work_repo).
  set (t2 := unwrap_add (mygit_add s1 (B "b.txt")) work_repo).
  assert (∃ c1 c2 s', commit_run work_repo [c1; c2] s'
            ∧ Forall plain_record [c1; c2]) as (c1 & c2 & s' & Hrun & Hplain).
  { eexists _, _, _. split.
    - eapply (run_cons work_repo t1 _ s1 _ _ (B "first") now).
      { apply (mygit_add_same_history _ (B "a.txt") 210714636441).
        by_computation. }
      { by_computation. }
      eapply (run_cons s1 t2 _ _ _ _ (B "second") now).
      { apply (mygit_add_same_history _ (B "b.txt") 210732791149).
        by_computation. }
      { by_computation. }
      apply run_nil.
    - compute_done. }
  exists c1, c2, s'. split; [done|].
  assert (complete (default [] (files work_repo !! COMMITS_FILE))) as Hlog.
  { right. by exists (B "# MyGit Commit History"). }
  pose proof (fresh_branch_commit_ids work_repo [c1; c2] s' Hrun Hlog
                ltac:(by_computation) ltac:(compute_done) ltac:(compute_done) Hplain
                ltac:(by_computation)) as Hids.
  destruct (Hids 0%nat c1 eq_refl) as (Hid1 & Hp1 & _).
  destruct (Hids 1%nat c2 eq_refl) as (Hid2 & Hp2 & _).
  change (last_commit_id work_repo) with 0 in Hid1, Hid2.
  simpl in Hid1, Hid2, Hp1, Hp2. split; split; lia.
Defined.

(** C1 (as stated) fails.  Ids are counted over the whole log, not per
    branch: with one commit on [main], the first commit on the branch
    [dev], which has no commit yet, gets the id 2.  And every line of the
    log that reads as a commit header counts: after a first commit whose
    message holds a line feed followed by [COMMIT:41], the second commit
    of a new repository gets the id 42. *)
Lemma fresh_branch_ids_not_from_one :
  let now := B "2025-01-16 09:00:00" in
  let t1 := unwrap_add (mygit_add work_repo (B "a.txt")) work_repo in
  let s1 := unwrap_commit (mygit_commit t1 (B "x" ++ LF :: B "COMMIT:41") now) work_repo in
  let t2 := unwrap_add (mygit_add s1 (B "b.txt")) work_repo in
  (current_branch second_branch_repo = B "dev"
   ∧ get_last_commit_id_on_branch second_branch_repo (B "dev") = 0
   ∧ ∃ c s', mygit_commit second_branch_repo (B "on dev") now = Committed c s'
       ∧ branch c = B "dev" ∧ id c = 2 ∧ parent_id c = -1)
  ∧ (last_commit_id work_repo = 0
     ∧ ∃ c1 c2 s2, mygit_commit t1 (B "x" ++ LF :: B "COMMIT:41") now = Committed c1 s1
         ∧ mygit_commit t2 (B "second") now = Committed c2 s2
         ∧ id c1 = 1 ∧ id c2 = 42 ∧ parent_id c2 = 1).
Proof.
  intros now t1 s1 t2. split.
  - split; [by_computation|]. split; [by_computation|].
    eexists _, _. split; [by_computation|]. repeat split.
  - split; [by_computation|].
    eexists _, _, _. split; [by_computation|].
    split; [by_computation|]. repeat split.
Qed.
(** * Further properties of the code *)

(** ** Conversions and tokens *)

Lemma scan_decimal_signs c ds :
  is_digit c →
  scan_decimal (c :: ds) = Some (false, digits_val 0 (c :: ds))
  ∧ scan_decimal ("-"%char :: c :: ds) = Some (true, digits_val 0 (c :: ds)).
Proof.
  intros Hc. destruct (is_digit_plain c Hc) as (Hsp & Hminus & Hplus & _).
  apply Ascii.eqb_neq in Hminus, Hplus. destruct Hc as [d Hd].
  unfold scan_decimal. cbn [skip_spaces]. rewrite Hsp, Hminus, Hplus.
  change (is_space "-"%char) with false. cbn [Ascii.eqb Bool.eqb].
  by rewrite Hd.
Qed.

Lemma scan_decimal_minus fuel m :
  0 ≤ m < 10 ^ Z.of_nat (S fuel) →
  scan_decimal ("-"%char :: rev (digits_rev (S fuel) m)) = Some (true, m).
Proof.
  intros Hm.
  pose proof (scan_decimal_digits fuel m [] Hm I) as Hscan.
  rewrite app_nil_r in Hscan.
  pose proof (digits_rev_digits (S fuel) m) as Hds. apply Forall_rev in Hds.
  destruct (rev (digits_rev (S fuel) m)) as [|c ds] eqn:E.
  { apply (f_equal length) in E. rewrite length_rev in E. simpl in E. lia. }
  apply Forall_cons in Hds as [Hc _].
  destruct (scan_decimal_signs c ds Hc) as [Hplain Hneg].
  rewrite Hneg. rewrite Hplain in Hscan. congruence.
Qed.

Lemma atoi_fmt_d_int n : - 2 ^ 31 ≤ n < 2 ^ 31 → atoi (fmt_d n) = n.
Proof.
  intros Hn. destruct (Z.lt_ge_cases n 0) as [Hneg|Hpos].
  - unfold atoi, strtol, fmt_d. destruct (Z.ltb_spec n 0); [|lia].
    rewrite scan_decimal_minus by lia.
    unfold LONG_MIN, LONG_MAX. rewrite Z.min_r, Z.max_r by lia.
    rewrite to_int_small by lia. lia.
  - apply atoi_fmt_d. lia.
Qed.

Lemma to_int_range n : - 2 ^ 31 ≤ to_int n < 2 ^ 31.
Proof.
  unfold to_int, wrap_signed.
  pose proof (Z.mod_pos_bound (n + 2 ^ (32 - 1)) (2 ^ 32) ltac:(lia)). lia.
Qed.

Lemma digits_val_nonneg acc s : 0 ≤ acc → 0 ≤ digits_val acc s.
Proof.
  revert acc. induction s as [|c s IH]; intros acc Hacc; simpl; [done|].
  destruct (digit_val c) as [d|] eqn:E; [|done]. apply IH.
  unfold digit_val in E.
  destruct ((48 <=? Z.of_nat (nat_of_ascii c)) && (Z.of_nat (nat_of_ascii c) <=? 57))
    eqn:Hc; [|done].
  injection E as <-. apply andb_true_iff in Hc as [H1 _]. lia.
Qed.

Lemma strtoul_range s : 0 ≤ strtoul s ≤ ULONG_MAX.
Proof.
  unfold strtoul. destruct (scan_decimal s) as [[neg m]|] eqn:E; [|by compute].
  destruct (Z.ltb_spec ULONG_MAX m); [by compute|].
  destruct neg.
  - pose proof (to_ulong_range (- m)). unfold ULONG_MAX. lia.
  - split; [|done]. unfold scan_decimal in E.
    destruct (match skip_spaces s with
              | [] => (false, skip_spaces s)
              | c :: rest =>
                  if Ascii.eqb c "-" then (true, rest)
                  else if Ascii.eqb c "+" then (false, rest) else (false, skip_spaces s)
              end) as [neg' s2].
    destruct s2 as [|c s2]; [done|]. destruct (digit_val c); [|done].
    injection E as _ <-. by apply (digits_val_nonneg 0 (c :: s2)).
Qed.

Lemma chomp_no_cr s : CR ∉ chomp s.
Proof.
  induction s as [|c s IH]; simpl; [apply not_elem_of_nil|].
  destruct (Ascii.eqb c LF); simpl; [apply not_elem_of_nil|].
  destruct (Ascii.eqb_spec c CR) as [->|Hc]; [apply not_elem_of_nil|].
  apply not_elem_of_cons. auto.
Qed.

Lemma chomp_sub s c : c ∈ chomp s → c ∈ s.
Proof.
  induction s as [|x s IH]; simpl; [done|].
  destruct (Ascii.eqb x LF || Ascii.eqb x CR); [by intros ?%elem_of_nil|].
  intros [->|H]%elem_of_cons; [left|right; auto].
Qed.

Lemma token_split_no_delim d s : d ∉ (token_split d s).1.
Proof.
  induction s as [|x s IH]; simpl; [apply not_elem_of_nil|].
  destruct (Ascii.eqb_spec x d) as [->|Hx]; simpl; [apply not_elem_of_nil|].
  destruct (token_split d s) as [tok after]. simpl in *.
  apply not_elem_of_cons. auto.
Qed.

Lemma skip_delims_head d s x s' : skip_delims d s = x :: s' → x ≠ d.
Proof.
  induction s as [|y s IH]; simpl; [done|].
  destruct (Ascii.eqb_spec y d) as [->|Hy]; [done|]. by intros [= <- _].
Qed.

(** A token is never empty and never holds the delimiter. *)
Lemma strtok_shape d s tok after :
  strtok d s = Some (tok, after) → tok ≠ [] ∧ d ∉ tok.
Proof.
  unfold strtok. destruct (skip_delims d s) as [|x s'] eqn:E; [done|].
  intros Htok. apply (inj Some) in Htok.
  pose proof (token_split_no_delim d (x :: s')) as Hd.
  rewrite Htok in Hd. split; [|done].
  apply skip_delims_head in E. simpl in Htok. apply Ascii.eqb_neq in E.
  rewrite E in Htok. destruct (token_split d s'). by injection Htok as <- _.
Qed.

Lemma fgets_from_length size room data :
  (length (fgets_from size room data) ≤ length data)%nat.
Proof.
  revert room. induction data as [|c data IH]; intros room; simpl; [lia|].
  destruct (is_lf c || (room =? 1)%nat); simpl.
  - specialize (IH (size - 1)%nat). lia.
  - specialize (IH (room - 1)%nat).
    destruct (fgets_from size (room - 1) data); simpl in *; lia.
Qed.

Lemma complete_last text : last text = Some LF → complete text.
Proof.
  intros Hlast. right. destruct text as [|c text] using rev_ind; [done|].
  rewrite last_snoc in Hlast. injection Hlast as ->. by eexists.
Qed.

(** ** Paths of the repository *)

Lemma in_repository_staging : in_repository STAGING_FILE.
Proof. done. Qed.

Lemma in_repository_commits : in_repository COMMITS_FILE.
Proof. done. Qed.

Lemma in_repository_blob k : in_repository (blob_path k).
Proof. done. Qed.

Lemma in_repository_ref b : in_repository (ref_path b).
Proof. done. Qed.

(** ** Fingerprints *)

Lemma hash_loop_snoc h s c :
  NUL ∉ s → c ≠ NUL →
  hash_loop h (s ++ [c]) = to_ulong (hash_loop h s * 33 + char_to_int c).
Proof.
  revert h. induction s as [|x s IH]; intros h Hs Hc.
  - simpl. apply is_nul_false in Hc. rewrite Hc. f_equal.
    rewrite Z.shiftl_mul_pow2 by lia. lia.
  - apply not_elem_of_cons in Hs as [Hx Hs]. apply not_eq_sym, is_nul_false in Hx.
    simpl. rewrite Hx. by apply IH.
Qed.

(** X1. [hash_content] is the djb2 recurrence on unsigned 64 bit
    integers: it starts from 5381, and appending a byte [c] to a text
    without NUL maps its fingerprint [h] to [(h * 33 + c) mod 2^64], the
    byte taken as a [char].  The result fits an [unsigned long]. *)
Theorem hash_content_djb2 s c :
  NUL ∉ s → c ≠ NUL →
  hash_content [] = 5381
  ∧ hash_content (s ++ [c]) = (hash_content s * 33 + char_to_int c) mod 2 ^ 64
  ∧ 0 ≤ hash_content (s ++ [c]) < 2 ^ 64.
Proof.
  intros Hs Hc. split; [done|]. split.
  - by apply hash_loop_snoc.
  - apply hash_loop_range. lia.
Qed.

Lemma hash_content_djb2_witness :
  hash_content (B "hi") = (hash_content (B "h") * 33 + 105) mod 2 ^ 64.
Proof.
  apply (hash_content_djb2 (B "h") "i"%char); compute_done.
Defined.

(** ** Files *)

(** X2. [write_file] then [read_file]: a write to a path that can
    be written succeeds, the file then exists, and reading it back with a
    buffer of [size] bytes, [size] being at least 1, gives the text up to
    its first NUL, cut to [size - 1] bytes; so content without NUL that is
    shorter than the buffer reads back as it is.  No other file changes,
    the paths being in normal form. *)
Theorem write_file_read_file s path content size :
  path ∉ readonly s → (0 < size)%nat →
  ∃ s', write_file s path content = Some s'
    ∧ file_exists s' path = true
    ∧ read_file s' path size = Some (take (size - 1) (cstr content))
    ∧ (NUL ∉ content → (length content < size)%nat →
         read_file s' path size = Some content)
    ∧ (∀ q, normal_path path → normal_path q → q ≠ path →
         files s' !! q = files s !! q).
Proof.
  intros Hrw _. unfold write_file, fopen_w. rewrite decide_False by done.
  eexists. split; [done|].
  unfold file_exists, read_file, fopen_r. rewrite store_lookup.
  split; [done|]. split; [done|]. split.
  - intros Hnul Hlen. rewrite cstr_id by done. rewrite take_ge by lia. done.
  - intros q _ _ Hq. by rewrite store_lookup_ne.
Qed.

Lemma write_file_read_file_witness :
  ∃ s', write_file fresh_repo HEAD_FILE (B "dev") = Some s'
    ∧ read_file s' HEAD_FILE MAX_BRANCH_NAME = Some (B "dev").
Proof.
  destruct (write_file_read_file fresh_repo HEAD_FILE (B "dev") MAX_BRANCH_NAME)
    as (s' & Hwrite & _ & _ & Hread & _).
  - compute_done.
  - compute_done.
  - exists s'. split; [exact Hwrite|]. apply Hread; compute_done.
Defined.

(** ** Reading HEAD *)

Lemma drop_final_lf_snoc b : drop_final_lf (b ++ [LF]) = b.
Proof.
  induction b as [|c b IH]; [done|].
  change ((c :: b) ++ [LF]) with (c :: (b ++ [LF])).
  destruct (b ++ [LF]) as [|x rest] eqn:E; [by destruct b|].
  change (drop_final_lf (c :: x :: rest)) with (c :: drop_final_lf (x :: rest)).
  by rewrite IH.
Qed.

Lemma drop_final_lf_id b : last b ≠ Some LF → drop_final_lf b = b.
Proof.
  induction b as [|c b IH]; [done|]. destruct b as [|x rest].
  - simpl. intros Hc. destruct (is_lf c) eqn:E; [|done].
    apply is_lf_true in E. by subst c.
  - intros Hlast.
    change (drop_final_lf (c :: x :: rest)) with (c :: drop_final_lf (x :: rest)).
    by rewrite IH.
Qed.

(** X3. [get_current_branch] reads the name in HEAD with or
    without a final line feed: for a name without NUL that does not end in
    a line feed and has less than [MAX_BRANCH_NAME - 1] bytes, a HEAD that
    holds the name, or the name and a line feed, reads as the name; a
    missing HEAD reads as main; and once [write_file] has put the name in
    HEAD, the current branch is that name. *)
Theorem get_current_branch_reads_head s b :
  NUL ∉ b → last b ≠ Some LF → (length b < MAX_BRANCH_NAME - 1)%nat →
  (files s !! HEAD_FILE = Some b → get_current_branch s MAX_BRANCH_NAME = b)
  ∧ (files s !! HEAD_FILE = Some (b ++ [LF]) →
       get_current_branch s MAX_BRANCH_NAME = b)
  ∧ (files s !! HEAD_FILE = None →
       get_current_branch s MAX_BRANCH_NAME = B "main")
  ∧ (HEAD_FILE ∉ readonly s →
       ∃ s', write_file s HEAD_FILE b = Some s'
         ∧ get_current_branch s' MAX_BRANCH_NAME = b).
Proof.
  intros Hnul Hlast Hlen. unfold MAX_BRANCH_NAME in Hlen.
  unfold get_current_branch, read_file, fopen_r.
  split; [|split; [|split]].
  - intros ->. rewrite take_ge by (unfold MAX_BRANCH_NAME; lia).
    rewrite cstr_id by done. by apply drop_final_lf_id.
  - intros ->.
    rewrite take_ge by (rewrite length_app; unfold MAX_BRANCH_NAME; simpl; lia).
    rewrite cstr_id by (apply not_elem_of_app; split; [done|compute_done]).
    apply drop_final_lf_snoc.
  - by intros ->.
  - intros Hrw. unfold write_file, fopen_w. rewrite decide_False by done.
    eexists. split; [done|]. rewrite store_lookup.
    rewrite (cstr_id b) by done. rewrite take_ge by (unfold MAX_BRANCH_NAME; lia).
    rewrite cstr_id by done. by apply drop_final_lf_id.
Qed.

Lemma get_current_branch_reads_head_witness :
  get_current_branch
    (disk_of [(HEAD_FILE, B "feature" ++ [LF])]) MAX_BRANCH_NAME = B "feature".
Proof.
  destruct (get_current_branch_reads_head
              (disk_of [(HEAD_FILE, B "feature" ++ [LF])]) (B "feature"))
    as (_ & Hread & _).
  - compute_done.
  - vm_compute. discriminate.
  - compute_done.
  - apply Hread. by_computation.
Defined.

(** ** Branch references *)

Lemma ref_path_short b :
  (length b < MAX_BRANCH_NAME)%nat → ref_path b = REFS_DIR ++ "/"%char :: b.
Proof.
  intros Hlen. unfold ref_path, snprintf. apply take_ge.
  rewrite length_app. cbn [length]. change (length REFS_DIR) with 11%nat.
  unfold MAX_BRANCH_NAME in Hlen. unfold MAX_PATH. lia.
Qed.

Lemma ref_path_inj b b' :
  (length b < MAX_BRANCH_NAME)%nat → (length b' < MAX_BRANCH_NAME)%nat →
  ref_path b = ref_path b' → b = b'.
Proof.
  intros Hb Hb'. rewrite !ref_path_short by done. intros E.
  apply app_inv_head in E. by injection E.
Qed.

(** The text [update_branch_ref] writes is the id in decimal. *)
Lemma ref_text n : cstr (snprintf 20 (fmt_d n)) = fmt_d n.
Proof.
  pose proof (fmt_d_length n) as Hlen.
  assert (NUL ∉ fmt_d n) as Hnul by (apply fmt_d_not_elem; [apply not_digit_NUL|done]).
  unfold snprintf. rewrite take_ge by (simpl; lia). by apply cstr_id.
Qed.

Lemma get_next_commit_id_range s : - 2 ^ 31 ≤ get_next_commit_id s < 2 ^ 31.
Proof.
  unfold get_next_commit_id. destruct (fopen_r s COMMITS_FILE); [|lia].
  apply to_int_range.
Qed.

(** X4. [update_branch_ref] then [get_last_commit_id_on_branch]
    is a round trip: for every id in the range of [int], negative ones
    included, the reference written for a branch reads back as that id
    when the reference file can be written.  When it cannot,
    [update_branch_ref] changes nothing.  The head of every other branch
    stays as it was, when both names are one path component and are
    shorter than [MAX_BRANCH_NAME]: such names have reference files of
    their own. *)
Theorem branch_ref_round_trip s b n :
  - 2 ^ 31 ≤ n < 2 ^ 31 →
  (ref_path b ∉ readonly s →
     get_last_commit_id_on_branch (update_branch_ref s b n) b = n)
  ∧ (ref_path b ∈ readonly s → update_branch_ref s b n = s)
  ∧ (∀ b', plain_name b → plain_name b' →
       (length b < MAX_BRANCH_NAME)%nat → (length b' < MAX_BRANCH_NAME)%nat →
       b' ≠ b →
       get_last_commit_id_on_branch (update_branch_ref s b n) b'
       = get_last_commit_id_on_branch s b').
Proof.
  intros Hn. split; [|split].
  - intros Hrw. unfold get_last_commit_id_on_branch, read_file, fopen_r.
    unfold update_branch_ref, write_file, fopen_w. rewrite decide_False by done.
    rewrite store_lookup. pose proof (fmt_d_length n) as Hlen.
    assert (NUL ∉ fmt_d n) as Hnul by (apply fmt_d_not_elem; [apply not_digit_NUL|done]).
    unfold snprintf. rewrite (take_ge (fmt_d n)) by (simpl; lia).
    rewrite (cstr_id (fmt_d n)) by done.
    rewrite take_ge by (simpl; lia). rewrite cstr_id by done.
    by apply atoi_fmt_d_int.
  - intros Hro. unfold update_branch_ref, write_file, fopen_w.
    by rewrite decide_True.
  - intros b' _ _ Hb Hb' Hne. apply branch_head_same.
    apply update_branch_ref_frame. intros E. by apply Hne, ref_path_inj.
Qed.

Lemma branch_ref_round_trip_witness :
  get_last_commit_id_on_branch (update_branch_ref fresh_repo (B "main") (-7)) (B "main")
  = -7.
Proof.
  destruct (branch_ref_round_trip fresh_repo (B "main") (-7)) as [Hread _]; [lia|].
  apply Hread. compute_done.
Defined.

(** ** Reading the staging file *)

Lemma read_loop_total lines es :
  (length es ≤ COMMIT_SLOTS)%nat →
  read_loop es lines
  = if decide (Forall (λ e, (length e.1 < MAX_FILENAME)%nat)
                 (take (COMMIT_SLOTS - length es) (omap (line_entry ∘ cstr) lines)))
    then ReadOk (take COMMIT_SLOTS (es ++ omap (line_entry ∘ cstr) lines))
    else ReadOverflow.
Proof.
  revert es. induction lines as [|raw lines IH]; intros es Hlen.
  - simpl. rewrite take_nil, decide_True by done.
    by rewrite app_nil_r, take_ge.
  - rewrite read_loop_cons, omap_entries_cons.
    destruct (is_comment_or_empty (chomp (cstr raw))) eqn:Hskip.
    { rewrite line_entry_comment by done. by apply IH. }
    destruct (Nat.leb_spec COMMIT_SLOTS (length es)) as [Hfull|Hroom].
    { replace (COMMIT_SLOTS - length es)%nat with 0%nat by lia.
      rewrite take_0, decide_True by done.
      rewrite take_app_le by lia. by rewrite take_ge by lia. }
    destruct (line_entry (cstr raw)) as [[filename h]|]; [|by apply IH].
    replace (COMMIT_SLOTS - length es)%nat
      with (S (COMMIT_SLOTS - length (es ++ [(filename, h)])))
      by (rewrite length_app; simpl; lia).
    rewrite firstn_cons.
    destruct (Nat.leb_spec MAX_FILENAME (length filename)) as [Hlong|Hshort].
    + rewrite decide_False; [done|]. intros [Hhead _]%Forall_cons. simpl in Hhead. lia.
    + rewrite IH by (rewrite length_app; simpl; lia).
      rewrite <- (assoc_L (++)). apply decide_ext.
      rewrite Forall_cons. simpl. tauto.
Qed.

Lemma read_staged_files_total s :
  is_Some (files s !! STAGING_FILE) →
  read_staged_files s
  = if decide (Forall (λ e, (length e.1 < MAX_FILENAME)%nat)
                 (take COMMIT_SLOTS (staged_entries s)))
    then ReadOk (take COMMIT_SLOTS (staged_entries s))
    else ReadOverflow.
Proof.
  intros [data Hdata]. unfold read_staged_files, staged_entries, fopen_r.
  rewrite Hdata. rewrite read_loop_total by (simpl; lia). done.
Qed.

(** X5. [read_staged_files] in full: it fails when the staging
    file is missing; otherwise it reads the first [COMMIT_SLOTS] entries
    of the staging file, and its behaviour is undefined exactly when one
    of these has a name of [MAX_FILENAME] bytes or more, which [strcpy]
    stores past its slot. *)
Theorem read_staged_files_result s :
  read_staged_files s
  = match files s !! STAGING_FILE with
    | None => ReadError
    | Some _ =>
        if decide (Forall (λ e, (length e.1 < MAX_FILENAME)%nat)
                     (take COMMIT_SLOTS (staged_entries s)))
        then ReadOk (take COMMIT_SLOTS (staged_entries s))
        else ReadOverflow
    end.
Proof.
  destruct (files s !! STAGING_FILE) as [data|] eqn:Hdata.
  - apply read_staged_files_total. by eexists.
  - unfold read_staged_files, fopen_r. by rewrite Hdata.
Qed.

Lemma count_loop_entries count lines :
  0 ≤ count →
  count + Z.of_nat (length lines) < 2 ^ 31 →
  count_loop count lines
  = count + Z.of_nat (length (filter (λ line, is_comment_or_empty line = false)
                                     (chomp ∘ cstr <$> lines))).
Proof.
  revert count. induction lines as [|raw lines IH]; intros count Hc Hmax.
  - simpl. lia.
  - cbn [length] in Hmax. cbn [count_loop fmap list_fmap].
    destruct (is_comment_or_empty (chomp (cstr raw))) eqn:E.
    + rewrite filter_cons_False by (unfold compose; congruence). apply IH; lia.
    + rewrite filter_cons_True by done. rewrite to_int_small by lia.
      rewrite IH by lia. cbn [length]. lia.
Qed.

Lemma entries_among_entry_lines lines :
  (length (omap (line_entry ∘ cstr) lines)
   ≤ length (filter (λ line, is_comment_or_empty line = false)
                    (chomp ∘ cstr <$> lines)))%nat.
Proof.
  induction lines as [|raw lines IH]; [done|].
  rewrite omap_entries_cons. cbn [fmap list_fmap].
  destruct (is_comment_or_empty (chomp (cstr raw))) eqn:E.
  - rewrite line_entry_comment by done.
    by rewrite filter_cons_False by (unfold compose; congruence).
  - rewrite filter_cons_True by done.
    destruct (line_entry (cstr raw)); simpl; lia.
Qed.

Lemma count_staged_files_lines s data :
  files s !! STAGING_FILE = Some data →
  Z.of_nat (length data) < 2 ^ 31 →
  count_staged_files s = Z.of_nat (length (entry_lines s)).
Proof.
  intros Hdata Hlen. unfold count_staged_files, entry_lines, fopen_r.
  rewrite Hdata. rewrite count_loop_entries; [lia|lia|].
  pose proof (fgets_from_length MAX_LINE (MAX_LINE - 1) data).
  unfold fgets_all. lia.
Qed.

Lemma count_staged_files_file s :
  count_staged_files s ≠ 0 → is_Some (files s !! STAGING_FILE).
Proof.
  unfold count_staged_files, fopen_r. destruct (files s !! STAGING_FILE); [by eexists|done].
Qed.

Lemma count_staged_files_entries s data :
  files s !! STAGING_FILE = Some data →
  Z.of_nat (length data) < 2 ^ 31 →
  staged_entries s ≠ [] → count_staged_files s ≠ 0.
Proof.
  intros Hdata Hlen Hentries. rewrite (count_staged_files_lines s data) by done.
  assert (length (staged_entries s) ≤ length (entry_lines s))%nat as Hle.
  { unfold staged_entries, entry_lines, fopen_r. rewrite Hdata.
    apply entries_among_entry_lines. }
  destruct (staged_entries s); [done|]. simpl in Hle. lia.
Qed.

(** X6. On a staging file of less than 2^31 bytes,
    [count_staged_files] returns the number of lines that are neither
    empty nor comments.  That number bounds the number of entries
    [read_staged_files] can read, and need not be equal to it: a line
    without a fingerprint is counted and is not read. *)
Theorem count_staged_files_entry_lines s data :
  files s !! STAGING_FILE = Some data →
  Z.of_nat (length data) < 2 ^ 31 →
  count_staged_files s = Z.of_nat (length (entry_lines s))
  ∧ (length (staged_entries s) ≤ length (entry_lines s))%nat.
Proof.
  intros Hdata Hlen. split; [by apply (count_staged_files_lines s data)|].
  unfold staged_entries, entry_lines, fopen_r. rewrite Hdata.
  apply entries_among_entry_lines.
Qed.

Lemma count_staged_files_entry_lines_witness :
  count_staged_files (staged_repo [header_line; B "a.txt|1"; B "junk"; B "b.txt|2"]) = 3
  ∧ staged_entries (staged_repo [header_line; B "a.txt|1"; B "junk"; B "b.txt|2"])
    = [(B "a.txt", 1); (B "b.txt", 2)].
Proof.
  set (s := staged_repo [header_line; B "a.txt|1"; B "junk"; B "b.txt|2"]).
  destruct (count_staged_files_entry_lines s
              (unlines [header_line; B "a.txt|1"; B "junk"; B "b.txt|2"]))
    as [Hcount _]; [by_computation|by_computation|].
  split; [|by_computation]. rewrite Hcount. by_computation.
Defined.

Lemma line_entry_shape l f h :
  line_entry l = Some (f, h) →
  f ≠ [] ∧ (PIPE ∉ f) ∧ (LF ∉ f) ∧ (CR ∉ f) ∧ (∀ c, c ∈ f → c ∈ l)
  ∧ 0 ≤ h ≤ ULONG_MAX.
Proof.
  unfold line_entry. destruct (is_comment_or_empty (chomp l)); [done|].
  destruct (strtok PIPE (chomp l)) as [[filename after]|] eqn:Hname; [|done].
  destruct (strtok PIPE after) as [[hash_str ?]|]; [|done].
  intros [= <- <-]. destruct (strtok_shape _ _ _ _ Hname) as [Hne Hpipe].
  assert (∀ c, c ∈ filename → c ∈ chomp l) as Hsub
    by (intros c; by apply (strtok_sub PIPE _ _ after)).
  repeat split; [done|done| | | |apply strtoul_range|apply strtoul_range].
  - intros H%Hsub. by apply chomp_no_lf in H.
  - intros H%Hsub. by apply chomp_no_cr in H.
  - intros c H%Hsub. by apply chomp_sub.
Qed.

Lemma staged_entries_shape s : Forall entry_well_formed (staged_entries s).
Proof.
  unfold staged_entries. destruct (fopen_r s STAGING_FILE) as [data|]; [|done].
  apply Forall_forall. intros [f h] (raw & _ & He)%list_elem_of_omap.
  unfold compose in He. apply line_entry_shape in He as (? & ? & ? & ? & Hsub & ?).
  unfold entry_well_formed. simpl. split_and!; try done; try lia.
  intros Hnul%Hsub. by apply cstr_no_nul in Hnul.
Qed.

Lemma count_staged_files_same s t :
  files t !! STAGING_FILE = files s !! STAGING_FILE →
  count_staged_files t = count_staged_files s.
Proof. intros E. unfold count_staged_files, fopen_r. by rewrite E. Qed.

Lemma staged_entries_same s t :
  files t !! STAGING_FILE = files s !! STAGING_FILE →
  staged_entries t = staged_entries s.
Proof. intros E. unfold staged_entries, fopen_r. by rewrite E. Qed.

Lemma staging_is_same s t ls :
  files t !! STAGING_FILE = files s !! STAGING_FILE →
  staging_is s ls → staging_is t ls.
Proof. intros E [Hdata Hls]. split; [by rewrite E|done]. Qed.

(** ** Staging and unstaging a file *)

Lemma staged_loop_other f l rest :
  line_ok l → line_name l ≠ Some f →
  staged_loop f ((l ++ [LF]) :: rest) = staged_loop f rest.
Proof.
  intros Hl Hn. cbn [staged_loop]. rewrite line_ok_cstr by done.
  destruct Hl as (_ & Hlf & _). destruct l as [|c l]; [done|].
  cbn [app]. destruct (Ascii.eqb c "#"%char); [done|].
  change (c :: l ++ [LF]) with ((c :: l) ++ [LF]). rewrite chomp_app_lf by done.
  unfold line_name in Hn. destruct (chomp (c :: l)) as [|x line']; [done|].
  destruct (strtok PIPE (x :: line')) as [[stored after]|]; [|done].
  rewrite decide_False; [done|]. intros ->. by apply Hn.
Qed.

Lemma staged_loop_none f ls :
  Forall line_ok ls → Forall (λ l, line_name l ≠ Some f) ls →
  staged_loop f ((λ l, l ++ [LF]) <$> ls) = false.
Proof.
  induction 1 as [|l ls Hl _ IH]; [done|]. intros [Hn Hrest]%Forall_cons.
  rewrite fmap_cons, staged_loop_other by done. auto.
Qed.

(** X7. [remove_from_staging] within the capacity of its
    array of lines: on a writable staging file made of whole lines, of
    which at most [LINES_CAPACITY] do not name the file, it rewrites the
    staging file as these lines in their order.  The staged entries are
    the former ones without those of the file, [is_already_staged] then
    answers no, no other file changes, and removing the file once more
    leaves every file as it is. *)
Theorem remove_from_staging_within_capacity s f ls :
  staging_is s ls →
  (length (filter (λ l, line_name l ≠ Some f) ls) ≤ LINES_CAPACITY)%nat →
  STAGING_FILE ∉ readonly s →
  ∃ s', remove_from_staging s f = Some s'
    ∧ staging_is s' (filter (λ l, line_name l ≠ Some f) ls)
    ∧ staged_entries s' = filter (λ e, e.1 ≠ f) (staged_entries s)
    ∧ is_already_staged s' f = false
    ∧ (∀ p, p ≠ STAGING_FILE → files s' !! p = files s !! p)
    ∧ ∃ s'', remove_from_staging s' f = Some s'' ∧ files s'' = files s'.
Proof.
  intros Hs Hfit Hrw.
  set (ls' := filter (λ l, line_name l ≠ Some f) ls) in *.
  assert (Forall line_ok ls') as Hls' by (apply Forall_filter_keeps, Hs).
  assert (filter (λ l, line_name l ≠ Some f) ls' = ls') as Hidem by apply filter_idemp.
  assert (∃ s', remove_from_staging s f = Some s' ∧ staging_is s' ls'
            ∧ ∀ p, p ≠ STAGING_FILE → files s' !! p = files s !! p)
    as (s' & Hrem & Hs' & Hframe).
  { destruct (files s !! STAGING_FILE) as [data|] eqn:E.
    - rewrite (remove_from_staging_lines s f ls) by (done || by eexists).
      eexists. split; [done|]. split.
      + split; [by rewrite store_lookup|done].
      + intros p Hp. by rewrite store_lookup_ne.
    - exists s. unfold remove_from_staging, fopen_r. rewrite E.
      split; [done|]. split; [|done].
      unfold ls'. rewrite (staging_is_absent s ls) by done.
      by rewrite (staging_is_absent s ls) in Hs by done. }
  exists s'. split; [done|]. split; [done|]. split; [|split; [|split; [done|]]].
  - rewrite (staged_entries_lines s' ls' Hs'), (staged_entries_lines s ls Hs).
    apply omap_entries_filter.
  - unfold is_already_staged, fopen_r.
    destruct (files s' !! STAGING_FILE) as [data|] eqn:E; [|done].
    destruct Hs' as [Hdata _]. rewrite E in Hdata. simpl in Hdata. subst data.
    rewrite fgets_all_unlines by done. apply staged_loop_none; [done|].
    apply Forall_forall. by intros l [Hn _]%list_elem_of_filter.
  - assert (readonly s' = readonly s) as Hro
      by (by apply remove_from_staging_frame in Hrem as [? _]).
    destruct (files s' !! STAGING_FILE) as [data|] eqn:E.
    + rewrite (remove_from_staging_lines s' f ls');
        [|done|by rewrite Hro|by rewrite Hidem; fold ls'|by eexists].
      eexists. split; [done|]. rewrite Hidem. cbn [store files].
      apply insert_id. destruct Hs' as [Hdata _]. rewrite E in Hdata.
      simpl in Hdata. by rewrite E, Hdata.
    + exists s'. unfold remove_from_staging, fopen_r. by rewrite E.
Qed.

Lemma remove_from_staging_within_capacity_witness :
  ∃ s', remove_from_staging
          (staged_repo [header_line; B "a.txt|1"; B "b.txt|2"]) (B "a.txt") = Some s'
    ∧ staged_entries s' = [(B "b.txt", 2)]
    ∧ is_already_staged s' (B "a.txt") = false.
Proof.
  destruct (remove_from_staging_within_capacity
              (staged_repo [header_line; B "a.txt|1"; B "b.txt|2"]) (B "a.txt")
              [header_line; B "a.txt|1"; B "b.txt|2"])
    as (s' & Hrem & _ & Hentries & Hstaged & _).
  - split; [by_computation|compute_done].
  - compute_done.
  - compute_done.
  - exists s'. split; [exact Hrem|]. split; [exact Hentries|exact Hstaged].
Defined.

(** [mygit_add] of a file that is there, when the blob can be written:
    the blob is stored, then the entry is staged. *)
Lemma mygit_add_steps s f data :
  files s !! f = Some data →
  blob_path (hash_content (staged_content data)) ∉ readonly s →
  ∃ s1, mygit_add s f = stage s1 f (hash_content (staged_content data))
    ∧ files s1 !! STAGING_FILE = files s !! STAGING_FILE
    ∧ readonly s1 = readonly s
    ∧ is_Some (files s1 !! blob_path (hash_content (staged_content data)))
    ∧ (∀ k x, files s !! blob_path k = Some x → files s1 !! blob_path k = Some x)
    ∧ ∀ p, p ≠ blob_path (hash_content (staged_content data)) →
        files s1 !! p = files s !! p.
Proof.
  intros Hf Hblob. unfold staged_content in *. rewrite hash_content_cstr in *.
  set (content := take (MAX_CONTENT - 1) data) in *.
  destruct (save_blob_writable s content (hash_content content) Hblob) as [s1 Hsave].
  exists s1. split; [|split; [|split; [|split; [|split]]]].
  - unfold mygit_add, file_exists, read_file, fopen_r. rewrite Hf. cbn [negb].
    fold content. by rewrite Hsave.
  - apply (save_blob_frame _ _ _ _ _ Hsave), not_eq_sym, blob_path_not_staging.
  - by apply save_blob_readonly in Hsave.
  - apply save_blob_cases in Hsave as [[Hsome ->]|(_ & _ & ->)]; [done|].
    rewrite store_lookup. by eexists.
  - intros k x Hk.
    apply save_blob_cases in Hsave as [[_ ->]|(Hnone & _ & ->)]; [done|].
    rewrite store_lookup_ne; [done|]. intros E. rewrite E in Hnone. congruence.
  - intros p Hp. by apply (save_blob_frame _ _ _ _ _ Hsave).
Qed.

(** X8. [mygit_add] of an existing file with a well-formed name,
    on a staging file made of whole lines, when the staging file and the
    blob can be written: it returns 0 with the fingerprint of the staged
    content of the file; the staged entries are the former ones without
    those of the file, followed by the new entry; [is_already_staged]
    then answers yes; and the blob of the fingerprint is in the object
    store. *)
Theorem mygit_add_stages_entry s f data ls :
  files s !! f = Some data →
  staging_is s ls → name_ok f → restage_fits f ls →
  STAGING_FILE ∉ readonly s →
  blob_path (hash_content (staged_content data)) ∉ readonly s →
  ∃ s', mygit_add s f = Staged (hash_content (staged_content data)) s'
    ∧ staged_entries s'
      = filter (λ e, e.1 ≠ f) (staged_entries s)
        ++ [(f, hash_content (staged_content data))]
    ∧ is_already_staged s' f = true
    ∧ is_Some (files s' !! blob_path (hash_content (staged_content data))).
Proof.
  intros Hf Hs Hname Hfit Hrw Hblob.
  destruct (mygit_add_steps s f data Hf Hblob)
    as (s1 & -> & Hstaging & Hro & Hnew & _).
  set (h := hash_content (staged_content data)) in *.
  destruct (stage_entries s1 f h ls) as (s' & Hstage & Hentries & Hs' & _);
    [by apply (staging_is_same s)|done|apply hash_content_range
    |by rewrite Hro|done|].
  exists s'. split; [done|]. split; [|split].
  - by rewrite Hentries, (staged_entries_same s s1).
  - rewrite (is_already_staged_lines s' f _ Hs' Hname).
    apply bool_decide_eq_true_2, Exists_app. right. apply Exists_cons. left.
    by apply line_name_entry_text.
  - apply stage_appends in Hstage as (_ & _ & Hframe & _).
    by rewrite Hframe by apply blob_path_not_staging.
Qed.

Lemma mygit_add_stages_entry_witness :
  ∃ s', mygit_add work_repo (B "a.txt") = Staged 210714636441 s'
    ∧ staged_entries s' = [(B "a.txt", 210714636441)]
    ∧ is_already_staged s' (B "a.txt") = true.
Proof.
  destruct (mygit_add_stages_entry work_repo (B "a.txt") (B "hello") [header_line])
    as (s' & Hadd & Hentries & Hstaged & _).
  - by_computation.
  - split; [by_computation|compute_done].
  - compute_done.
  - intros _. compute_done.
  - compute_done.
  - compute_done.
  - exists s'. split; [exact Hadd|]. split; [exact Hentries|exact Hstaged].
Defined.

Lemma filter_restaged f h (ls : list bytes) :
  name_ok f →
  filter (λ l, line_name l ≠ Some f)
    (filter (λ l, line_name l ≠ Some f) ls ++ [entry_text f h])
  = filter (λ l, line_name l ≠ Some f) ls.
Proof.
  intros Hname. rewrite filter_app, filter_idemp.
  rewrite filter_cons_False; [by rewrite app_nil_r|].
  intros Hne. by apply Hne, line_name_entry_text.
Qed.

(** X9. Adding a file again.  On a staging file made of whole
    lines, after [mygit_add] of a file with a well-formed name, given by a
    path in normal form that does not lead into [.mygit], when the staging
    lines of the other files fit the [LINES_CAPACITY] rows through which a
    second add rewrites the staging file, [mygit_add] of the same,
    unchanged file returns the same fingerprint and leaves every file, the
    staging file included, and so the staged entries, as the first add
    left them. *)
Theorem mygit_add_again s f data ls :
  files s !! f = Some data → work_path f →
  staging_is s ls → name_ok f →
  (length (filter (λ l, line_name l ≠ Some f) ls) ≤ LINES_CAPACITY)%nat →
  STAGING_FILE ∉ readonly s →
  blob_path (hash_content (staged_content data)) ∉ readonly s →
  ∃ h s1 s2,
    mygit_add s f = Staged h s1
    ∧ mygit_add s1 f = Staged h s2
    ∧ files s2 = files s1
    ∧ staged_entries s2 = staged_entries s1.
Proof.
  intros Hf Hout%work_path_outside Hs Hname Hfit Hrw Hblob.
  set (h := hash_content (staged_content data)) in *.
  destruct (mygit_add_steps s f data Hf Hblob)
    as (s0 & Hadd & Hstaging0 & Hro0 & Hnew0 & _ & Hframe0).
  fold h in Hadd, Hnew0, Hframe0.
  destruct (stage_lines s0 f h ls) as (s1 & Hstage1 & Hfiles1 & Hro1);
    [by apply (staging_is_same s)|done|by rewrite Hro0|by intros _|].
  pose proof Hs as [_ Hls].
  pose proof (stage_staging_is s0 f h ls s1 Hls Hname Hfiles1) as Hs1.
  set (ls1 := filter (λ l, line_name l ≠ Some f) ls ++ [entry_text f h]) in *.
  assert (f ≠ STAGING_FILE) as Hf1 by (intros ->; apply Hout, in_repository_staging).
  assert (f ≠ blob_path h) as Hf2 by (intros ->; apply Hout, in_repository_blob).
  assert (files s1 !! f = Some data) as Hf'.
  { rewrite Hfiles1, lookup_insert_ne by done. by rewrite Hframe0. }
  assert (is_Some (files s1 !! blob_path h)) as Hnew1.
  { rewrite Hfiles1, lookup_insert_ne by apply not_eq_sym, blob_path_not_staging.
    done. }
  assert (filter (λ l, line_name l ≠ Some f) ls1
          = filter (λ l, line_name l ≠ Some f) ls) as Hkeep
    by by apply filter_restaged.
  destruct (stage_lines s1 f h ls1) as (s2 & Hstage2 & Hfiles2 & Hro2);
    [done|done|by rewrite Hro1, Hro0|intros _; by rewrite Hkeep|].
  rewrite Hkeep in Hfiles2. fold ls1 in Hfiles2.
  assert (files s2 = files s1) as Hsame.
  { rewrite Hfiles2. apply insert_id. by rewrite Hfiles1, lookup_insert_eq. }
  exists h, s1, s2. split; [by rewrite Hadd|]. split; [|split; [done|]].
  - by rewrite (mygit_add_blob_present s1 f data).
  - unfold staged_entries, fopen_r. by rewrite Hsame.
Qed.

Lemma mygit_add_again_witness :
  ∃ h s1 s2, mygit_add work_repo (B "a.txt") = Staged h s1
    ∧ mygit_add s1 (B "a.txt") = Staged h s2
    ∧ files s2 = files s1.
Proof.
  destruct (mygit_add_again work_repo (B "a.txt") (B "hello") [header_line])
    as (h & s1 & s2 & Hadd1 & Hadd2 & Hsame & _).
  - by_computation.
  - compute_done.
  - split; [by_computation|compute_done].
  - compute_done.
  - compute_done.
  - compute_done.
  - compute_done.
  - exists h, s1, s2. split; [exact Hadd1|]. split; [exact Hadd2|exact Hsame].
Defined.

Lemma remove_from_staging_locked s f s' :
  remove_from_staging s f = Some s' → STAGING_FILE ∈ readonly s → s' = s.
Proof.
  unfold remove_from_staging, fopen_w.
  destruct (fopen_r s STAGING_FILE) as [data|]; [|by intros [= <-]].
  destruct (keep_loop f [] _) as [kept|]; [|done].
  intros Hrem Hro. rewrite decide_True in Hrem by done. by injection Hrem as <-.
Qed.

(** The state in which [stage] fails is the one it was given. *)
Lemma stage_failed s f h e s' :
  stage s f h = AddFailed e s' →
  e = StagingNotOpened ∧ STAGING_FILE ∈ readonly s ∧ s' = s.
Proof.
  unfold stage.
  destruct (if is_already_staged s f then remove_from_staging s f else Some s)
    as [s1|] eqn:Hrem; [|done].
  unfold fopen_a. destruct (decide (STAGING_FILE ∈ readonly s1)) as [Hro|]; [|done].
  intros [= <- <-]. destruct (is_already_staged s f).
  - pose proof (remove_from_staging_frame _ _ _ Hrem) as [Hro1 _].
    rewrite Hro1 in Hro. by rewrite (remove_from_staging_locked _ _ _ Hrem Hro).
  - by injection Hrem as <-.
Qed.

(** X10. The ways [mygit_add] returns -1.  The file is missing, and
    nothing changes; or the blob is not in the store and cannot be
    written, and nothing changes; or the staging file cannot be written,
    and then the blob of the content has been stored all the same, every
    other file being as before.  The error of an unreadable file never
    occurs: a file that exists is read. *)
Theorem mygit_add_failure s f e s' :
  mygit_add s f = AddFailed e s' →
  (e = FileNotFound ∧ files s !! f = None ∧ s' = s)
  ∨ (∃ data, files s !! f = Some data
       ∧ let blob := blob_path (hash_content (staged_content data)) in
         (e = ObjectNotSaved ∧ files s !! blob = None ∧ blob ∈ readonly s ∧ s' = s)
         ∨ (e = StagingNotOpened ∧ STAGING_FILE ∈ readonly s
            ∧ readonly s' = readonly s
            ∧ files s' !! blob
              = Some (default (staged_content data) (files s !! blob))
            ∧ ∀ p, p ≠ blob → files s' !! p = files s !! p)).
Proof.
  unfold mygit_add, file_exists, read_file, fopen_r.
  destruct (files s !! f) as [data|] eqn:Hf; cbn [negb].
  2:{ intros [= <- <-]. by left. }
  intros Hadd. right. exists data. split; [done|]. cbn zeta. unfold staged_content.
  rewrite hash_content_cstr. revert Hadd.
  set (content := take (MAX_CONTENT - 1) data) in *.
  set (h := hash_content content) in *.
  destruct (save_blob s content h) as [s1|] eqn:Hsave.
  - intros (-> & Hro & ->)%stage_failed. right.
    pose proof (save_blob_readonly _ _ _ _ Hsave) as Hro1.
    split; [done|]. split; [by rewrite <- Hro1|]. split; [done|]. split.
    + apply save_blob_cases in Hsave as [[[old Hold] ->]|(Hnone & _ & ->)].
      * by rewrite Hold.
      * by rewrite store_lookup, Hnone.
    + intros p Hp. by apply (save_blob_frame _ _ _ _ _ Hsave).
  - intros [= <- <-]. left. revert Hsave.
    unfold save_blob, file_exists, write_file, fopen_w, fopen_r.
    destruct (files s !! blob_path h); [done|].
    by destruct (decide (blob_path h ∈ readonly s)).
Qed.

Lemma mygit_add_failure_witness :
  mygit_add fresh_repo (B "a.txt") = AddFailed FileNotFound fresh_repo.
Proof.
  set (r := mygit_add fresh_repo (B "a.txt")).
  assert (∃ e s', r = AddFailed e s') as (e & s' & Hr).
  { eexists _, _. by_computation. }
  destruct (mygit_add_failure _ _ e s' Hr) as [(-> & _ & ->)|(data & Hdata & _)].
  - exact Hr.
  - exfalso. revert Hdata. vm_compute. discriminate.
Defined.

(** ** The outcome of a commit *)

Lemma mygit_commit_fields s msg now c s' :
  mygit_commit s msg now = Committed c s' →
  id c = get_next_commit_id s
  ∧ message c = take (MAX_MESSAGE - 1) (cstr msg)
  ∧ timestamp c = cstr now
  ∧ branch c = current_branch s
  ∧ parent_id c
    = (if get_last_commit_id_on_branch s (current_branch s) =? 0 then -1
       else get_last_commit_id_on_branch s (current_branch s))
  ∧ entries c = take COMMIT_SLOTS (staged_entries s)
  ∧ Forall (λ e, (length e.1 < MAX_FILENAME)%nat) (entries c)
  ∧ count_staged_files s ≠ 0
  ∧ COMMITS_FILE ∉ readonly s.
Proof.
  unfold mygit_commit.
  destruct (Z.eqb_spec (count_staged_files s) 0) as [Hzero|Hcount]; [done|].
  rewrite read_staged_files_total by by apply count_staged_files_file.
  destruct (decide _) as [Hshort|Hlong]; [|done].
  unfold save_commit, fopen_a.
  destruct (decide (COMMITS_FILE ∈ readonly s)); [done|].
  by intros [= <- <-].
Qed.

Lemma mygit_commit_succeeds s msg now :
  count_staged_files s ≠ 0 →
  Forall (λ e, (length e.1 < MAX_FILENAME)%nat) (take COMMIT_SLOTS (staged_entries s)) →
  COMMITS_FILE ∉ readonly s →
  ∃ s', mygit_commit s msg now
        = Committed
            {| id := get_next_commit_id s;
               message := take (MAX_MESSAGE - 1) (cstr msg);
               timestamp := cstr now;
               branch := current_branch s;
               parent_id :=
                 (if get_last_commit_id_on_branch s (current_branch s) =? 0 then -1
                  else get_last_commit_id_on_branch s (current_branch s));
               entries := take COMMIT_SLOTS (staged_entries s) |} s'.
Proof.
  intros Hcount Hshort Hrw. unfold mygit_commit.
  destruct (Z.eqb_spec (count_staged_files s) 0) as [Hzero|_]; [done|].
  rewrite read_staged_files_total by by apply count_staged_files_file.
  rewrite decide_True by done.
  unfold save_commit, fopen_a. rewrite decide_False by done. by eexists.
Qed.

Lemma mygit_commit_failed s msg now e s' :
  mygit_commit s msg now = CommitFailed e s' → s' = s.
Proof.
  unfold mygit_commit.
  destruct (count_staged_files s =? 0); [by intros [= _ <-]|].
  destruct (read_staged_files s) as [es| |]; [|by intros [= _ <-]|done].
  destruct (save_commit s _); [done|by intros [= _ <-]].
Qed.

Lemma mygit_commit_log s msg now c s' :
  mygit_commit s msg now = Committed c s' →
  files s' !! COMMITS_FILE
  = Some (default [] (files s !! COMMITS_FILE) ++ commit_record c).
Proof.
  unfold mygit_commit.
  destruct (count_staged_files s =? 0); [done|].
  destruct (read_staged_files s) as [es| |]; [|done|done].
  destruct (save_commit s _) as [s1|] eqn:Hsave; [|done]. intros [= <- <-].
  apply save_commit_frame in Hsave as (_ & Hlog1 & _).
  match goal with |- context [clear_staging_area ?t] => set (s2 := t) end.
  destruct (clear_staging_area_frame s2) as [_ Hframe3].
  rewrite Hframe3 by done. unfold s2.
  destruct (update_branch_ref_frame s1 (get_current_branch s MAX_BRANCH_NAME)
              (get_next_commit_id s)) as [_ Hframe2].
  rewrite Hframe2 by apply not_eq_sym, ref_path_not_commits. done.
Qed.

Lemma mygit_commit_staging s msg now c s' :
  mygit_commit s msg now = Committed c s' →
  files s' !! STAGING_FILE
  = if decide (STAGING_FILE ∈ readonly s)
    then files s !! STAGING_FILE else Some STAGING_HEADER.
Proof.
  unfold mygit_commit.
  destruct (count_staged_files s =? 0); [done|].
  destruct (read_staged_files s) as [es| |]; [|done|done].
  destruct (save_commit s _) as [s1|] eqn:Hsave; [|done]. intros [= _ <-].
  apply save_commit_frame in Hsave as (Hro1 & _ & Hframe1).
  match goal with |- context [clear_staging_area ?t] => set (s2 := t) end.
  destruct (update_branch_ref_frame s1 (get_current_branch s MAX_BRANCH_NAME)
              (get_next_commit_id s)) as [Hro2 Hframe2].
  unfold clear_staging_area, fopen_w. fold s2 in Hro2, Hframe2.
  rewrite Hro2, Hro1. destruct (decide (STAGING_FILE ∈ readonly s)).
  - rewrite Hframe2 by apply not_eq_sym, ref_path_not_staging. by apply Hframe1.
  - by rewrite store_lookup.
Qed.

Lemma mygit_commit_ref s msg now c s' :
  mygit_commit s msg now = Committed c s' →
  files s' !! ref_path (branch c)
  = if decide (ref_path (branch c) ∈ readonly s)
    then files s !! ref_path (branch c) else Some (fmt_d (id c)).
Proof.
  unfold mygit_commit.
  destruct (count_staged_files s =? 0); [done|].
  destruct (read_staged_files s) as [es| |]; [|done|done].
  destruct (save_commit s _) as [s1|] eqn:Hsave; [|done]. intros [= <- <-].
  cbn [branch id].
  apply save_commit_frame in Hsave as (Hro1 & _ & Hframe1).
  match goal with |- context [clear_staging_area ?t] => set (s2 := t) end.
  destruct (clear_staging_area_frame s2) as [_ Hframe3].
  rewrite Hframe3 by apply ref_path_not_staging.
  unfold s2, update_branch_ref, write_file, fopen_w. rewrite Hro1.
  destruct (decide (ref_path (get_current_branch s MAX_BRANCH_NAME) ∈ readonly s)).
  - apply Hframe1, ref_path_not_commits.
  - by rewrite store_lookup, ref_text.
Qed.

(** X11. What a successful [mygit_commit] writes on a branch whose
    name is one path component, so that its reference is a file of its
    own.  The record of the commit is appended to the log.  The reference
    of the branch holds the id in decimal, and reads back as the id, when
    the reference file can be written; when it cannot, the reference stays
    as it was and the commit succeeds all the same.  The staging file is
    reset to its header when it can be written and stays as it was when it
    cannot.  No other file, by its path in normal form, and no permission
    changes. *)
Theorem mygit_commit_effects s msg now c s' :
  mygit_commit s msg now = Committed c s' →
  plain_name (branch c) →
  files s' !! COMMITS_FILE
  = Some (default [] (files s !! COMMITS_FILE) ++ commit_record c)
  ∧ files s' !! ref_path (branch c)
    = (if decide (ref_path (branch c) ∈ readonly s)
       then files s !! ref_path (branch c) else Some (fmt_d (id c)))
  ∧ (ref_path (branch c) ∉ readonly s →
       get_last_commit_id_on_branch s' (branch c) = id c)
  ∧ files s' !! STAGING_FILE
    = (if decide (STAGING_FILE ∈ readonly s)
       then files s !! STAGING_FILE else Some STAGING_HEADER)
  ∧ (∀ p, normal_path p →
       p ≠ COMMITS_FILE → p ≠ STAGING_FILE → p ≠ ref_path (branch c) →
       files s' !! p = files s !! p)
  ∧ readonly s' = readonly s.
Proof.
  intros Hcommit _.
  pose proof (mygit_commit_frame _ _ _ _ _ Hcommit) as [Hro Hframe].
  pose proof (mygit_commit_fields _ _ _ _ _ Hcommit) as (Hid & _).
  pose proof (mygit_commit_ref _ _ _ _ _ Hcommit) as Href.
  split; [by apply (mygit_commit_log s msg now)|]. split; [done|]. split.
  - intros Hrw. unfold get_last_commit_id_on_branch, read_file, fopen_r.
    rewrite Href, decide_False by done.
    pose proof (fmt_d_length (id c)) as Hlen.
    rewrite take_ge by (simpl; lia).
    rewrite cstr_id by (apply fmt_d_not_elem; [apply not_digit_NUL|done]).
    apply atoi_fmt_d_int. rewrite Hid. apply get_next_commit_id_range.
  - split; [apply (mygit_commit_staging _ _ _ _ _ Hcommit)|].
    split; [|done]. intros p _. apply Hframe.
Qed.

Lemma mygit_commit_effects_witness :
  ∃ c s', mygit_commit second_branch_repo (B "second") (B "2025-01-15 14:31:00")
          = Committed c s'
    ∧ get_last_commit_id_on_branch s' (B "dev") = 2
    ∧ files s' !! STAGING_FILE = Some STAGING_HEADER.
Proof.
  set (r := mygit_commit second_branch_repo (B "second") (B "2025-01-15 14:31:00")).
  assert (∃ c s', r = Committed c s' ∧ branch c = B "dev" ∧ id c = 2)
    as (c & s' & Hcommit & Hbranch & Hid).
  { eexists _, _. split; [by_computation|]. split; by_computation. }
  destruct (mygit_commit_effects _ _ _ c s' Hcommit) as (_ & _ & Hhead & Hstaging & _).
  { rewrite Hbranch. compute_done. }
  exists c, s'. split; [exact Hcommit|]. split.
  - rewrite <- Hbranch, <- Hid. apply Hhead. rewrite Hbranch. compute_done.
  - rewrite Hstaging. by_computation.
Defined.

(** X12. A [mygit_commit] that returns -1 leaves the file system
    as it was, and it does so for one of two reasons: nothing is counted
    as staged, or something is and the commit log cannot be opened for
    appending.  The error of an unreadable staging file never occurs: a
    staging file that was counted can be read. *)
Theorem mygit_commit_failure s msg now e s' :
  mygit_commit s msg now = CommitFailed e s' →
  s' = s
  ∧ ((e = NothingToCommit ∧ count_staged_files s = 0)
     ∨ (e = CommitNotSaved ∧ count_staged_files s ≠ 0 ∧ COMMITS_FILE ∈ readonly s)).
Proof.
  unfold mygit_commit.
  destruct (Z.eqb_spec (count_staged_files s) 0) as [Hzero|Hcount].
  { intros [= <- <-]. auto. }
  rewrite read_staged_files_total by by apply count_staged_files_file.
  destruct (decide _); [|done].
  unfold save_commit, fopen_a.
  destruct (decide (COMMITS_FILE ∈ readonly s)); [|done].
  intros [= <- <-]. auto.
Qed.

Lemma mygit_commit_failure_witness :
  unwrap_commit (mygit_commit locked_log_repo (B "second") (B "2025-01-15 14:31:00"))
    fresh_repo
  = locked_log_repo.
Proof.
  set (r := mygit_commit locked_log_repo (B "second") (B "2025-01-15 14:31:00")).
  assert (∃ e s', r = CommitFailed e s') as (e & s' & Hr).
  { eexists _, _. by_computation. }
  rewrite Hr. cbn [unwrap_commit].
  by destruct (mygit_commit_failure _ _ _ e s' Hr) as [-> _].
Defined.



(** X14. A commit that records no file.  When the staging file
    (of less than 2^31 bytes) holds lines that [count_staged_files]
    counts, but none that [read_staged_files] reads as an entry, and the
    log can be written, [mygit_commit] does not report NothingToCommit: it
    succeeds and, the name of the branch being one path component,
    appends to the log a record whose list of files is empty. *)
Theorem commit_without_entries s data msg now :
  files s !! STAGING_FILE = Some data →
  Z.of_nat (length data) < 2 ^ 31 →
  entry_lines s ≠ [] → staged_entries s = [] →
  COMMITS_FILE ∉ readonly s →
  plain_name (current_branch s) →
  ∃ c s', mygit_commit s msg now = Committed c s'
    ∧ entries c = []
    ∧ files s' !! COMMITS_FILE
      = Some (default [] (files s !! COMMITS_FILE) ++ commit_record c).
Proof.
  intros Hdata Hlen Hlines Hnone Hrw _.
  destruct (mygit_commit_succeeds s msg now) as [s' Hcommit]; [| |done|].
  - rewrite (count_staged_files_lines s data) by done.
    destruct (entry_lines s); [done|simpl; lia].
  - by rewrite Hnone.
  - eexists _, s'. split; [exact Hcommit|]. split.
    + cbn [entries]. by rewrite Hnone.
    + by apply (mygit_commit_log s msg now).
Qed.

Lemma commit_without_entries_witness :
  let s0 := disk_of (init_files ++ [(B "|", B "text")]) in
  ∃ h s c s', mygit_add s0 (B "|") = Staged h s
    ∧ mygit_commit s (B "bar") (B "2025-01-15 14:30:00") = Committed c s'
    ∧ entries c = [].
Proof.
  intros s0.
  set (s := unwrap_add (mygit_add s0 (B "|")) s0).
  assert (mygit_add s0 (B "|") = Staged (hash_content (B "text")) s) as Hadd
    by by_computation.
  destruct (commit_without_entries s
              (unlines [header_line; B "||" ++ fmt_lu (hash_content (B "text"))])
              (B "bar") (B "2025-01-15 14:30:00"))
    as (c & s' & Hcommit & Hentries & _).
  - by_computation.
  - by_computation.
  - vm_compute. discriminate.
  - by_computation.
  - compute_done.
  - compute_done.
  - exists (hash_content (B "text")), s, c, s'.
    split; [exact Hadd|]. split; [exact Hcommit|exact Hentries].
Defined.

(** X15. Every commit [mygit_commit] writes fits [struct Commit]:
    an id in the range of [int]; a message without NUL, shorter than
    [MAX_MESSAGE]; a branch name shorter than [MAX_BRANCH_NAME]; a parent
    that is never 0, -1 standing for none; at most [COMMIT_SLOTS] files,
    each with a name that is not empty, is shorter than [MAX_FILENAME] and
    holds no '|', line break or NUL, and with a fingerprint in the range
    of [unsigned long]. *)
Theorem commit_record_bounds s msg now c s' :
  mygit_commit s msg now = Committed c s' →
  - 2 ^ 31 ≤ id c < 2 ^ 31
  ∧ (length (message c) < MAX_MESSAGE)%nat ∧ (NUL ∉ message c)
  ∧ (length (branch c) < MAX_BRANCH_NAME)%nat
  ∧ parent_id c ≠ 0
  ∧ (file_count c ≤ COMMIT_SLOTS)%nat
  ∧ Forall (λ e, entry_well_formed e ∧ (length e.1 < MAX_FILENAME)%nat) (entries c).
Proof.
  intros (Hid & Hmsg & _ & Hbranch & Hparent & Hentries & Hshort & _)%mygit_commit_fields.
  rewrite Hid, Hmsg, Hbranch, Hparent. unfold file_count.
  split; [apply get_next_commit_id_range|].
  split; [rewrite length_take; unfold MAX_MESSAGE; lia|].
  split. { intros (i & Hi%list_elem_of_lookup_2 & _)%elem_of_take. by apply cstr_no_nul in Hi. }
  split; [apply current_branch_length|].
  split. { by destruct (Z.eqb_spec (get_last_commit_id_on_branch s (current_branch s)) 0). }
  split. { rewrite Hentries, length_take. lia. }
  apply Forall_and. split; [|done]. rewrite Hentries.
  apply Forall_take, staged_entries_shape.
Qed.

Lemma commit_record_bounds_witness :
  ∃ c s', mygit_commit second_branch_repo (B "second") (B "2025-01-15 14:31:00")
          = Committed c s'
    ∧ parent_id c ≠ 0 ∧ (file_count c ≤ COMMIT_SLOTS)%nat.
Proof.
  set (r := mygit_commit second_branch_repo (B "second") (B "2025-01-15 14:31:00")).
  assert (∃ c s', r = Committed c s') as (c & s' & Hcommit).
  { eexists _, _. by_computation. }
  destruct (commit_record_bounds _ _ _ c s' Hcommit) as (_ & _ & _ & _ & Hp & Hn & _).
  exists c, s'. split; [exact Hcommit|]. split; [exact Hp|exact Hn].
Defined.

(** X16. A commit right after a commit.  When the staging file
    can be written, a successful commit leaves nothing staged, and the
    next [mygit_commit] reports NothingToCommit and changes nothing.  When
    the staging file cannot be written, the commit succeeds all the same,
    the entries stay staged, and the next [mygit_commit] succeeds again
    with the same files. *)
Theorem commit_after_commit s msg now c s' msg' now' :
  mygit_commit s msg now = Committed c s' →
  (STAGING_FILE ∉ readonly s →
     staged_entries s' = []
     ∧ mygit_commit s' msg' now' = CommitFailed NothingToCommit s')
  ∧ (STAGING_FILE ∈ readonly s →
       ∃ c2 s2, mygit_commit s' msg' now' = Committed c2 s2
         ∧ entries c2 = entries c).
Proof.
  intros Hcommit.
  pose proof (mygit_commit_fields _ _ _ _ _ Hcommit)
    as (_ & _ & _ & _ & _ & Hentries & Hshort & Hcount & Hlog).
  pose proof (mygit_commit_frame _ _ _ _ _ Hcommit) as [Hro _].
  pose proof (mygit_commit_staging _ _ _ _ _ Hcommit) as Hstaging.
  split.
  - intros Hrw. rewrite decide_False in Hstaging by done.
    assert (count_staged_files s' = 0) as Hzero
      by (unfold count_staged_files, fopen_r; by rewrite Hstaging).
    split.
    + unfold staged_entries, fopen_r. by rewrite Hstaging.
    + unfold mygit_commit. by rewrite Hzero.
  - intros Hlocked. rewrite decide_True in Hstaging by done.
    pose proof (staged_entries_same s s' Hstaging) as Hsame.
    destruct (mygit_commit_succeeds s' msg' now') as [s2 Hagain].
    + by rewrite (count_staged_files_same s s').
    + by rewrite Hsame, <- Hentries.
    + by rewrite Hro.
    + eexists _, s2. split; [exact Hagain|]. cbn [entries]. by rewrite Hsame.
Qed.

Lemma commit_after_commit_witness :
  ∃ c s', mygit_commit second_branch_repo (B "second") (B "2025-01-15 14:31:00")
          = Committed c s'
    ∧ mygit_commit s' (B "third") (B "2025-01-15 14:32:00")
      = CommitFailed NothingToCommit s'.
Proof.
  set (r := mygit_commit second_branch_repo (B "second") (B "2025-01-15 14:31:00")).
  assert (∃ c s', r = Committed c s') as (c & s' & Hcommit).
  { eexists _, _. by_computation. }
  destruct (commit_after_commit _ _ _ c s' (B "third") (B "2025-01-15 14:32:00") Hcommit)
    as [Hclear _].
  exists c, s'. split; [exact Hcommit|]. apply Hclear. compute_done.
Defined.

(** ** Commit ids across the log *)

Lemma log_ids_bound M lines :
  Forall (λ n, n ≤ max_commit_id M lines) (omap (sscanf_lit_d COMMIT_TAG ∘ cstr) lines).
Proof.
  revert M. induction lines as [|line lines IH]; intros M; [done|].
  cbn [omap list_omap max_commit_id]. unfold compose at 1.
  destruct (sscanf_lit_d COMMIT_TAG (cstr line)) as [n|]; [|apply IH].
  apply Forall_cons. split; [|apply IH].
  etrans; [|apply max_commit_id_ge]. destruct (Z.ltb_spec M n); lia.
Qed.

Lemma log_ids_last s : Forall (λ n, n ≤ last_commit_id s) (log_ids s).
Proof.
  unfold log_ids, last_commit_id. destruct (fopen_r s COMMITS_FILE); [|done].
  apply log_ids_bound.
Qed.

Lemma log_ids_default s :
  log_ids s
  = omap (sscanf_lit_d COMMIT_TAG ∘ cstr)
      (fgets_all MAX_LINE (default [] (files s !! COMMITS_FILE))).
Proof. unfold log_ids, fopen_r. by destruct (files s !! COMMITS_FILE). Qed.

Lemma log_ids_record c :
  Forall single_line (record_lines c) → 0 ≤ id c < 2 ^ 31 →
  omap (sscanf_lit_d COMMIT_TAG ∘ cstr) (fgets_all MAX_LINE (commit_record c)) = [id c].
Proof.
  intros Hlines Hid. rewrite commit_record_lines, fgets_all_single_lines by done.
  unfold record_lines. cbn [fmap list_fmap omap list_omap]. unfold compose.
  rewrite (cstr_id ((B "COMMIT:" ++ fmt_d (id c)) ++ [LF])).
  2:{ rewrite !not_elem_of_app. repeat split; [compute_done| |compute_done].
      apply fmt_d_not_elem; [apply not_digit_NUL|done]. }
  rewrite <- (assoc_L (++)).
  change (B "COMMIT:") with COMMIT_TAG.
  rewrite (sscanf_commit_line (id c) []) by done.
  cbn [B String.list_ascii_of_string app].
  by rewrite !sscanf_other_tag by done.
Qed.

(** X17. Commit ids are fresh across the whole log, whatever the
    branch.  While the largest id of the log is below [INT_MAX], a
    successful commit gets that id plus one, which is positive and larger
    than every id of the log.  When moreover the log is empty or ends with
    a line feed, each field of the record fits one line and the name of
    the branch is one path component, the ids of the log become the former
    ones followed by the new id, they stay free of duplicates if they
    were, and the new id is the largest. *)
Theorem commit_id_fresh s msg now c s' :
  mygit_commit s msg now = Committed c s' →
  last_commit_id s < 2 ^ 31 - 1 →
  id c = last_commit_id s + 1
  ∧ 0 < id c
  ∧ Forall (λ n, n < id c) (log_ids s)
  ∧ (complete (default [] (files s !! COMMITS_FILE)) → plain_record c →
     plain_name (branch c) →
       log_ids s' = log_ids s ++ [id c]
       ∧ (NoDup (log_ids s) → NoDup (log_ids s'))
       ∧ last_commit_id s' = id c).
Proof.
  intros Hcommit Hmax.
  pose proof (last_commit_id_nonneg s) as Hnonneg.
  pose proof (mygit_commit_fields _ _ _ _ _ Hcommit)
    as (Hid & Hmsg & _ & Hbranch & _ & Hentries & _).
  pose proof (mygit_commit_log _ _ _ _ _ Hcommit) as Hlog'.
  rewrite get_next_commit_id_last, to_int_small in Hid by lia.
  assert (Forall (λ n, n < id c) (log_ids s)) as Hfresh.
  { eapply Forall_impl; [apply log_ids_last|]. simpl. intros n Hn. lia. }
  split; [done|]. split; [lia|]. split; [done|]. intros Hlog Hplain _.
  assert (Forall single_line (record_lines c)) as Hlines.
  { apply record_lines_single; [done| | |].
    - rewrite Hmsg, length_take. unfold MAX_MESSAGE. lia.
    - rewrite Hbranch. apply current_branch_length.
    - rewrite Hentries, length_take. lia. }
  assert (log_ids s' = log_ids s ++ [id c]) as Hids.
  { unfold log_ids at 1, fopen_r. rewrite Hlog'.
    rewrite fgets_all_app by done. rewrite omap_app, <- log_ids_default.
    by rewrite log_ids_record by (done || lia). }
  split; [done|]. split.
  - intros Hnodup. rewrite Hids. apply NoDup_app. split; [done|].
    split; [|apply NoDup_singleton].
    intros n Hn ->%list_elem_of_singleton.
    rewrite Forall_forall in Hfresh. specialize (Hfresh _ Hn). lia.
  - unfold last_commit_id at 1, fopen_r. rewrite Hlog'.
    rewrite fgets_all_app, max_commit_id_app by done.
    rewrite <- last_commit_id_default.
    rewrite max_commit_id_record by (done || lia). lia.
Qed.

Lemma commit_id_fresh_witness :
  ∃ c s', mygit_commit second_branch_repo (B "second") (B "2025-01-15 14:31:00")
          = Committed c s'
    ∧ id c = 2 ∧ log_ids s' = [1; 2].
Proof.
  set (r := mygit_commit second_branch_repo (B "second") (B "2025-01-15 14:31:00")).
  assert (∃ c s', r = Committed c s' ∧ plain_record c ∧ plain_name (branch c))
    as (c & s' & Hcommit & Hplain & Hname).
  { eexists _, _. split; [by_computation|]. split; compute_done. }
  destruct (commit_id_fresh _ _ _ c s' Hcommit) as (Hid & _ & _ & Hlog).
  { compute_done. }
  destruct Hlog as (Hids & _);
    [apply complete_last; by_computation|exact Hplain|exact Hname|].
  assert (last_commit_id second_branch_repo = 1) as Hlast by by_computation.
  assert (log_ids second_branch_repo = [1]) as Hold by by_computation.
  rewrite Hlast in Hid. rewrite Hold, Hid in Hids.
  exists c, s'. split; [exact Hcommit|]. split; [exact Hid|exact Hids].
Defined.

(** ** Sequences of commands *)

Lemma exec_add_frame s f s' :
  exec s (DoAdd f) = Some s' →
  readonly s' = readonly s
  ∧ (∀ p, p ≠ STAGING_FILE → (∀ k, p ≠ blob_path k) → files s' !! p = files s !! p)
  ∧ (∀ k x, files s !! blob_path k = Some x → files s' !! blob_path k = Some x).
Proof.
  unfold exec. destruct (mygit_add s f) as [h t|e t|] eqn:Hadd; [| |done].
  - intros [= ->].
    assert (is_Some (files s !! f)) as [data Hf].
    { unfold mygit_add, file_exists, fopen_r in Hadd.
      destruct (files s !! f); [by eexists|done]. }
    destruct (mygit_add_staged s f data h s' Hf Hadd) as (_ & Hro & Hframe & _).
    split; [done|]. split.
    + intros p Hp Hblob. by apply Hframe.
    + intros k x. by apply (mygit_add_blob_kept s f h).
  - intros [= ->]. revert Hadd. unfold mygit_add.
    destruct (file_exists s f); cbn [negb]; [|by intros [= _ <-]].
    destruct (read_file s f MAX_CONTENT) as [content|]; [|by intros [= _ <-]].
    destruct (save_blob s content (hash_content content)) as [s1|] eqn:Hsave;
      [|by intros [= _ <-]].
    intros (_ & _ & ->)%stage_failed.
    split; [by apply save_blob_readonly in Hsave|]. split.
    + intros p _ Hp. by apply (save_blob_frame _ _ _ _ _ Hsave).
    + intros k x Hk.
      apply save_blob_cases in Hsave as [[_ ->]|(Hnone & _ & ->)]; [done|].
      rewrite store_lookup_ne; [done|]. intros E. rewrite E in Hnone. congruence.
Qed.

Lemma exec_commit_frame s msg now s' :
  exec s (DoCommit msg now) = Some s' →
  readonly s' = readonly s
  ∧ (∀ p, p ≠ COMMITS_FILE → p ≠ STAGING_FILE → (∀ b, p ≠ ref_path b) →
       files s' !! p = files s !! p)
  ∧ ∃ more, default [] (files s' !! COMMITS_FILE)
            = default [] (files s !! COMMITS_FILE) ++ more.
Proof.
  unfold exec. destruct (mygit_commit s msg now) as [c t|e t|] eqn:Hcommit; [| |done].
  - intros [= ->].
    destruct (mygit_commit_frame _ _ _ _ _ Hcommit) as [Hro Hframe].
    split; [done|]. split; [by auto|].
    exists (commit_record c). by rewrite (mygit_commit_log _ _ _ _ _ Hcommit).
  - intros [= ->]. apply mygit_commit_failed in Hcommit as ->.
    split; [done|]. split; [done|]. exists []. by rewrite app_nil_r.
Qed.

(** What one command leaves as it was. *)
Lemma exec_preserves s c s' :
  exec s c = Some s' →
  readonly s' = readonly s
  ∧ files s' !! HEAD_FILE = files s !! HEAD_FILE
  ∧ (∀ k x, files s !! blob_path k = Some x → files s' !! blob_path k = Some x)
  ∧ (∃ more, default [] (files s' !! COMMITS_FILE)
             = default [] (files s !! COMMITS_FILE) ++ more)
  ∧ (∀ p, ¬ in_repository p → files s' !! p = files s !! p).
Proof.
  destruct c as [f|msg now].
  - intros (Hro & Hframe & Hblob)%exec_add_frame.
    split; [done|]. split; [|split; [done|split]].
    + apply Hframe; auto with paths.
    + exists []. rewrite app_nil_r, Hframe; auto with paths.
    + intros p Hp. apply Hframe.
      * intros ->. apply Hp, in_repository_staging.
      * intros k ->. apply Hp, in_repository_blob.
  - intros (Hro & Hframe & Hlog)%exec_commit_frame.
    split; [done|]. split; [|split; [|split; [done|]]].
    + apply Hframe; auto with paths.
    + intros k x Hk. rewrite Hframe; auto with paths.
    + intros p Hp. apply Hframe.
      * intros ->. apply Hp, in_repository_commits.
      * intros ->. apply Hp, in_repository_staging.
      * intros b ->. apply Hp, in_repository_ref.
Qed.

(** What a sequence of commands leaves as it was, by the text of the
    paths. *)
Lemma run_frame s cs s' :
  run s cs = Some s' →
  readonly s' = readonly s
  ∧ files s' !! HEAD_FILE = files s !! HEAD_FILE
  ∧ (∀ k x, files s !! blob_path k = Some x → files s' !! blob_path k = Some x)
  ∧ (∃ more, default [] (files s' !! COMMITS_FILE)
             = default [] (files s !! COMMITS_FILE) ++ more)
  ∧ (∀ p, ¬ in_repository p → files s' !! p = files s !! p).
Proof.
  revert s. induction cs as [|c cs IH]; intros s.
  - intros [= <-]. split; [done|]. split; [done|]. split; [done|].
    split; [|done]. exists []. by rewrite app_nil_r.
  - cbn [run]. destruct (exec s c) as [t|] eqn:Hexec; [|done]. intros Hrun.
    destruct (exec_preserves _ _ _ Hexec) as (Hro1 & Hhead1 & Hblob1 & [m1 Hlog1] & Hwork1).
    destruct (IH _ Hrun) as (Hro2 & Hhead2 & Hblob2 & [m2 Hlog2] & Hwork2).
    split; [congruence|]. split; [congruence|]. split; [by auto|]. split.
    + exists (m1 ++ m2). by rewrite Hlog2, Hlog1, (assoc_L (++)).
    + intros p Hp. rewrite Hwork2, Hwork1 by done. done.
Qed.

(** X18. What no sequence of [mygit add] and [mygit commit] does on
    a branch whose name is one path component, whether the commands
    succeed or fail: it changes no permission, it does not switch the
    branch, it changes or removes no blob of the object store, it removes
    or rewrites nothing of the commit log, which only grows at its end,
    and it touches no file whose path, in normal form, does not lead into
    [.mygit]. *)
Theorem run_preserves s cs s' :
  plain_name (current_branch s) →
  run s cs = Some s' →
  readonly s' = readonly s
  ∧ current_branch s' = current_branch s
  ∧ (∀ k x, files s !! blob_path k = Some x → files s' !! blob_path k = Some x)
  ∧ (∃ more, default [] (files s' !! COMMITS_FILE)
             = default [] (files s !! COMMITS_FILE) ++ more)
  ∧ (∀ p, work_path p → files s' !! p = files s !! p).
Proof.
  intros _ (Hro & Hhead & Hblob & Hlog & Hwork)%run_frame.
  split; [done|]. split; [by apply current_branch_same|].
  split; [done|]. split; [done|].
  intros p Hp%work_path_outside. by apply Hwork.
Qed.

Lemma run_preserves_witness :
  ∃ s', run work_repo [DoAdd (B "a.txt"); DoCommit (B "first") (B "2025-01-15 14:30:00")]
        = Some s'
    ∧ files s' !! B "a.txt" = Some (B "hello")
    ∧ current_branch s' = B "main".
Proof.
  set (cs := [DoAdd (B "a.txt"); DoCommit (B "first") (B "2025-01-15 14:30:00")]).
  assert (∃ s', run work_repo cs = Some s') as [s' Hrun].
  { eexists. by_computation. }
  destruct (run_preserves work_repo cs s') as (_ & Hbranch & _ & _ & Hwork);
    [compute_done|exact Hrun|].
  exists s'. split; [exact Hrun|]. split.
  - rewrite Hwork; [by_computation|compute_done].
  - rewrite Hbranch. by_computation.
Defined.



(** ** Consistency of the object store *)

Lemma save_blob_consistent s content s1 :
  store_consistent s → save_blob s content (hash_content content) = Some s1 →
  store_consistent s1.
Proof.
  intros Hinv [[_ ->]|(Hnone & _ & ->)]%save_blob_cases; [done|].
  intros k x Hk. destruct (decide (blob_path (hash_content content) = blob_path k))
    as [E|Hne].
  - rewrite <- E, store_lookup. intros [= <-]. rewrite hash_content_cstr.
    apply blob_path_inj; [apply hash_content_range|done|done].
  - rewrite store_lookup_ne by done. by apply Hinv.
Qed.

Lemma store_consistent_same s t :
  (∀ k, files t !! blob_path k = files s !! blob_path k) →
  store_consistent s → store_consistent t.
Proof. intros E Hinv k x Hk. rewrite E. by apply Hinv. Qed.

Lemma exec_store_consistent s c s' :
  store_consistent s → exec s c = Some s' → store_consistent s'.
Proof.
  intros Hinv. destruct c as [f|msg now]; cbn [exec].
  - unfold mygit_add. destruct (file_exists s f); cbn [negb]; [|by intros [= <-]].
    destruct (read_file s f MAX_CONTENT) as [content|]; [|by intros [= <-]].
    destruct (save_blob s content (hash_content content)) as [s1|] eqn:Hsave;
      [|by intros [= <-]].
    apply save_blob_consistent in Hsave; [|done].
    destruct (stage s1 f (hash_content content)) as [h t|e t|] eqn:Hstage; [| |done].
    + intros [= <-]. apply stage_appends in Hstage as (_ & _ & Hframe & _).
      apply (store_consistent_same s1); [|done].
      intros k. apply Hframe, blob_path_not_staging.
    + intros [= <-]. by apply stage_failed in Hstage as (_ & _ & ->).
  - destruct (mygit_commit s msg now) as [c t|e t|] eqn:Hcommit; [| |done].
    + intros [= <-]. apply (store_consistent_same s); [|done].
      intros k. by apply (mygit_commit_blob_kept _ _ _ _ _ _ Hcommit).
    + intros [= <-]. by apply mygit_commit_failed in Hcommit as ->.
Qed.

(** X20. The object store stays consistent.  If every blob is
    stored under the fingerprint of its content, then after any sequence
    of [mygit add] and [mygit commit] on a branch whose name is one path
    component every blob still is, also when two contents share a
    fingerprint, since the second one is not stored.  So a staged entry
    whose blob is in the store points to content with the fingerprint the
    entry records. *)
Theorem run_store_consistent s cs s' :
  store_consistent s → plain_name (current_branch s) → run s cs = Some s' →
  store_consistent s'
  ∧ ∀ e x, e ∈ staged_entries s' → files s' !! blob_path e.2 = Some x →
      hash_content x = e.2.
Proof.
  intros Hinv _ Hrun.
  assert (store_consistent s') as Hinv'.
  { revert s Hinv Hrun. induction cs as [|c cs IH]; intros s Hinv.
    - by intros [= <-].
    - cbn [run]. destruct (exec s c) as [t|] eqn:Hexec; [|done].
      apply IH. by apply (exec_store_consistent s c). }
  split; [done|]. intros e x He Hx. apply Hinv'; [|done].
  pose proof (staged_entries_shape s') as Hshape. rewrite Forall_forall in Hshape.
  apply (Hshape e He).
Qed.

Lemma run_store_consistent_witness :
  ∃ s', run work_repo [DoAdd (B "a.txt")] = Some s' ∧ store_consistent s'.
Proof.
  set (cs := [DoAdd (B "a.txt")]).
  assert (∃ s', run work_repo cs = Some s') as [s' Hrun].
  { eexists. by_computation. }
  destruct (run_store_consistent work_repo cs s') as [Hinv _];
    [|compute_done|exact Hrun|].
  - intros k x _ Hx. exfalso. revert Hx. unfold work_repo, disk_of. cbn [files].
    intros Hx%elem_of_list_to_map_2.
    pose proof (blob_path_prefix k) as Hk.
    repeat (apply elem_of_cons in Hx as [Hx|Hx];
            [injection Hx as Hp _; rewrite Hp in Hk; revert Hk; vm_compute;
             discriminate|]).
    by apply elem_of_nil in Hx.
  - exists s'. split; [exact Hrun|exact Hinv].
Defined.

(** ** Initialising a repository *)

Lemma create_directory_new w path :
  path ∉ wd_dirs w → files (wd_disk w) !! path = None →
  path ∉ readonly (wd_disk w) →
  parent_dir path = [] ∨ parent_dir path ∈ wd_dirs w →
  create_directory w path
  = Some {| wd_disk := wd_disk w; wd_dirs := {[path]} ∪ wd_dirs w |}.
Proof.
  intros Hdir Hfile Hrw Hparent. unfold create_directory, file_exists, fopen_r.
  rewrite bool_decide_eq_false_2 by done. rewrite Hfile.
  rewrite bool_decide_eq_false_2 by done.
  rewrite bool_decide_eq_false_2; [done|]. intros [? ?]. by destruct Hparent.
Qed.

Lemma create_directory_adds w path w' :
  create_directory w path = Some w' →
  wd_disk w' = wd_disk w ∧ wd_dirs w' = {[path]} ∪ wd_dirs w.
Proof.
  unfold create_directory.
  repeat match goal with |- context [if ?b then _ else _] => destruct b; [done|] end.
  by intros [= <-].
Qed.

(** What [mygit_init] creates where there is no repository. *)
Lemma mygit_init_new w :
  no_repository w →
  ∃ d, mygit_init w
       = (0, {| wd_disk := d;
                wd_dirs := {[REFS_DIR]} ∪ ({[OBJECTS_DIR]} ∪ ({[MYGIT_DIR]} ∪ wd_dirs w)) |})
    ∧ readonly d = readonly (wd_disk w)
    ∧ files d !! HEAD_FILE = Some (B "main")
    ∧ files d !! COMMITS_FILE = Some COMMITS_HEADER
    ∧ files d !! STAGING_FILE = Some STAGING_HEADER
    ∧ files d !! ref_path (B "main") = Some (B "0")
    ∧ ∀ p, p ≠ HEAD_FILE → p ≠ COMMITS_FILE → p ≠ STAGING_FILE →
        p ≠ ref_path (B "main") → files d !! p = files (wd_disk w) !! p.
Proof.
  intros Hnone.
  destruct (Hnone MYGIT_DIR) as (Hd0 & Hf0 & Hr0); [by left|].
  destruct (Hnone OBJECTS_DIR) as (Hd1 & Hf1 & Hr1); [by right|].
  destruct (Hnone REFS_DIR) as (Hd2 & Hf2 & Hr2); [by right|].
  destruct (Hnone HEAD_FILE) as (_ & _ & Hr3); [by right|].
  destruct (Hnone COMMITS_FILE) as (_ & _ & Hr4); [by right|].
  destruct (Hnone STAGING_FILE) as (_ & _ & Hr5); [by right|].
  destruct (Hnone (ref_path (B "main"))) as (_ & _ & Hr6); [by right|].
  unfold mygit_init, directory_exists.
  rewrite bool_decide_eq_false_2 by done.
  rewrite create_directory_new by (done || by left).
  rewrite create_directory_new; cbn [wd_disk wd_dirs];
    [|by apply not_elem_of_union|done|done
     |right; apply elem_of_union_l; by apply elem_of_singleton].
  rewrite create_directory_new; cbn [wd_disk wd_dirs];
    [|rewrite !not_elem_of_union, !not_elem_of_singleton; by split_and!|done|done
     |right; apply elem_of_union_r, elem_of_union_l; by apply elem_of_singleton].
  unfold write_file, fopen_w. rewrite decide_False by done.
  cbn [default from_option Datatypes.id readonly store].
  rewrite !decide_False by done.
  cbn [default from_option Datatypes.id readonly store with_disk wd_disk wd_dirs].
  eexists. split; [done|]. split; [done|].
  split. { rewrite !store_lookup_ne by done. by rewrite store_lookup. }
  split. { rewrite !store_lookup_ne by done. by rewrite store_lookup. }
  split. { rewrite !store_lookup_ne by done. by rewrite store_lookup. }
  split. { by rewrite store_lookup. }
  intros p H1 H2 H3 H4. by rewrite !store_lookup_ne by by apply not_eq_sym.
Qed.

(** X21. [mygit_init] where there is no repository, that is where
    [.mygit] and the paths below it do not exist and can be created: it
    returns 0, creates the three directories, writes HEAD, the commit log,
    the staging file and the reference of main with their initial texts,
    and changes no other file.  The repository it leaves is on branch
    main, whose head is 0; the next commit id is 1; nothing is staged; and
    [mygit_commit] reports NothingToCommit. *)
Theorem mygit_init_fresh w :
  no_repository w →
  ∃ w', mygit_init w = (0, w')
    ∧ wd_dirs w' = {[REFS_DIR; OBJECTS_DIR; MYGIT_DIR]} ∪ wd_dirs w
    ∧ files (wd_disk w') !! HEAD_FILE = Some (B "main")
    ∧ files (wd_disk w') !! COMMITS_FILE = Some COMMITS_HEADER
    ∧ files (wd_disk w') !! STAGING_FILE = Some STAGING_HEADER
    ∧ files (wd_disk w') !! ref_path (B "main") = Some (B "0")
    ∧ (∀ p, p ≠ HEAD_FILE → p ≠ COMMITS_FILE → p ≠ STAGING_FILE →
         p ≠ ref_path (B "main") →
         files (wd_disk w') !! p = files (wd_disk w) !! p)
    ∧ current_branch (wd_disk w') = B "main"
    ∧ get_last_commit_id_on_branch (wd_disk w') (B "main") = 0
    ∧ get_next_commit_id (wd_disk w') = 1
    ∧ staged_entries (wd_disk w') = []
    ∧ ∀ msg now, mygit_commit (wd_disk w') msg now
                 = CommitFailed NothingToCommit (wd_disk w').
Proof.
  intros (d & Hinit & _ & Hhead & Hlog & Hstaging & Href & Hframe)%mygit_init_new.
  assert (count_staged_files d = 0) as Hcount.
  { unfold count_staged_files, fopen_r. by rewrite Hstaging. }
  eexists. split; [done|]. cbn [wd_disk wd_dirs].
  split; [by rewrite !(assoc_L (∪))|]. split; [done|]. split; [done|].
  split; [done|]. split; [done|]. split; [done|].
  split. { unfold current_branch, get_current_branch, read_file, fopen_r.
           by rewrite Hhead. }
  split. { unfold get_last_commit_id_on_branch, read_file, fopen_r. by rewrite Href. }
  split. { unfold get_next_commit_id, fopen_r. by rewrite Hlog. }
  split. { unfold staged_entries, fopen_r. by rewrite Hstaging. }
  intros msg now. unfold mygit_commit. by rewrite Hcount.
Qed.

Lemma mygit_init_fresh_witness :
  ∃ w', mygit_init (plain_workdir [(B "a.txt", B "hello"); (B "b.txt", B "world")])
        = (0, w')
    ∧ current_branch (wd_disk w') = B "main"
    ∧ get_next_commit_id (wd_disk w') = 1
    ∧ files (wd_disk w') !! B "a.txt" = Some (B "hello").
Proof.
  set (w := plain_workdir [(B "a.txt", B "hello"); (B "b.txt", B "world")]).
  destruct (mygit_init_fresh w)
    as (w' & Hinit & _ & _ & _ & _ & _ & Hframe & Hbranch & _ & Hnext & _).
  - intros p Hp. split; [apply not_elem_of_empty|]. split; [|apply not_elem_of_empty].
    unfold w, plain_workdir, disk_of. cbn [wd_disk files].
    apply not_elem_of_list_to_map_1. cbn [fmap list_fmap fst].
    rewrite !not_elem_of_cons. split; [|split; [|apply not_elem_of_nil]].
    + intros ->. destruct Hp as [Hp|Hp]; revert Hp; vm_compute; discriminate.
    + intros ->. destruct Hp as [Hp|Hp]; revert Hp; vm_compute; discriminate.
  - exists w'. split; [exact Hinit|]. split; [exact Hbranch|]. split; [exact Hnext|].
    rewrite Hframe by (vm_compute; discriminate). by_computation.
Defined.

(** X22. [mygit_init] returns 0 or -1.  After a 0, running it
    again returns 0 and changes nothing.  After a -1 no file has been
    written, but the directories created before the failure stay: when
    [.mygit] is one of them, running [mygit_init] again returns 0, as for
    a repository that is already initialised, and writes neither HEAD nor
    any other file. *)
Theorem mygit_init_again w r w' :
  mygit_init w = (r, w') →
  (r = 0 ∨ r = -1)
  ∧ (r = 0 → mygit_init w' = (0, w'))
  ∧ (r = -1 → wd_disk w' = wd_disk w
              ∧ (MYGIT_DIR ∈ wd_dirs w' → mygit_init w' = (0, w'))).
Proof.
  assert (∀ v, MYGIT_DIR ∈ wd_dirs v → mygit_init v = (0, v)) as Hdone.
  { intros v Hv. unfold mygit_init, directory_exists.
    by rewrite bool_decide_eq_true_2. }
  unfold mygit_init at 1, directory_exists.
  destruct (decide (MYGIT_DIR ∈ wd_dirs w)) as [Hin|Hout].
  { rewrite bool_decide_eq_true_2 by done. intros [= <- <-].
    split; [by left|]. split; [by auto|done]. }
  rewrite bool_decide_eq_false_2 by done.
  destruct (create_directory w MYGIT_DIR) as [w1|] eqn:H1.
  2:{ intros [= <- <-]. split; [by right|]. split; [done|]. by auto. }
  apply create_directory_adds in H1 as [Hdisk1 Hdirs1].
  destruct (create_directory w1 OBJECTS_DIR) as [w2|] eqn:H2.
  2:{ intros [= <- <-]. split; [by right|]. split; [done|]. by auto. }
  apply create_directory_adds in H2 as [Hdisk2 Hdirs2].
  destruct (create_directory w2 REFS_DIR) as [w3|] eqn:H3.
  2:{ intros [= <- <-]. split; [by right|]. split; [done|].
      intros _. split; [congruence|by auto]. }
  apply create_directory_adds in H3 as [Hdisk3 Hdirs3].
  destruct (write_file (wd_disk w3) HEAD_FILE (B "main")) as [d4|].
  2:{ intros [= <- <-]. split; [by right|]. split; [done|].
      intros _. split; [congruence|by auto]. }
  intros [= <- <-]. split; [by left|]. split; [|done].
  intros _. apply Hdone. cbn [with_disk wd_dirs]. rewrite Hdirs3, Hdirs2, Hdirs1.
  apply elem_of_union_r, elem_of_union_r, elem_of_union_l. by apply elem_of_singleton.
Qed.

Lemma mygit_init_again_witness :
  ∃ w', mygit_init locked_head_workdir = (-1, w')
    ∧ mygit_init w' = (0, w')
    ∧ files (wd_disk w') !! HEAD_FILE = None.
Proof.
  set (r := mygit_init locked_head_workdir).
  assert (r = (-1, r.2)) as Hr by by_computation.
  destruct (mygit_init_again _ _ _ Hr) as (_ & _ & Hfail).
  destruct Hfail as [Hdisk Hagain]; [done|].
  exists r.2. split; [exact Hr|]. split.
  - apply Hagain. vm_compute. compute_done.
  - rewrite Hdisk. by_computation.
Defined.

(** A write that is skipped when the file cannot be opened. *)
Lemma fopen_w_default_frame d p text :
  readonly (default d (fopen_w d p text)) = readonly d
  ∧ ∀ q, q ≠ p → files (default d (fopen_w d p text)) !! q = files d !! q.
Proof.
  unfold fopen_w. destruct (decide (p ∈ readonly d)); [done|].
  split; [done|]. intros q Hq. cbn [default from_option Datatypes.id].
  by rewrite store_lookup_ne.
Qed.

Lemma mygit_init_frame w r w' :
  mygit_init w = (r, w') →
  readonly (wd_disk w') = readonly (wd_disk w)
  ∧ (∀ p, ¬ in_repository p → files (wd_disk w') !! p = files (wd_disk w) !! p)
  ∧ ∀ p, p ∈ wd_dirs w → p ∈ wd_dirs w'.
Proof.
  unfold mygit_init. destruct (directory_exists w MYGIT_DIR).
  { by intros [= _ <-]. }
  destruct (create_directory w MYGIT_DIR) as [w1|] eqn:H1; [|by intros [= _ <-]].
  apply create_directory_adds in H1 as [Hdisk1 Hdirs1].
  destruct (create_directory w1 OBJECTS_DIR) as [w2|] eqn:H2.
  2:{ intros [= _ <-]. rewrite Hdisk1, Hdirs1. split; [done|]. split; [done|].
      intros p Hp. by apply elem_of_union_r. }
  apply create_directory_adds in H2 as [Hdisk2 Hdirs2].
  destruct (create_directory w2 REFS_DIR) as [w3|] eqn:H3.
  2:{ intros [= _ <-]. rewrite Hdisk2, Hdirs2, Hdisk1, Hdirs1.
      split; [done|]. split; [done|]. intros p Hp. by apply elem_of_union_r, elem_of_union_r. }
  apply create_directory_adds in H3 as [Hdisk3 Hdirs3].
  assert (∀ p, p ∈ wd_dirs w → p ∈ wd_dirs w3) as Hdirs.
  { intros p Hp. rewrite Hdirs3, Hdirs2, Hdirs1.
    by apply elem_of_union_r, elem_of_union_r, elem_of_union_r. }
  assert (wd_disk w3 = wd_disk w) as Hdisk by congruence.
  rewrite Hdisk.
  destruct (write_file (wd_disk w) HEAD_FILE (B "main")) as [d4|] eqn:H4.
  2:{ intros [= _ <-]. by rewrite Hdisk. }
  assert (readonly d4 = readonly (wd_disk w)
          ∧ ∀ q, q ≠ HEAD_FILE → files d4 !! q = files (wd_disk w) !! q)
    as [Hro4 Hframe4].
  { revert H4. unfold write_file, fopen_w.
    destruct (decide (HEAD_FILE ∈ readonly (wd_disk w))); [done|]. intros [= <-].
    split; [done|]. intros q Hq. by rewrite store_lookup_ne. }
  set (d5 := default d4 (fopen_w d4 COMMITS_FILE COMMITS_HEADER)).
  set (d6 := default d5 (fopen_w d5 STAGING_FILE STAGING_HEADER)).
  set (d7 := default d6 (write_file d6 (ref_path (B "main")) (B "0"))).
  destruct (fopen_w_default_frame d4 COMMITS_FILE COMMITS_HEADER) as [Hro5 Hframe5].
  destruct (fopen_w_default_frame d5 STAGING_FILE STAGING_HEADER) as [Hro6 Hframe6].
  destruct (fopen_w_default_frame d6 (ref_path (B "main")) (cstr (B "0")))
    as [Hro7 Hframe7].
  fold d5 in Hro5, Hframe5. fold d6 in Hro6, Hframe6.
  change (default d6 _) with d7 in Hro7, Hframe7.
  clearbody d7 d6 d5.
  intros [= _ <-]. cbn [with_disk wd_disk wd_dirs].
  split; [congruence|]. split; [|done]. intros p Hp.
  rewrite Hframe7, Hframe6, Hframe5, Hframe4; [done|by intros ->..].
Qed.

(** ** The command line *)

Lemma no_repository_file w f data p :
  no_repository w → files (wd_disk w) !! f = Some data →
  p = MYGIT_DIR ∨ in_repository p → f ≠ p.
Proof.
  intros Hnone Hf Hp ->. destruct (Hnone p Hp) as (_ & Hfile & _). congruence.
Qed.

Lemma first_commit_steps w f data msg now :
  no_repository w → files (wd_disk w) !! f = Some data → name_ok f →
  let h := hash_content (staged_content data) in
  let c := {| id := 1; message := take (MAX_MESSAGE - 1) (cstr msg);
              timestamp := cstr now; branch := B "main"; parent_id := -1;
              entries := [(f, h)] |} in
  ∃ w1 s2 s3,
    mygit_init w = (0, w1) ∧ MYGIT_DIR ∈ wd_dirs w1
    ∧ mygit_add (wd_disk w1) f = Staged h s2
    ∧ mygit_commit s2 msg now = Committed c s3
    ∧ files s3 !! COMMITS_FILE = Some (COMMITS_HEADER ++ commit_record c)
    ∧ get_last_commit_id_on_branch s3 (B "main") = 1
    ∧ staged_entries s3 = []
    ∧ read_blob s3 h = Some (staged_content data)
    ∧ files s3 !! f = Some data.
Proof.
  intros Hnone Hf Hname h c.
  destruct (mygit_init_new w Hnone)
    as (d & Hinit & Hro & Hhead & Hlog & Hstaging & Href & Hframe).
  assert (∀ p, p = MYGIT_DIR ∨ in_repository p → f ≠ p) as Hout
    by (intros p; by apply (no_repository_file w f data)).
  assert (files d !! f = Some data) as Hfd.
  { rewrite Hframe; [done|apply Hout; by right..]. }
  assert (∀ p, in_repository p → p ∉ readonly d) as Hrw.
  { intros p Hp. rewrite Hro. apply Hnone. by right. }
  assert (files d !! blob_path h = None) as Hblob.
  { rewrite Hframe; [|auto with paths..]. apply Hnone. right. apply in_repository_blob. }
  (* add *)
  destruct (mygit_add_steps d f data Hfd) as (s1 & Hadd & Hstaging1 & Hro1 & _ & _);
    [apply Hrw, in_repository_blob|]. fold h in Hadd.
  assert (staging_is s1 [header_line]) as Hs1.
  { split; [by rewrite Hstaging1, Hstaging|compute_done]. }
  assert (restage_fits f [header_line]) as Hfit.
  { intros _. etrans; [apply length_filter|]. compute_done. }
  destruct (stage_entries s1 f h [header_line]) as (s2 & Hstage & Hentries & Hs2 & Hro2);
    [done|done|apply hash_content_range|rewrite Hro1; by apply Hrw|done|].
  rewrite Hstage in Hadd.
  assert (staged_entries s1 = []) as Hnil.
  { unfold staged_entries, fopen_r. by rewrite Hstaging1, Hstaging. }
  rewrite Hnil in Hentries. cbn [filter list_filter app] in Hentries.
  destruct (mygit_add_staged d f data h s2 Hfd Hadd)
    as (_ & _ & Hframe2 & Hblob2 & _).
  rewrite Hblob in Hblob2. cbn [default from_option] in Hblob2.
  assert (filter (λ l, line_name l ≠ Some f) [header_line] = [header_line]) as Hkeep.
  { apply filter_other_names_id. rewrite Exists_cons, Exists_nil.
    intros [Hl|[]]. by apply (line_name_comment header_line f Hname). }
  rewrite Hkeep in Hs2.
  assert (files s2 !! STAGING_FILE = Some (unlines [header_line; entry_text f h]))
    as Hstaging2.
  { apply stage_appends in Hstage as (_ & _ & _ & [before Hline]).
    destruct Hs2 as [Hdata _]. rewrite Hline in Hdata |- *. f_equal. exact Hdata. }
  assert (count_staged_files s2 ≠ 0) as Hcount.
  { apply (count_staged_files_entries s2 _ Hstaging2); [|by rewrite Hentries].
    unfold unlines. cbn [fmap list_fmap concat]. rewrite !length_app.
    unfold entry_text. rewrite length_app. cbn [length].
    pose proof (fmt_lu_length h). destruct Hname as (_ & _ & _ & _ & _ & _ & Hlen).
    unfold MAX_FILENAME in Hlen. change (length header_line) with 20%nat. lia. }
  (* commit *)
  assert (files s2 !! HEAD_FILE = Some (B "main")) as Hhead2
    by (rewrite Hframe2; auto with paths).
  assert (files s2 !! COMMITS_FILE = Some COMMITS_HEADER) as Hlog2
    by (rewrite Hframe2; auto with paths).
  assert (files s2 !! ref_path (B "main") = Some (B "0")) as Href2
    by (rewrite Hframe2; auto with paths).
  assert (readonly s2 = readonly d) as Hro' by congruence.
  destruct (mygit_commit_succeeds s2 msg now) as [s3 Hcommit]; [done| | |].
  { rewrite Hentries. apply Forall_singleton. apply Hname. }
  { rewrite Hro'. by apply Hrw. }
  assert (current_branch s2 = B "main") as Hbranch.
  { unfold current_branch, get_current_branch, read_file, fopen_r. by rewrite Hhead2. }
  assert (get_next_commit_id s2 = 1) as Hid.
  { unfold get_next_commit_id, fopen_r. by rewrite Hlog2. }
  assert (get_last_commit_id_on_branch s2 (B "main") = 0) as Hlast.
  { unfold get_last_commit_id_on_branch, read_file, fopen_r. by rewrite Href2. }
  rewrite Hbranch, Hid, Hlast, Hentries in Hcommit.
  change (if 0 =? 0 then -1 else 0) with (-1) in Hcommit.
  change (take COMMIT_SLOTS [(f, h)]) with [(f, h)] in Hcommit. fold c in Hcommit.
  pose proof (mygit_commit_frame _ _ _ _ _ Hcommit) as [_ Hframe3].
  exists {| wd_disk := d;
            wd_dirs := {[REFS_DIR]} ∪ ({[OBJECTS_DIR]} ∪ ({[MYGIT_DIR]} ∪ wd_dirs w)) |},
    s2, s3.
  split; [done|]. split.
  { cbn [wd_dirs]. apply elem_of_union_r, elem_of_union_r, elem_of_union_l.
    by apply elem_of_singleton. }
  split; [done|]. split; [done|]. split.
  { rewrite (mygit_commit_log _ _ _ _ _ Hcommit). by rewrite Hlog2. }
  split.
  { unfold get_last_commit_id_on_branch, read_file, fopen_r.
    pose proof (mygit_commit_ref _ _ _ _ _ Hcommit) as Hwritten.
    cbn [branch id c] in Hwritten. rewrite Hwritten.
    rewrite decide_False by (rewrite Hro'; apply Hrw, in_repository_ref). done. }
  split.
  { unfold staged_entries, fopen_r.
    rewrite (mygit_commit_staging _ _ _ _ _ Hcommit).
    rewrite decide_False by (rewrite Hro'; apply Hrw, in_repository_staging). done. }
  split.
  { rewrite read_blob_lookup, (mygit_commit_blob_kept _ _ _ _ _ _ Hcommit), Hblob2.
    cbn [fmap option_fmap option_map compose]. f_equal.
    unfold staged_content.
    rewrite (take_ge (cstr _)).
    - apply cstr_idemp.
    - etrans; [apply cstr_length|]. rewrite length_take. lia. }
  rewrite Hframe3; [|apply Hout; right..].
  - rewrite Hframe2; [done|apply Hout; right..].
    + apply in_repository_staging.
    + apply in_repository_blob.
  - apply in_repository_commits.
  - apply in_repository_staging.
  - cbn [branch c]. apply in_repository_ref.
Qed.

(** X23. The first commit, through [main].  In a directory
    without repository that holds a file with a well-formed name,
    [mygit init], [mygit add <file>] and [mygit commit <msg>] each return
    0.  The log then holds its header followed by the record of commit 1
    on main, without parent, with the message cut to [MAX_MESSAGE - 1]
    bytes and the file with the fingerprint of its staged content.  The
    head of main is 1, nothing is staged, the blob of the fingerprint
    reads back as the staged content, and the file itself is as it
    was. *)
Theorem main_first_commit now prog w f data msg :
  no_repository w → files (wd_disk w) !! f = Some data → name_ok f →
  let h := hash_content (staged_content data) in
  let c := {| id := 1; message := take (MAX_MESSAGE - 1) (cstr msg);
              timestamp := cstr now; branch := B "main"; parent_id := -1;
              entries := [(f, h)] |} in
  ∃ w1 w2 w3,
    main now [prog; B "init"] w = Exit 0 w1
    ∧ main now [prog; B "add"; f] w1 = Exit 0 w2
    ∧ main now [prog; B "commit"; msg] w2 = Exit 0 w3
    ∧ files (wd_disk w3) !! COMMITS_FILE = Some (COMMITS_HEADER ++ commit_record c)
    ∧ get_last_commit_id_on_branch (wd_disk w3) (B "main") = 1
    ∧ staged_entries (wd_disk w3) = []
    ∧ read_blob (wd_disk w3) h = Some (staged_content data)
    ∧ files (wd_disk w3) !! f = Some data.
Proof.
  intros Hnone Hf Hname h c.
  destruct (first_commit_steps w f data msg now Hnone Hf Hname)
    as (w1 & s2 & s3 & Hinit & Hdir & Hadd & Hcommit & Hrest).
  fold h in Hadd, Hrest. fold c in Hcommit, Hrest.
  assert (directory_exists w1 MYGIT_DIR = true) as Hrepo
    by by apply bool_decide_eq_true_2.
  exists w1, (with_disk w1 s2), (with_disk (with_disk w1 s2) s3).
  split; [|split; [|split; [|done]]].
  - unfold main. change (strcmp_eq (B "init") (B "init")) with true.
    cbn match. by rewrite Hinit.
  - unfold main. change (strcmp_eq (B "add") (B "init")) with false.
    change (strcmp_eq (B "add") (B "add")) with true. cbn match.
    rewrite Hrepo. cbn [negb]. rewrite cstr_id by apply Hname. by rewrite Hadd.
  - unfold main. change (strcmp_eq (B "commit") (B "init")) with false.
    change (strcmp_eq (B "commit") (B "add")) with false.
    change (strcmp_eq (B "commit") (B "commit")) with true. cbn match.
    unfold directory_exists in *. cbn [with_disk wd_dirs wd_disk].
    rewrite Hrepo. cbn [negb]. by rewrite Hcommit.
Qed.

Lemma main_first_commit_witness :
  ∃ w1 w2 w3,
    main (B "2025-01-15 14:30:00") [B "mygit"; B "init"]
      (plain_workdir [(B "a.txt", B "hello")]) = Exit 0 w1
    ∧ main (B "2025-01-15 14:30:00") [B "mygit"; B "add"; B "a.txt"] w1 = Exit 0 w2
    ∧ main (B "2025-01-15 14:30:00") [B "mygit"; B "commit"; B "first"] w2 = Exit 0 w3
    ∧ get_last_commit_id_on_branch (wd_disk w3) (B "main") = 1.
Proof.
  destruct (main_first_commit (B "2025-01-15 14:30:00") (B "mygit")
              (plain_workdir [(B "a.txt", B "hello")]) (B "a.txt") (B "hello")
              (B "first"))
    as (w1 & w2 & w3 & H1 & H2 & H3 & _ & Hhead & _).
  - intros p Hp. split; [apply not_elem_of_empty|]. split; [|apply not_elem_of_empty].
    unfold plain_workdir, disk_of. cbn [wd_disk files].
    apply not_elem_of_list_to_map_1. cbn [fmap list_fmap fst].
    rewrite !not_elem_of_cons. split; [|apply not_elem_of_nil].
    intros ->. destruct Hp as [Hp|Hp]; revert Hp; vm_compute; discriminate.
  - by_computation.
  - compute_done.
  - exists w1, w2, w3. split; [exact H1|]. split; [exact H2|].
    split; [exact H3|exact Hhead].
Defined.

(** X24. Outside a repository, that is without a directory
    [.mygit], every command other than init makes [main] return 1 and
    leave the working directory as it was, whatever the arguments; this
    holds for [help] and for unknown commands too. *)
Theorem main_outside_repository now argv command w :
  argv !! 1%nat = Some command → cstr command ≠ B "init" →
  MYGIT_DIR ∉ wd_dirs w →
  main now argv w = Exit 1 w.
Proof.
  intros Hcmd Hinit Hdir. destruct argv as [|prog [|command' args]]; [done|done|].
  injection Hcmd as ->. unfold main, strcmp_eq at 1.
  rewrite bool_decide_eq_false_2 by done.
  unfold directory_exists. by rewrite bool_decide_eq_false_2.
Qed.

Lemma main_outside_repository_witness :
  main (B "2025-01-15 14:30:00") [B "mygit"; B "help"] (plain_workdir [])
  = Exit 1 (plain_workdir []).
Proof.
  apply (main_outside_repository _ _ (B "help")).
  - by_computation.
  - vm_compute. discriminate.
  - apply not_elem_of_empty.
Defined.

(** What [main] leaves as it was, by the text of the paths. *)
Lemma main_frame now argv w code w' :
  main now argv w = Exit code w' →
  (code = 0 ∨ code = 1 ∨ code = -1)
  ∧ readonly (wd_disk w') = readonly (wd_disk w)
  ∧ (∀ p, p ∈ wd_dirs w → p ∈ wd_dirs w')
  ∧ ∀ p, ¬ in_repository p → files (wd_disk w') !! p = files (wd_disk w) !! p.
Proof.
  destruct argv as [|prog [|command args]].
  { intros [= <- <-]. auto. }
  { intros [= <- <-]. auto. }
  unfold main. destruct (strcmp_eq command (B "init")).
  { destruct (mygit_init w) as [r w1] eqn:Hinit. intros [= <- <-].
    destruct (mygit_init_frame _ _ _ Hinit) as (Hro & Hframe & Hdirs).
    split; [|done]. revert Hinit. unfold mygit_init.
    repeat match goal with
           | |- context [match ?x with _ => _ end] => destruct x
           end; intros [= <- _]; auto. }
  destruct (directory_exists w MYGIT_DIR); cbn [negb]; [|intros [= <- <-]; auto].
  destruct (strcmp_eq command (B "add")).
  { destruct args as [|filename args]; [intros [= <- <-]; auto|].
    destruct (mygit_add (wd_disk w) (cstr filename)) as [h s|e s|] eqn:Hadd;
      [| |done]; intros [= <- <-]; cbn [with_disk wd_disk wd_dirs].
    - destruct (exec_preserves (wd_disk w) (DoAdd (cstr filename)) s)
        as (Hro & _ & _ & _ & Hwork); [by (cbn [exec]; rewrite Hadd)|]. auto.
    - destruct (exec_preserves (wd_disk w) (DoAdd (cstr filename)) s)
        as (Hro & _ & _ & _ & Hwork); [by (cbn [exec]; rewrite Hadd)|]. auto. }
  destruct (strcmp_eq command (B "commit")).
  { destruct args as [|msg args]; [intros [= <- <-]; auto|].
    destruct (mygit_commit (wd_disk w) msg now) as [c s|e s|] eqn:Hcommit;
      [| |done]; intros [= <- <-]; cbn [with_disk wd_disk wd_dirs].
    - destruct (exec_preserves (wd_disk w) (DoCommit msg now) s)
        as (Hro & _ & _ & _ & Hwork); [by (cbn [exec]; rewrite Hcommit)|]. auto.
    - destruct (exec_preserves (wd_disk w) (DoCommit msg now) s)
        as (Hro & _ & _ & _ & Hwork); [by (cbn [exec]; rewrite Hcommit)|]. auto. }
  destruct (strcmp_eq command (B "log")); [done|].
  destruct (strcmp_eq command (B "status")); [done|].
  destruct (strcmp_eq command (B "diff")).
  { destruct args; [intros [= <- <-]; auto|done]. }
  destruct (strcmp_eq command (B "checkout")).
  { destruct args; [intros [= <- <-]; auto|done]. }
  destruct (strcmp_eq command (B "branch")); [by destruct args|].
  destruct (strcmp_eq command (B "help")); intros [= <- <-]; auto.
Qed.

(** X25. Whenever [main] returns from init, add, commit, help, a
    usage error or an unknown command, the name of the current branch
    being one path component, its return value is 0, 1 or -1, no
    permission has changed, no directory has been removed, and no file
    whose path, in normal form, does not lead into [.mygit] has been
    created, changed or removed. *)
Theorem main_keeps_work_files now argv w code w' :
  plain_name (current_branch (wd_disk w)) →
  main now argv w = Exit code w' →
  (code = 0 ∨ code = 1 ∨ code = -1)
  ∧ readonly (wd_disk w') = readonly (wd_disk w)
  ∧ (∀ p, p ∈ wd_dirs w → p ∈ wd_dirs w')
  ∧ ∀ p, work_path p → files (wd_disk w') !! p = files (wd_disk w) !! p.
Proof.
  intros _ (Hcode & Hro & Hdirs & Hwork)%main_frame.
  split; [done|]. split; [done|]. split; [done|].
  intros p Hp%work_path_outside. by apply Hwork.
Qed.

Lemma main_keeps_work_files_witness :
  ∃ w', main (B "2025-01-15 14:30:00") [B "mygit"; B "init"]
          (plain_workdir [(B "a.txt", B "hello")]) = Exit 0 w'
    ∧ files (wd_disk w') !! B "a.txt" = Some (B "hello").
Proof.
  set (w := plain_workdir [(B "a.txt", B "hello")]).
  set (r := main (B "2025-01-15 14:30:00") [B "mygit"; B "init"] w).
  assert (∃ w', r = Exit 0 w') as [w' Hr].
  { eexists. by_computation. }
  destruct (main_keeps_work_files (B "2025-01-15 14:30:00") [B "mygit"; B "init"]
              w 0 w') as (_ & _ & _ & Hwork); [compute_done|exact Hr|].
  exists w'. split; [exact Hr|]. rewrite Hwork; [by_computation|compute_done].
Defined.
